(** * har2openapi: the traffic-to-specification pipeline of [src/lib.ts]

    A shallow embedding of the functions of [lib.ts] that build an OpenAPI
    document from captured HTTP transactions, and the properties of the
    specification checked against them.

    What is embedded: [pad], [addResponse], [mergeRequestExample],
    [mergeResponseExample], [overwriteMerge], [validateExampleList],
    [filterUrl], [addPath], [addMethod], [deriveSummary], [deriveTag],
    [addQueryStringParams], the loop of [generateSpec] over the captured
    transactions, [generateSchema], [mergeFiles] and [writeExamples].
    Reading and writing files, the sorting and the textual replacement
    that [generateSpec] applies to the finished document, and
    [generateSamples] are left out.

    Conventions of the embedding.
    - A JavaScript string is a [string]; the characters are taken to be
      ASCII (one code unit per character).
    - A JavaScript number met by the pipeline (status codes, body sizes,
      counters, the numbers inside JSON bodies) is an integer that
      JavaScript holds exactly and prints with all its digits: [Z], or
      [nat] for a count.
    - A JavaScript object used as a dictionary is an association list kept
      in the order in which [for ... in], [Object.keys] and
      [JSON.stringify] enumerate it: array-index keys first, by value, then
      the other keys in order of creation.  Values read from a file by
      [JSON.parse] are in that order and have no repeated key.
    - A function that can throw returns an [option]; [None] is the thrown
      exception.  A [try { ... } catch (err) { }] block keeps the mutations
      made before the exception, so its model returns the state reached at
      that point.
    - [JSON.parse] is not embedded: a body comes with the value it parses
      to, or with the fact that parsing it throws.
    - What the repository takes from elsewhere is a variable of the
      embedding: the packages [pluralize], [quicktype-core] and
      [json-schema-to-openapi-schema], and the engine of regular
      expressions of the runtime, which runs the patterns that the
      configuration gives ([RegExpEngine]).  The properties hold for all
      of their values; the examples are run on [fragment_engine]. *)

From Stdlib Require Import String Ascii List ZArith Lia Bool Arith.
From Stdlib Require Import Decimal DecimalString DecimalNat DecimalZ.
Import ListNotations.
Local Open Scope string_scope.

(** ** Strings and numbers *)

(** [n.toString()] for a non-negative integer counter. *)
Definition nat_toString (n : nat) : string :=
  NilZero.string_of_uint (Nat.to_uint n).

(** [n.toString()] for an integer. *)
Definition Number_toString (z : Z) : string :=
  NilZero.string_of_int (Z.to_int z).

(** [new Array(k + 1).join(z)]: [k] copies of [z]. *)
Fixpoint repeat_string (z : string) (k : nat) : string :=
  match k with
  | O => ""
  | S k' => z ++ repeat_string z k'
  end.

(** lib.ts:43 [pad], with its default [z = '0']. *)
Definition pad (m width : nat) : string :=
  let n := nat_toString m in
  if (width <=? String.length n)%nat then n
  else repeat_string "0" (width - String.length n) ++ n.

(** [hay.includes(needle)]. *)
Fixpoint includes (hay needle : string) : bool :=
  prefix needle hay ||
  match hay with
  | "" => false
  | String _ hay' => includes hay' needle
  end.

Definition is_digit (c : ascii) : bool :=
  (48 <=? nat_of_ascii c)%nat && (nat_of_ascii c <=? 57)%nat.

Definition is_lower (c : ascii) : bool :=
  (97 <=? nat_of_ascii c)%nat && (nat_of_ascii c <=? 122)%nat.

Definition is_upper (c : ascii) : bool :=
  (65 <=? nat_of_ascii c)%nat && (nat_of_ascii c <=? 90)%nat.

Definition char_toUpperCase (c : ascii) : ascii :=
  if is_lower c then ascii_of_nat (nat_of_ascii c - 32) else c.

Definition char_toLowerCase (c : ascii) : ascii :=
  if is_upper c then ascii_of_nat (nat_of_ascii c + 32) else c.

Fixpoint toLowerCase (s : string) : string :=
  match s with
  | "" => ""
  | String c s' => String (char_toLowerCase c) (toLowerCase s')
  end.

Fixpoint toUpperCase (s : string) : string :=
  match s with
  | "" => ""
  | String c s' => String (char_toUpperCase c) (toUpperCase s')
  end.

(** lib.ts:214 [capitalize]; the argument is a string by typing. *)
Definition capitalize (s : string) : string :=
  match s with
  | "" => ""
  | String c s' => String (char_toUpperCase c) s'
  end.

(** ** JavaScript objects as ordered dictionaries *)

Definition obj (A : Type) : Type := list (string * A).

Fixpoint digits_value (s : string) (acc : N) : option N :=
  match s with
  | "" => Some acc
  | String c s' =>
      if is_digit c
      then digits_value s' (acc * 10 + N.of_nat (nat_of_ascii c - 48))%N
      else None
  end.

(** A property key is an array index when it is the canonical decimal
    form of an integer below 2^32 - 1; such keys are enumerated first. *)
Definition array_index (k : string) : option N :=
  match k with
  | "" => None
  | String c rest =>
      if Ascii.eqb c "0" && negb (rest =? "") then None
      else match digits_value k 0 with
           | Some n => if (n <? 4294967295)%N then Some n else None
           | None => None
           end
  end.

(** [key_before k k']: the new key [k] is enumerated before the key [k']. *)
Definition key_before (k k' : string) : bool :=
  match array_index k, array_index k' with
  | Some i, Some j => (i <? j)%N
  | Some _, None => true
  | None, _ => false
  end.

(** [o[k]], [None] for [undefined]. *)
Fixpoint obj_get {A : Type} (k : string) (o : obj A) : option A :=
  match o with
  | [] => None
  | (k', v) :: o' => if k =? k' then Some v else obj_get k o'
  end.

(** [o[k] = v]: the value of an existing key is replaced where it stands,
    a new key takes its place in the enumeration order. *)
Fixpoint obj_set {A : Type} (k : string) (v : A) (o : obj A) : obj A :=
  match o with
  | [] => [(k, v)]
  | (k', v') :: o' =>
      if k =? k' then (k, v) :: o'
      else if key_before k k' then (k, v) :: (k', v') :: o'
      else (k', v') :: obj_set k v o'
  end.

(** [delete o[k]]. *)
Fixpoint obj_delete {A : Type} (k : string) (o : obj A) : obj A :=
  match o with
  | [] => []
  | (k', v) :: o' => if k =? k' then o' else (k', v) :: obj_delete k o'
  end.

Definition Object_keys {A : Type} (o : obj A) : list string := map fst o.

(** ** JSON values *)

#[local] Set Warnings "-register-all".

Inductive json : Type :=
| JNull
| JBool (b : bool)
| JNum (n : Z)
| JStr (s : string)
| JArr (items : list json)
| JObj (props : obj json).

(** The truthiness test of [if (v)] and [!v] on a defined value. *)
Definition truthy (v : json) : bool :=
  match v with
  | JNull => false
  | JBool b => b
  | JNum n => negb (n =? 0)%Z
  | JStr s => negb (s =? "")
  | JArr _ | JObj _ => true
  end.

Definition hex_digit (n : nat) : ascii :=
  if (n <? 10)%nat then ascii_of_nat (48 + n) else ascii_of_nat (87 + n).

(** One character of [QuoteJSONString]. *)
Definition quote_char (c : ascii) : string :=
  let n := nat_of_ascii c in
  if (n =? 34)%nat then String "\" (String c "")
  else if (n =? 92)%nat then String "\" (String "\" "")
  else if (n =? 8)%nat then "\b"
  else if (n =? 12)%nat then "\f"
  else if (n =? 10)%nat then "\n"
  else if (n =? 13)%nat then "\r"
  else if (n =? 9)%nat then "\t"
  else if (n <? 32)%nat
       then "\u00" ++ String (hex_digit (n / 16)) (String (hex_digit (n mod 16)) "")
  else String c "".

Fixpoint quote_chars (s : string) : string :=
  match s with
  | "" => ""
  | String c s' => quote_char c ++ quote_chars s'
  end.

Definition QuoteJSONString (s : string) : string :=
  String "034" (quote_chars s ++ String "034" "").

Fixpoint join (sep : string) (l : list string) : string :=
  match l with
  | [] => ""
  | [x] => x
  | x :: l' => x ++ sep ++ join sep l'
  end.

(** [JSON.stringify(v)] without indentation. *)
Fixpoint JSON_stringify (v : json) : string :=
  match v with
  | JNull => "null"
  | JBool true => "true"
  | JBool false => "false"
  | JNum n => Number_toString n
  | JStr s => QuoteJSONString s
  | JArr items =>
      "[" ++ join "," ((fix each (l : list json) : list string :=
                          match l with
                          | [] => []
                          | x :: l' => JSON_stringify x :: each l'
                          end) items) ++ "]"
  | JObj props =>
      "{" ++ join "," ((fix each (l : obj json) : list string :=
                          match l with
                          | [] => []
                          | (k, x) :: l' =>
                              (QuoteJSONString k ++ ":" ++ JSON_stringify x) :: each l'
                          end) props) ++ "}"
  end.

(** [Object.keys(v).length] for a value other than [null]. *)
Definition Object_keys_length (v : json) : nat :=
  match v with
  | JObj props => List.length props
  | JArr items => List.length items
  | JStr s => String.length s
  | _ => 0
  end.

(** ** Deep merge *)

(** lib.ts:670 [overwriteMerge], the [arrayMerge] option of every call. *)
Definition overwriteMerge (destinationArray sourceArray : list json) : list json :=
  sourceArray.

Definition isMergeableObject (v : json) : bool :=
  match v with
  | JArr _ | JObj _ => true
  | _ => false
  end.

(** The one-character strings of [s], keyed by their position from [i]:
    the own properties of a string. *)
Fixpoint string_props (i : nat) (s : string) : obj json :=
  match s with
  | "" => []
  | String c s' => (nat_toString i, JStr (String c "")) :: string_props (S i) s'
  end.

(** Modelled from the spec: [deepmerge] is the npm package imported at
    lib.ts:2, which is not part of the repository (the specification
    describes it as a deep merge in which an array of the later value
    replaces the array of the earlier one).  The definition follows the
    package's algorithm on JSON values: when exactly one of the two values
    is an array the source wins; two arrays are handed to the [arrayMerge]
    option; otherwise the own properties of the source are written over a
    copy of the target, an own property of the target being merged
    recursively with a source property that is an object or an array.  A
    string source has its characters as properties, a number or a boolean
    has none, and the properties of [null] cannot be listed: [None].  The
    package copies the values it returns; on immutable values the copy is
    the value.  Keys that name a member of [Object.prototype] are left
    out of the model. *)
Fixpoint deepmerge (target source : json) {struct source} : option json :=
  match target, source with
  | JArr t, JArr s => Some (JArr (overwriteMerge t s))
  | JArr _, _ => Some source
  | _, JArr _ => Some source
  | _, JObj sprops =>
      let tprops := match target with JObj t => t | _ => [] end in
      (fix mergeObject (l : obj json) (destination : obj json) : option json :=
         match l with
         | [] => Some (JObj destination)
         | (key, sv) :: l' =>
             match (match obj_get key tprops with
                    | Some tv => if isMergeableObject sv then deepmerge tv sv
                                 else Some sv
                    | None => Some sv
                    end) with
             | Some v => mergeObject l' (obj_set key v destination)
             | None => None
             end
         end) sprops tprops
  | _, JStr s =>
      let tprops := match target with JObj t => t | _ => [] end in
      Some (JObj (fold_left (fun d kv => obj_set (fst kv) (snd kv) d)
                            (string_props 0 s) tprops))
  | _, JNum _ | _, JBool _ =>
      Some (JObj (match target with JObj t => t | _ => [] end))
  | _, JNull => None
  end.

(** [merge(target, source, {arrayMerge: overwriteMerge})]. *)
Definition merge (target source : json) : option json := deepmerge target source.

(** ** The specification document

    The part of the OpenAPI document that [lib.ts] reads and writes
    ([OpenApiSpec] and [OperationObject] of @loopback/openapi-v3-types).
    An example object [{value: v}] is held as its value [v]. *)

Definition Examples : Type := obj json.

Record MediaTypeObject : Type := {
  mt_examples : option Examples;
  mt_schema : option json
}.

(** [content]: media type to media type object. *)
Definition Content : Type := obj MediaTypeObject.

Record RequestBodyObject : Type := {
  rb_content : Content
}.

Record ResponseObject : Type := {
  resp_description : option string;
  resp_content : option Content
}.

Record ParameterObject : Type := {
  param_description : string;
  param_in : string;
  param_name : string;
  param_required : option bool;
  param_schema : json
}.

Record Meta : Type := {
  originalPath : string;
  element : option json
}.

Record OperationObject : Type := {
  operationId : string;
  summary : string;
  description : json;
  parameters : list ParameterObject;
  responses : obj ResponseObject;
  tags : list string;
  meta : Meta;
  requestBody : option RequestBodyObject
}.

Definition set_responses (r : obj ResponseObject) (m : OperationObject) : OperationObject :=
  {| operationId := operationId m; summary := summary m;
     description := description m; parameters := parameters m;
     responses := r; tags := tags m; meta := meta m;
     requestBody := requestBody m |}.

Definition set_requestBody (b : option RequestBodyObject) (m : OperationObject) : OperationObject :=
  {| operationId := operationId m; summary := summary m;
     description := description m; parameters := parameters m;
     responses := responses m; tags := tags m; meta := meta m;
     requestBody := b |}.

Definition set_description (d : json) (m : OperationObject) : OperationObject :=
  {| operationId := operationId m; summary := summary m;
     description := d; parameters := parameters m;
     responses := responses m; tags := tags m; meta := meta m;
     requestBody := requestBody m |}.

Definition set_parameters (p : list ParameterObject) (m : OperationObject) : OperationObject :=
  {| operationId := operationId m; summary := summary m;
     description := description m; parameters := p;
     responses := responses m; tags := tags m; meta := meta m;
     requestBody := requestBody m |}.

Definition set_meta (x : Meta) (m : OperationObject) : OperationObject :=
  {| operationId := operationId m; summary := summary m;
     description := description m; parameters := parameters m;
     responses := responses m; tags := tags m; meta := x;
     requestBody := requestBody m |}.

(** ** Response Classifier *)

Definition described (text : string) : ResponseObject :=
  {| resp_description := Some text; resp_content := None |}.

(** lib.ts:144 [addResponse]. *)
Definition addResponse (status : Z) (method : string) (specPath : OperationObject)
  : OperationObject :=
  let store key text :=
    set_responses (obj_set key (described text) (responses specPath)) specPath in
  if (status =? 200)%Z then
    if method =? "get" then store "200" "Success"
    else if method =? "delete" then store "200" "Item deleted"
    else if method =? "patch" then store "200" "Item updated"
    else if method =? "post" then store "200" "Item created"
    else specPath
  else if (status =? 201)%Z then
    if method =? "post" then store "201" "Item created" else specPath
  else if (status =? 202)%Z then
    if method =? "post" then store "202" "Item created" else specPath
  else if (status =? 204)%Z then
    if method =? "get" then store "204" "Success"
    else if method =? "delete" then store "204" "Item deleted"
    else if (method =? "patch") || (method =? "put") then store "204" "Item updated"
    else if method =? "post" then store "202" "Item created"
    else specPath
  else if (status =? 400)%Z then
    if method =? "delete" then store "400" "Deletion failed - item in use"
    else store "400" "Bad request"
  else if (status =? 401)%Z then store "401" "Unauthorized"
  else if (status =? 404)%Z then store "404" "Item not found"
  else if (status =? 405)%Z then store "405" "Not allowed"
  else specPath.

(** ** Example Merge Engine *)

(** The media type object both merge functions create for a first body. *)
Definition new_json_media : MediaTypeObject :=
  {| mt_examples := Some [("example-0001", JObj [])];
     mt_schema := Some (JObj [("properties", JObj []); ("type", JStr "object")]) |}.

(** The request body recorded for a payload that is not text
    (lib.ts:594-609). *)
Definition binary_requestBody : RequestBodyObject :=
  {| rb_content :=
       [("multipart/form-data",
         {| mt_examples := None;
            mt_schema := Some (JObj
              [("properties",
                JObj [("filename",
                       JObj [("description", JStr "");
                             ("format", JStr "binary");
                             ("type", JStr "string")])]);
               ("type", JStr "object")]) |})] |}.

(** [content["application/json"].examples]; [None] when the media type is
    missing (reading [.examples] of [undefined] throws). *)
Definition json_examples (c : Content) : option (option Examples) :=
  match obj_get "application/json" c with
  | None => None
  | Some media => Some (mt_examples media)
  end.

(** [content["application/json"].examples = e] on an existing media type
    object. *)
Definition set_json_examples (e : Examples) (c : Content) : Content :=
  match obj_get "application/json" c with
  | None => c
  | Some media =>
      obj_set "application/json"
              {| mt_examples := Some e; mt_schema := mt_schema media |} c
  end.

(** The loop of lib.ts:577-580 and 644-647: some stored example has the
    serialization [dataString]. *)
Definition is_duplicate (dataString : string) (examples : Examples) : bool :=
  existsb (fun e => dataString =? JSON_stringify (snd e)) examples.

(** lib.ts:583-588 and 650-655: merge [data] into the accumulator
    [example-0001], then store it under the next name.  [None] when the
    accumulator is missing or the merge throws; nothing is written then. *)
Definition store_example (examples : Examples) (data : json) : option Examples :=
  match obj_get "example-0001" examples with
  | None => None
  | Some accumulator =>
      match merge accumulator data with
      | None => None
      | Some merged =>
          let examples1 := obj_set "example-0001" merged examples in
          Some (obj_set ("example-" ++ pad (List.length (Object_keys examples1) + 1) 4)
                        data examples1)
      end
  end.

(** [postData] of a request: whether [postData.text] is a non-empty
    string, and then what [JSON.parse] makes of the (decoded) text, [None]
    when it throws. *)
Inductive PostData : Type :=
| NoText
| Text (parsed : option json).

(** lib.ts:548 [mergeRequestExample]. *)
Definition mergeRequestExample (specMethod : OperationObject) (postData : PostData)
  : OperationObject :=
  match postData with
  | Text None => specMethod
  | Text (Some data) =>
      let specMethod1 :=
        match requestBody specMethod with
        | None =>
            set_requestBody
              (Some {| rb_content := [("application/json", new_json_media)] |})
              specMethod
        | Some _ => specMethod
        end in
      match requestBody specMethod1 with
      | None => specMethod1
      | Some body =>
          match json_examples (rb_content body) with
          | None => specMethod1
          | Some None => specMethod1
          | Some (Some examples) =>
              if is_duplicate (JSON_stringify data) examples then specMethod1
              else
                match store_example examples data with
                | None => specMethod1
                | Some examples' =>
                    set_requestBody
                      (Some {| rb_content := set_json_examples examples' (rb_content body) |})
                      specMethod1
                end
          end
      end
  | NoText =>
      match requestBody specMethod with
      | None => set_requestBody (Some binary_requestBody) specMethod
      | Some _ => specMethod
      end
  end.

(** [data.key] on a parsed body other than [null]. *)
Definition property (data : json) (key : string) : option json :=
  match data with
  | JObj props => obj_get key props
  | _ => None
  end.

(** [delete data['traceback']]; [None]: [data] is [null], the access throws. *)
Definition delete_traceback (data : json) : option json :=
  match data with
  | JNull => None
  | JObj props => Some (JObj (obj_delete "traceback" props))
  | _ => Some data
  end.

Definition set_response (key : string) (r : ResponseObject) (m : OperationObject)
  : OperationObject :=
  set_responses (obj_set key r (responses m)) m.

(** lib.ts:657-661, the description and the element kind taken from a
    stored body. *)
Definition capture_metadata (data : json) (m : OperationObject) : OperationObject :=
  let m1 := match property data "description" with
            | Some d => if truthy d then set_description d m else m
            | None => m
            end in
  match property data "element" with
  | Some e =>
      if truthy e
      then set_meta {| originalPath := originalPath (meta m1); element := Some e |} m1
      else m1
  | None => m1
  end.

(** lib.ts:614 [mergeResponseExample]; [content] is what [JSON.parse]
    makes of the (decoded) response text, [None] when it throws. *)
Definition mergeResponseExample (specMethod : OperationObject) (statusString : string)
  (content : option json) (method filteredUrl : string) : OperationObject :=
  match content with
  | None => specMethod
  | Some parsed =>
      match delete_traceback parsed with
      | None => specMethod
      | Some data =>
          if (1 <? Object_keys_length data)%nat then
            match obj_get statusString (responses specMethod) with
            | None => specMethod
            | Some response =>
                let content1 :=
                  match resp_content response with
                  | None => [("application/json", new_json_media)]
                  | Some c => c
                  end in
                let specMethod1 :=
                  match resp_content response with
                  | None =>
                      set_response statusString
                        {| resp_description := resp_description response;
                           resp_content := Some content1 |} specMethod
                  | Some _ => specMethod
                  end in
                match json_examples content1 with
                | None => specMethod1
                | Some None => specMethod1
                | Some (Some examples) =>
                    if is_duplicate (JSON_stringify data) examples then specMethod1
                    else
                      match store_example examples data with
                      | None => specMethod1
                      | Some examples' =>
                          capture_metadata data
                            (set_response statusString
                               {| resp_description := resp_description response;
                                  resp_content := Some (set_json_examples examples' content1) |}
                               specMethod1)
                      end
                end
            end
          else specMethod
      end
  end.

(** ** Example Curation Validator *)

Record ExampleStats : Type := {
  allExamples : list string;
  publishExamples : Examples;
  firstExample : option json
}.

(** The [for ... in] loop of lib.ts:849-855, over the entries still to
    visit. *)
Fixpoint collect_examples (entries : obj json) (gexampleCount : nat)
  (allExamples : list string) (publishExamplesArray : list json)
  : nat * list string * list json :=
  match entries with
  | [] => (gexampleCount, allExamples, publishExamplesArray)
  | (exampleName, value) :: entries' =>
      let allExamples1 := (allExamples ++ [JSON_stringify value])%list in
      if includes exampleName "gexample"
      then collect_examples entries' (gexampleCount + 1) allExamples1
                            (publishExamplesArray ++ [value])%list
      else collect_examples entries' gexampleCount allExamples1 publishExamplesArray
  end.

(** The renumbering loop of lib.ts:864-868, from index [i] on. *)
Fixpoint renumber (i : nat) (rest : list json) (padWidth : nat)
  (publishExamples : Examples) (firstExample : option json)
  : Examples * option json :=
  match rest with
  | [] => (publishExamples, firstExample)
  | value :: rest' =>
      let exampleName := "example-" ++ pad (i + 1) padWidth in
      let firstExample1 :=
        match firstExample with
        | Some f => if truthy f then firstExample else Some value
        | None => Some value
        end in
      renumber (S i) rest' padWidth (obj_set exampleName value publishExamples)
               firstExample1
  end.

(** lib.ts:844 [validateExampleList]; [None] is [exit(1)]. *)
Definition validateExampleList (exampleObject : obj json)
  (exampleObjectName exampleFilename : string) : option ExampleStats :=
  let exampleCount := List.length (Object_keys exampleObject) in
  let '(gexampleCount, allExamples, publishExamplesArray) :=
    collect_examples exampleObject 0 [] [] in
  if negb (exampleCount =? 0)%nat && (gexampleCount =? 0)%nat then None
  else
    let padWidth := List.length publishExamplesArray / 10 + 1 in
    let '(publishExamples, firstExample) :=
      renumber 0 publishExamplesArray padWidth [] None in
    Some {| allExamples := allExamples;
            publishExamples := publishExamples;
            firstExample := firstExample |}.

(** ** Regular expressions

    The regular expressions written in [lib.ts], by a backtracking
    matcher that lists the ways a pattern can match at a position in the
    order in which the engine tries them.  These patterns have no
    backreference and no lookaround, and a group only groups (no
    replacement text of the source reads a capture).  The patterns of the
    configuration are any patterns of the language: they are run by an
    engine that the embedding takes as given, see [RegExpEngine]. *)

Inductive regex : Type :=
| REmpty
| RChar (c : ascii)
| RAny
| RSet (negated : bool) (ranges : list (ascii * ascii))
| RSeq (r1 r2 : regex)
| RAlt (r1 r2 : regex)
| RStar (greedy : bool) (r : regex)
| RBol
| REol.

Definition in_range (c : ascii) (range : ascii * ascii) : bool :=
  (nat_of_ascii (fst range) <=? nat_of_ascii c)%nat
  && (nat_of_ascii c <=? nat_of_ascii (snd range))%nat.

(** [.] matches any character but a line terminator. *)
Definition is_line_terminator (c : ascii) : bool :=
  (nat_of_ascii c =? 10)%nat || (nat_of_ascii c =? 13)%nat.

(** The iterations of a starred pattern whose one step is [step]: an
    iteration that consumes nothing is rejected, so [fuel], the length of
    the text left, bounds their number. *)
Fixpoint rstar (step : nat -> string -> list (nat * string)) (greedy : bool)
  (fuel pos : nat) (s : string) : list (nat * string) :=
  match fuel with
  | O => [(pos, s)]
  | S fuel' =>
      let more :=
        flat_map (fun e => if (pos <? fst e)%nat
                           then rstar step greedy fuel' (fst e) (snd e)
                           else [])
                 (step pos s) in
      if greedy then (more ++ [(pos, s)])%list else (pos, s) :: more
  end.

(** [rmatch r pos s]: the matches of [r] that start at position [pos],
    where the text from [pos] on is [s]; each is given by its end position
    and the text left after it, the preferred match first. *)
Fixpoint rmatch (r : regex) (pos : nat) (s : string) : list (nat * string) :=
  match r with
  | REmpty => [(pos, s)]
  | RChar c =>
      match s with
      | String c' s' => if Ascii.eqb c c' then [(S pos, s')] else []
      | "" => []
      end
  | RAny =>
      match s with
      | String c' s' => if is_line_terminator c' then [] else [(S pos, s')]
      | "" => []
      end
  | RSet negated ranges =>
      match s with
      | String c' s' =>
          if xorb negated (existsb (in_range c') ranges) then [(S pos, s')] else []
      | "" => []
      end
  | RSeq r1 r2 => flat_map (fun e => rmatch r2 (fst e) (snd e)) (rmatch r1 pos s)
  | RAlt r1 r2 => (rmatch r1 pos s ++ rmatch r2 pos s)%list
  | RStar greedy r1 => rstar (rmatch r1) greedy (String.length s) pos s
  | RBol => if (pos =? 0)%nat then [(pos, s)] else []
  | REol => match s with "" => [(pos, s)] | _ => [] end
  end.

(** The end of the match found at exactly [pos], if any. *)
Definition match_at (r : regex) (pos : nat) (s : string) : option nat :=
  match rmatch r pos s with
  | [] => None
  | e :: _ => Some (fst e)
  end.

(** [re.test(s)] from position [pos] on. *)
Fixpoint test_from (r : regex) (pos : nat) (s : string) : bool :=
  match match_at r pos s with
  | Some _ => true
  | None =>
      match s with
      | "" => false
      | String _ s' => test_from r (S pos) s'
      end
  end.

Definition RegExp_test (r : regex) (s : string) : bool := test_from r 0 s.

(** What the engine reports of one match: the position where it starts,
    the text matched, the texts the groups captured ([None] for a group
    that took no part in the match) and the named groups, when the pattern
    has some. *)
Record MatchResult : Type := {
  mr_index : nat;
  mr_matched : string;
  mr_captures : list (option string);
  mr_groups : option (obj (option string))
}.

Definition is_decimal_digit (c : ascii) : bool := in_range c ("0"%char, "9"%char).

Definition digit_value (c : ascii) : nat := nat_of_ascii c - 48.

(** The text of the capture of number [n], counted from 1; the empty
    text for a group that took no part. *)
Definition capture_text (captures : list (option string)) (n : nat) : string :=
  match nth_error captures (n - 1) with
  | Some (Some text) => text
  | _ => ""
  end.

(** One step of [GetSubstitution]: the reference at the head of what is
    left of the template, as the text that replaces it and the number of
    characters it takes. *)
Definition reference (matched str : string) (position : nat)
  (captures : list (option string)) (namedCaptures : option (obj (option string)))
  (templateRemainder : string) : string * nat :=
  match templateRemainder with
  | "" => ("", 0%nat)
  | String c rest =>
      if negb (Ascii.eqb c "$") then (String c "", 1%nat)
      else
        match rest with
        | "" => ("$", 1%nat)
        | String d rest' =>
            if Ascii.eqb d "$" then ("$", 2%nat)
            else if Ascii.eqb d "`" then (substring 0 position str, 2%nat)
            else if Ascii.eqb d "&" then (matched, 2%nat)
            else if Ascii.eqb d "'" then
              let tailPos := (position + String.length matched)%nat in
              (substring tailPos (String.length str - tailPos) str, 2%nat)
            else if is_decimal_digit d then
              let captureLen := List.length captures in
              let one_digit :=
                if (1 <=? digit_value d)%nat && (digit_value d <=? captureLen)%nat
                then (capture_text captures (digit_value d), 2%nat)
                else (String "$" (String d ""), 2%nat) in
              match rest' with
              | "" => one_digit
              | String d' _ =>
                  if is_decimal_digit d' then
                    let index := (10 * digit_value d + digit_value d')%nat in
                    if (captureLen <? index)%nat then one_digit
                    else if (1 <=? index)%nat
                    then (capture_text captures index, 3%nat)
                    else (String "$" (String d (String d' "")), 3%nat)
                  else one_digit
              end
            else if Ascii.eqb d "<" then
              match namedCaptures with
              | None => ("$<", 2%nat)
              | Some groups =>
                  match String.index 0 ">" templateRemainder with
                  | None => ("$<", 2%nat)
                  | Some gtPos =>
                      (match obj_get (substring 2 (gtPos - 2) templateRemainder) groups with
                       | Some (Some text) => text
                       | _ => ""
                       end,
                       S gtPos)
                  end
              end
            else ("$", 1%nat)
        end
  end.

(** The loop of [GetSubstitution] over the template, the next [skip]
    characters of which belong to the reference read last. *)
Fixpoint GetSubstitution_from (matched str : string) (position : nat)
  (captures : list (option string)) (namedCaptures : option (obj (option string)))
  (skip : nat) (templateRemainder : string) : string :=
  match templateRemainder with
  | "" => ""
  | String _ rest =>
      match skip with
      | S skip' =>
          GetSubstitution_from matched str position captures namedCaptures skip' rest
      | O =>
          let '(refReplacement, refLength) :=
            reference matched str position captures namedCaptures templateRemainder in
          refReplacement
          ++ GetSubstitution_from matched str position captures namedCaptures
                                  (refLength - 1) rest
      end
  end.

(** [GetSubstitution] of the language: in the replacement text, [$$] is a
    dollar sign, [$&] the text matched, [$`] and [$'] the text before and
    after the match, [$n] and [$nn] the capture of that number and
    [$<name>] the capture of that name; any other [$] stands for itself. *)
Definition GetSubstitution (matched str : string) (position : nat)
  (captures : list (option string)) (namedCaptures : option (obj (option string)))
  (replacementTemplate : string) : string :=
  GetSubstitution_from matched str position captures namedCaptures 0 replacementTemplate.

(** The replacement text for the match of [whole] from [pos] to [e], by
    a pattern of which no capture is read. *)
Definition substitute (whole : string) (pos e : nat) (replacement : string) : string :=
  GetSubstitution (substring pos (e - pos) whole) whole pos [] None replacement.

(** [whole.replace(r, replacement)] for a pattern with the [g] flag, from
    position [pos] on, where the text from [pos] on is [s] and its first
    [skip] characters belong to the match replaced last.  After an empty
    match the search resumes one character further. *)
Fixpoint replace_from (r : regex) (whole replacement : string)
  (pos skip : nat) (s : string) : string :=
  match skip with
  | S skip' =>
      match s with
      | "" => ""
      | String _ s' => replace_from r whole replacement (S pos) skip' s'
      end
  | O =>
      match match_at r pos s with
      | Some e =>
          substitute whole pos e replacement ++
          match s with
          | "" => ""
          | String c s' =>
              if (e =? pos)%nat
              then String c (replace_from r whole replacement (S pos) 0 s')
              else replace_from r whole replacement (S pos) (e - pos - 1) s'
          end
      | None =>
          match s with
          | "" => ""
          | String c s' => String c (replace_from r whole replacement (S pos) 0 s')
          end
      end
  end.

(** [s.replace(r, replacement)], [r] with the [g] flag. *)
Definition replace_all (r : regex) (replacement s : string) : string :=
  replace_from r s replacement 0 0 s.

(** [s.replace(r, replacement)], [r] without flag: the first match only. *)
Fixpoint replace_first_from (r : regex) (whole replacement : string)
  (pos : nat) (s : string) : string :=
  match match_at r pos s with
  | Some e =>
      substitute whole pos e replacement
      ++ substring e (String.length whole - e) whole
  | None =>
      match s with
      | "" => ""
      | String c s' => String c (replace_first_from r whole replacement (S pos) s')
      end
  end.

Definition replace_first (r : regex) (replacement s : string) : string :=
  replace_first_from r s replacement 0 s.

(** [s.match(r)], [r] with the [g] flag: the matched texts, [[]] for
    [null]. *)
Fixpoint match_all_from (r : regex) (whole : string) (pos skip : nat) (s : string)
  : list string :=
  match skip with
  | S skip' =>
      match s with
      | "" => []
      | String _ s' => match_all_from r whole (S pos) skip' s'
      end
  | O =>
      match match_at r pos s with
      | Some e =>
          substring pos (e - pos) whole ::
          match s with
          | "" => []
          | String _ s' => match_all_from r whole (S pos) (e - pos - 1) s'
          end
      | None =>
          match s with
          | "" => []
          | String _ s' => match_all_from r whole (S pos) 0 s'
          end
      end
  end.

Definition match_all (r : regex) (s : string) : list string :=
  match_all_from r s 0 0 s.

(** A literal text as a pattern. *)
Fixpoint rliteral (s : string) : regex :=
  match s with
  | "" => REmpty
  | String c "" => RChar c
  | String c s' => RSeq (RChar c) (rliteral s')
  end.

(** *** Reading a pattern of a fragment

    A reader for the patterns made of literal characters, [.], [\d],
    [\D], [\w], [\W], an escaped punctuation character, a character class
    of characters and ranges, the anchors [^] and [$], the quantifiers
    [*], [+] and [?] (also lazy) and [|], which it reads as
    [new RegExp(key, 'g')] does.  It answers [None] for every other
    pattern, whether the constructor accepts it or not.  It is the reader
    of [fragment_engine], the engine on which the examples are run; no
    property is stated of the normalizer under this engine only. *)

Inductive quantifier : Type := QStar | QPlus | QOpt.

Definition quantify (q : quantifier) (greedy : bool) (r : regex) : regex :=
  match q with
  | QStar => RStar greedy r
  | QPlus => RSeq r (RStar greedy r)
  | QOpt => if greedy then RAlt r REmpty else RAlt REmpty r
  end.

(** The term read last, which a quantifier may still follow. *)
Inductive pending : Type :=
| PNone
| PAtom (r : regex)
| PQuantified (q : quantifier) (r : regex).

(** Where the reader stands inside a character class. *)
Inductive class_last : Type :=
| LNone
| LChar (c : ascii)
| LDash (c : ascii).

Inductive mode : Type :=
| MNormal
| MEscape
| MClassStart
| MClass (negated : bool) (ranges : list (ascii * ascii)) (last : class_last)
| MClassEscape (negated : bool) (ranges : list (ascii * ascii)) (last : class_last).

Record reader : Type := {
  alternatives : list regex;
  terms : list regex;
  last_term : pending;
  reading : mode
}.

Fixpoint rsequence (l : list regex) : regex :=
  match l with
  | [] => REmpty
  | [r] => r
  | r :: l' => RSeq r (rsequence l')
  end.

Fixpoint ralternatives (l : list regex) : regex :=
  match l with
  | [] => REmpty
  | [r] => r
  | r :: l' => RAlt r (ralternatives l')
  end.

Definition flush (st : reader) : list regex :=
  match last_term st with
  | PNone => terms st
  | PAtom r => (terms st ++ [r])%list
  | PQuantified q r => (terms st ++ [quantify q true r])%list
  end.

Definition digit_ranges : list (ascii * ascii) := [("0"%char, "9"%char)].

Definition word_ranges : list (ascii * ascii) :=
  [("a"%char, "z"%char); ("A"%char, "Z"%char); ("0"%char, "9"%char);
   ("_"%char, "_"%char)].

Definition is_word_char (c : ascii) : bool := existsb (in_range c) word_ranges.

Definition with_atom (st : reader) (r : regex) : reader :=
  {| alternatives := alternatives st; terms := flush st;
     last_term := PAtom r; reading := MNormal |}.

Definition with_mode (st : reader) (m : mode) : reader :=
  {| alternatives := alternatives st; terms := terms st;
     last_term := last_term st; reading := m |}.

(** One more character [c] of a class whose items so far are [ranges]. *)
Definition class_char (negated : bool) (ranges : list (ascii * ascii))
  (last : class_last) (c : ascii) : option mode :=
  match last with
  | LNone => Some (MClass negated ranges (LChar c))
  | LChar b => Some (MClass negated (ranges ++ [(b, b)])%list (LChar c))
  | LDash b =>
      if (nat_of_ascii b <=? nat_of_ascii c)%nat
      then Some (MClass negated (ranges ++ [(b, c)])%list LNone)
      else None
  end.

Definition class_ranges (ranges : list (ascii * ascii)) (last : class_last)
  : list (ascii * ascii) :=
  match last with
  | LNone => ranges
  | LChar b => (ranges ++ [(b, b)])%list
  | LDash b => (ranges ++ [(b, b); ("-"%char, "-"%char)])%list
  end.

Definition read_char (st : reader) (c : ascii) : option reader :=
  match reading st with
  | MNormal =>
      if Ascii.eqb c "*" then
        match last_term st with
        | PAtom r => Some {| alternatives := alternatives st; terms := terms st;
                             last_term := PQuantified QStar r; reading := MNormal |}
        | _ => None
        end
      else if Ascii.eqb c "+" then
        match last_term st with
        | PAtom r => Some {| alternatives := alternatives st; terms := terms st;
                             last_term := PQuantified QPlus r; reading := MNormal |}
        | _ => None
        end
      else if Ascii.eqb c "?" then
        match last_term st with
        | PAtom r => Some {| alternatives := alternatives st; terms := terms st;
                             last_term := PQuantified QOpt r; reading := MNormal |}
        | PQuantified q r =>
            Some {| alternatives := alternatives st;
                    terms := (terms st ++ [quantify q false r])%list;
                    last_term := PNone; reading := MNormal |}
        | PNone => None
        end
      else if Ascii.eqb c "|" then
        Some {| alternatives := (alternatives st ++ [rsequence (flush st)])%list;
                terms := []; last_term := PNone; reading := MNormal |}
      else if Ascii.eqb c "^" then
        Some {| alternatives := alternatives st; terms := (flush st ++ [RBol])%list;
                last_term := PNone; reading := MNormal |}
      else if Ascii.eqb c "$" then
        Some {| alternatives := alternatives st; terms := (flush st ++ [REol])%list;
                last_term := PNone; reading := MNormal |}
      else if Ascii.eqb c "." then Some (with_atom st RAny)
      else if Ascii.eqb c "\" then
        Some {| alternatives := alternatives st; terms := flush st;
                last_term := PNone; reading := MEscape |}
      else if Ascii.eqb c "[" then
        Some {| alternatives := alternatives st; terms := flush st;
                last_term := PNone; reading := MClassStart |}
      else if Ascii.eqb c "(" || Ascii.eqb c ")" || Ascii.eqb c "]"
              || Ascii.eqb c "{" || Ascii.eqb c "}" then None
      else Some (with_atom st (RChar c))
  | MEscape =>
      if Ascii.eqb c "d" then Some (with_atom st (RSet false digit_ranges))
      else if Ascii.eqb c "D" then Some (with_atom st (RSet true digit_ranges))
      else if Ascii.eqb c "w" then Some (with_atom st (RSet false word_ranges))
      else if Ascii.eqb c "W" then Some (with_atom st (RSet true word_ranges))
      else if is_word_char c then None
      else Some (with_atom st (RChar c))
  | MClassStart =>
      if Ascii.eqb c "^" then Some (with_mode st (MClass true [] LNone))
      else if Ascii.eqb c "]" then Some (with_atom st (RSet false []))
      else if Ascii.eqb c "\" then Some (with_mode st (MClassEscape false [] LNone))
      else Some (with_mode st (MClass false [] (LChar c)))
  | MClass negated ranges last =>
      if Ascii.eqb c "]" then Some (with_atom st (RSet negated (class_ranges ranges last)))
      else if Ascii.eqb c "\" then Some (with_mode st (MClassEscape negated ranges last))
      else if Ascii.eqb c "-" then
        match last with
        | LChar b => Some (with_mode st (MClass negated ranges (LDash b)))
        | _ => option_map (with_mode st) (class_char negated ranges last c)
        end
      else option_map (with_mode st) (class_char negated ranges last c)
  | MClassEscape negated ranges last =>
      if is_word_char c then None
      else option_map (with_mode st) (class_char negated ranges last c)
  end.

Fixpoint read_pattern (st : reader) (source : string) : option regex :=
  match source with
  | "" =>
      match reading st with
      | MNormal => Some (ralternatives (alternatives st ++ [rsequence (flush st)])%list)
      | _ => None
      end
  | String c source' =>
      match read_char st c with
      | Some st' => read_pattern st' source'
      | None => None
      end
  end.

Definition fragment_RegExp (source : string) : option regex :=
  read_pattern {| alternatives := []; terms := []; last_term := PNone;
                  reading := MNormal |} source.

(** ** Path Normalizer *)

Record Config : Type := {
  apiBasePath : string;
  pathReplace : obj string;
  replace : obj string;
  config_tags : list (list string)
}.

(** The engine of regular expressions of the JavaScript runtime, which
    is not part of the repository: the objects that stand for the
    patterns, the constructor, and the search that
    [String.prototype.replace] makes with a pattern that has the [g]
    flag. *)
Record RegExpEngine : Type := {
  RegExpObject : Type;
  (** [new RegExp(source, 'g')]; [None]: the constructor throws a
      [SyntaxError]. *)
  RegExp : string -> option RegExpObject;
  (** The results of the successive calls of [exec] on a text, from
      [lastIndex = 0] until [exec] answers [null], [lastIndex] being moved
      one character further after an empty match. *)
  exec_all : RegExpObject -> string -> list MatchResult
}.

(** [RegExp.prototype[Symbol.replace]], the part after the search: the
    text between the matches is kept and each match gives way to its
    substitution; a result that starts before the end of the one before
    it is passed over. *)
Fixpoint replace_results (s replacement : string) (results : list MatchResult)
  (nextSourcePosition : nat) : string :=
  match results with
  | [] => substring nextSourcePosition (String.length s - nextSourcePosition) s
  | result :: results' =>
      let position := Nat.min (mr_index result) (String.length s) in
      if (nextSourcePosition <=? position)%nat
      then substring nextSourcePosition (position - nextSourcePosition) s
           ++ GetSubstitution (mr_matched result) s position (mr_captures result)
                              (mr_groups result) replacement
           ++ replace_results s replacement results'
                              (position + String.length (mr_matched result))
      else replace_results s replacement results' nextSourcePosition
  end.

(** [s.replace(re, replacement)], [re] with the [g] flag. *)
Definition String_replace (engine : RegExpEngine) (re : RegExpObject engine)
  (replacement s : string) : string :=
  replace_results s replacement (exec_all engine re s) 0.

(** [re.test(s)] on a pattern whose [lastIndex] is 0. *)
Definition has_match (engine : RegExpEngine) (re : RegExpObject engine) (s : string)
  : bool :=
  match exec_all engine re s with
  | [] => false
  | _ :: _ => true
  end.

(** The loop of lib.ts:404-407 over the rules still to apply. *)
Fixpoint apply_rules (engine : RegExpEngine) (rules : obj string) (filteredUrl : string)
  : option string :=
  match rules with
  | [] => Some filteredUrl
  | (key, replacement) :: rules' =>
      match RegExp engine key with
      | None => None
      | Some re => apply_rules engine rules' (String_replace engine re replacement filteredUrl)
      end
  end.

(** lib.ts:400 [filterUrl]; [None]: the constructor throws on a key of
    [config.pathReplace]. *)
Definition filterUrl (engine : RegExpEngine) (config : Config) (inputUrl : string)
  : option string :=
  apply_rules engine (pathReplace config) inputUrl.

(** *** An engine for the examples

    The search of [exec_all] by the matcher above, on the patterns that
    [fragment_RegExp] reads: from position [pos] on, where the text from
    [pos] on is [s] and its first [skip] characters belong to the match
    found last. *)
Fixpoint exec_from (r : regex) (whole : string) (pos skip : nat) (s : string)
  : list MatchResult :=
  match skip with
  | S skip' =>
      match s with
      | "" => []
      | String _ s' => exec_from r whole (S pos) skip' s'
      end
  | O =>
      match match_at r pos s with
      | Some e =>
          {| mr_index := pos; mr_matched := substring pos (e - pos) whole;
             mr_captures := []; mr_groups := None |} ::
          match s with
          | "" => []
          | String _ s' => exec_from r whole (S pos) (e - pos - 1) s'
          end
      | None =>
          match s with
          | "" => []
          | String _ s' => exec_from r whole (S pos) 0 s'
          end
      end
  end.

Definition fragment_engine : RegExpEngine :=
  {| RegExpObject := regex;
     RegExp := fragment_RegExp;
     exec_all := fun r s => exec_from r s 0 0 s |}.

(** The patterns written in [lib.ts]. *)

(** [/(^\/|\/$|{|})/g] *)
Definition re_edges_and_braces : regex :=
  RAlt (RSeq RBol (RChar "/"))
       (RAlt (RSeq (RChar "/") REol) (RAlt (RChar "{") (RChar "}"))).

(** [/\//g] *)
Definition re_slash : regex := RChar "/".

(** [/{.*?}/g] *)
Definition re_placeholder : regex :=
  RSeq (RChar "{") (RSeq (RStar false RAny) (RChar "}")).

(** [/[{}]/g] *)
Definition re_braces : regex := RSet false [("{"%char, "{"%char); ("}"%char, "}"%char)].

(** [/_id/] *)
Definition re_id : regex := rliteral "_id".

(** [/[{}]|_id/g] *)
Definition re_braces_or_id : regex := RAlt re_braces re_id.

(** ** Operation Identity Assigner *)

(** A path item: its [parameters] and its operations by method.  The
    methods are HTTP methods in lower case, none of which is the key
    [parameters]. *)
Record PathItemObject : Type := {
  path_parameters : option (list ParameterObject);
  path_methods : obj OperationObject
}.

Record OpenApiSpec : Type := {
  openapi : json;
  info : json;
  servers : option json;
  paths : obj PathItemObject
}.

Definition set_paths (p : obj PathItemObject) (spec : OpenApiSpec) : OpenApiSpec :=
  {| openapi := openapi spec; info := info spec; servers := servers spec;
     paths := p |}.

(** [spec.paths[path][method] = operation] on an existing path. *)
Definition set_method (path method : string) (operation : OperationObject)
  (spec : OpenApiSpec) : OpenApiSpec :=
  match obj_get path (paths spec) with
  | None => spec
  | Some item =>
      set_paths
        (obj_set path
           {| path_parameters := path_parameters item;
              path_methods := obj_set method operation (path_methods item) |}
           (paths spec))
        spec
  end.

Definition get_method (path method : string) (spec : OpenApiSpec) : option OperationObject :=
  match obj_get path (paths spec) with
  | None => None
  | Some item => obj_get method (path_methods item)
  end.

(** The operation id of lib.ts:74-75 and 898-899. *)
Definition derive_operationId (method path : string) : string :=
  method ++ "-" ++ replace_all re_slash "-" (replace_all re_edges_and_braces "" path).

(** [s.split('/')], [current] being the piece under way. *)
Fixpoint split_from (sep : ascii) (s current : string) : list string :=
  match s with
  | "" => [current]
  | String c s' =>
      if Ascii.eqb c sep then current :: split_from sep s' ""
      else split_from sep s' (current ++ String c "")
  end.

Definition split (sep : ascii) (s : string) : list string := split_from sep s "".

(** lib.ts:394 [deriveTag]; an empty rule has the keyword [undefined]. *)
Fixpoint deriveTag_rules (path : string) (rules : list (list string)) : string :=
  match rules with
  | [] => "Miscellaneous"
  | [] :: rules' =>
      if includes path "undefined" then "" else deriveTag_rules path rules'
  | [keyword] :: rules' =>
      if includes path keyword then capitalize keyword else deriveTag_rules path rules'
  | (keyword :: name :: _) :: rules' =>
      if includes path keyword then name else deriveTag_rules path rules'
  end.

Definition deriveTag (path : string) (config : Config) : string :=
  deriveTag_rules path (config_tags config).

(** lib.ts:95 [addPath]. *)
Definition path_parameter (parameter : string) : ParameterObject :=
  let variable := replace_all re_braces "" parameter in
  let variableType := replace_first re_id "" variable in
  {| param_description := "Unique ID of the " ++ variableType ++ " you are working with";
     param_in := "path";
     param_name := variable;
     param_required := Some true;
     param_schema := JObj [("type", JStr "string")] |}.

Definition addPath (filteredUrl : string) (spec : OpenApiSpec) : OpenApiSpec :=
  let parameters := map path_parameter (match_all re_placeholder filteredUrl) in
  set_paths
    (obj_set filteredUrl
       {| path_parameters := Some parameters; path_methods := [] |}
       (paths spec))
    spec.

Section Ingestion.

(** The engine that runs the patterns of the configuration. *)
Variable engine : RegExpEngine.

(** [pluralize(word)] and [pluralize(word, count)] of the npm package
    [pluralize], which is not part of the repository. *)
Variable pluralize : string -> option Z -> string.

(** lib.ts:357 [deriveSummary]. *)
Definition deriveSummary (method path : string) : string :=
  let pathParts := split "/" path in
  let n := List.length pathParts in
  let lastParam := if (1 <? n)%nat then nth (n - 2) pathParts "" else "" in
  let lastLastParam := if (3 <? n)%nat then nth (n - 4) pathParts "" else "" in
  let obj := if includes lastParam "_id"
             then replace_all re_braces_or_id "" lastParam else "" in
  let space := if lastLastParam =? "" then "" else " " in
  let generic :=
    if method =? "get"
    then "List " ++ pluralize lastLastParam (Some 1%Z) ++ space ++ pluralize lastParam None
    else if method =? "post"
    then "Create " ++ pluralize lastLastParam (Some 1%Z) ++ space
                   ++ pluralize lastParam (Some 1%Z)
    else if (method =? "put") || (method =? "patch")
    then "Update " ++ pluralize lastLastParam (Some 1%Z) ++ space ++ pluralize lastParam None
    else if method =? "delete"
    then "Delete " ++ pluralize lastLastParam (Some 1%Z) ++ space ++ pluralize lastParam None
    else "SUMMARY" in
  if lastParam =? "login" then "Log in"
  else if lastParam =? "logout" then "Log out"
  else if negb (obj =? "") then
    if method =? "get" then capitalize obj ++ " details"
    else if method =? "post" then "Create " ++ obj
    else if (method =? "patch") || (method =? "put") then "Update " ++ obj
    else if method =? "delete" then "Delete " ++ obj
    else generic
  else generic.

(** lib.ts:72 [addMethod], on a path that exists. *)
Definition addMethod (method filteredUrl originalPath : string)
  (methodList : list string) (spec : OpenApiSpec) (config : Config)
  : list string * OpenApiSpec :=
  let operationId := derive_operationId method filteredUrl in
  let summary := deriveSummary method filteredUrl in
  let tag := deriveTag filteredUrl config in
  let tab := String "009" "" in
  let row := tag ++ tab ++ filteredUrl ++ tab ++ method ++ tab ++ summary in
  ((methodList ++ [row])%list,
   set_method filteredUrl method
     {| operationId := operationId;
        summary := summary;
        description := JStr "";
        parameters := [];
        responses := [];
        tags := [tag];
        meta := {| originalPath := originalPath; element := Some (JStr "") |};
        requestBody := None |}
     spec).

Record QueryParam : Type := {
  query_name : string;
  query_value : string
}.

(** lib.ts:122 [addQueryStringParams]. *)
Definition query_parameter (param : QueryParam) : ParameterObject :=
  {| param_description := query_name param;
     param_in := "query";
     param_name := query_name param;
     param_required := None;
     param_schema := JObj [("type", JStr "string");
                           ("default", JStr (query_value param));
                           ("example", JStr (query_value param))] |}.

Definition addQueryStringParams (specMethod : OperationObject)
  (harParams : list QueryParam) : OperationObject :=
  let methodQueryParameters :=
    map param_name (filter (fun param => param_in param =? "query")
                           (parameters specMethod)) in
  fold_left
    (fun m param =>
       if existsb (String.eqb (query_name param)) methodQueryParameters then m
       else set_parameters (parameters m ++ [query_parameter param])%list m)
    harParams specMethod.

(** A captured transaction ([Entry] of har-format), with the fields the
    loop writes into the specification.  [postData] is absent from a
    request that has none; [response_content] is what [JSON.parse] makes
    of the response text. *)
Record Request : Type := {
  request_method : string;
  url : string;
  queryString : list QueryParam;
  request_bodySize : Z;
  postData : option PostData
}.

Record Response : Type := {
  status : Z;
  response_bodySize : Z;
  response_content : option json
}.

Record Entry : Type := {
  request : Request;
  response : Response
}.

(** Modelled from the spec: [createEmptyApiSpec] of
    @loopback/openapi-v3-types is not part of the repository; the
    specification is created empty at the start of a run. *)
Definition createEmptyApiSpec : OpenApiSpec :=
  {| openapi := JStr "3.0.0";
     info := JObj [("title", JStr "LoopBack Application"); ("version", JStr "1.0.0")];
     servers := Some (JArr [JObj [("url", JStr "/")]]);
     paths := [] |}.

(** lib.ts:434 [generateSpec], lines 471-488: what one transaction does
    to the operation it belongs to.  [None]: [postData] is read on a
    request that has none. *)
Definition generateSpec_operation (specMethod : OperationObject)
  (method filteredUrl : string) (item : Entry) : option OperationObject :=
  let m1 := set_meta {| originalPath := url (request item);
                        element := element (meta specMethod) |} specMethod in
  let m2 := addResponse (status (response item)) method m1 in
  let m3 := addQueryStringParams m2 (queryString (request item)) in
  match
    (if (0 <? request_bodySize (request item))%Z && (status (response item) <? 400)%Z
     then match postData (request item) with
          | None => None
          | Some body => Some (mergeRequestExample m3 body)
          end
     else Some m3)
  with
  | None => None
  | Some m4 =>
      Some (if (0 <? response_bodySize (response item))%Z
            then mergeResponseExample m4 (Number_toString (status (response item)))
                                      (response_content (response item)) method filteredUrl
            else m4)
  end.

(** [generateSpec]: the body of the loop of lib.ts:444-493, for one
    transaction.  [None]: the run throws. *)
Definition generateSpec_entry (config : Config) (state : list string * OpenApiSpec)
  (item : Entry) : option (list string * OpenApiSpec) :=
  let '(methodList, spec) := state in
  if negb (includes (url (request item)) (apiBasePath config)) then Some state
  else
    match filterUrl engine config (url (request item)) with
    | None => None
    | Some filteredUrl =>
        if filteredUrl =? "" then Some state
        else
          let spec1 := match obj_get filteredUrl (paths spec) with
                       | None => addPath filteredUrl spec
                       | Some _ => spec
                       end in
          let method := toLowerCase (request_method (request item)) in
          let '(methodList2, spec2) :=
            match get_method filteredUrl method spec1 with
            | None => addMethod method filteredUrl (url (request item)) methodList
                                spec1 config
            | Some _ => (methodList, spec1)
            end in
          match get_method filteredUrl method spec2 with
          | None => None
          | Some specMethod =>
              match generateSpec_operation specMethod method filteredUrl item with
              | None => None
              | Some specMethod' =>
                  Some (methodList2, set_method filteredUrl method specMethod' spec2)
              end
          end
    end.

(** [generateSpec]: the loop of lib.ts:444-493 over the transactions
    still to come ([entries.sort()] compares the entries as equal strings
    and keeps their order). *)
Fixpoint generateSpec_entries (config : Config) (state : list string * OpenApiSpec)
  (entries : list Entry) : option (list string * OpenApiSpec) :=
  match entries with
  | [] => Some state
  | item :: entries' =>
      match generateSpec_entry config state item with
      | None => None
      | Some state' => generateSpec_entries config state' entries'
      end
  end.

End Ingestion.

(** ** Spec Reconciler *)

(** The curated example file ([ExampleFile], lib.ts:17).  Its method names
    are HTTP methods; [parameters], the other key of a path item, is not
    one of them ([writeExamples] leaves it out). *)
Record MethodExamples : Type := {
  request_examples : obj json;
  response_examples : obj (obj json)
}.

Definition ExampleFile : Type := obj (obj MethodExamples).

(** The operation of lib.ts:898-911, created for a method the prior
    specification does not have. *)
Definition skeleton (path method : string) : OperationObject :=
  let operationId := derive_operationId method path in
  {| operationId := operationId;
     summary := operationId;
     description := JStr "";
     parameters := [];
     responses := [];
     tags := ["UNKNOWN"];
     meta := {| originalPath := "https://app.crunch.io/api" ++ path; element := None |};
     requestBody := None |}.

Definition shoji_ref (kind : string) : option json :=
  if kind =? "shoji:entity"
  then Some (JObj [("$ref", JStr "#/components/schemas/Shoji-entity-element")])
  else if kind =? "shoji:catalog"
  then Some (JObj [("$ref", JStr "#/components/schemas/Shoji-catalog-element")])
  else if kind =? "shoji:view"
  then Some (JObj [("$ref", JStr "#/components/schemas/Shoji-view-element")])
  else None.

(** lib.ts:922-941 and 957-976: the [element] property of the inferred
    schema becomes a reference when the first published example has one
    of the three kinds.  [None]: a property of [null] or [undefined] is
    read. *)
Definition refer_element (jsonSchema : json) (firstExample : option json) : option json :=
  match jsonSchema with
  | JNull => None
  | JObj schema_props =>
      match obj_get "properties" schema_props with
      | Some (JObj props) =>
          match obj_get "element" props with
          | Some e =>
              if truthy e then
                match firstExample with
                | None => None
                | Some JNull => None
                | Some first =>
                    match property first "element" with
                    | Some (JStr kind) =>
                        match shoji_ref kind with
                        | Some ref =>
                            Some (JObj (obj_set "properties"
                                          (JObj (obj_set "element" ref props))
                                          schema_props))
                        | None => Some jsonSchema
                        end
                    | _ => Some jsonSchema
                    end
                end
              else Some jsonSchema
          | None => Some jsonSchema
          end
      | _ => Some jsonSchema
      end
  | _ => Some jsonSchema
  end.

(** [content["application/json"].schema = schema] and [.examples =
    examples]; [None] when the content has no such media type. *)
Definition attach (schema : json) (examples : Examples) (c : Content) : option Content :=
  match obj_get "application/json" c with
  | None => None
  | Some _ =>
      Some (obj_set "application/json"
              {| mt_examples := Some examples; mt_schema := Some schema |} c)
  end.

Definition empty_json_content : Content :=
  [("application/json", {| mt_examples := None; mt_schema := None |})].

(** The path item the reconciliation starts from (lib.ts:888-892). *)
Definition prior_item (path : string) (oldSpec : OpenApiSpec) : PathItemObject :=
  match obj_get path (paths oldSpec) with
  | Some old => old
  | None => {| path_parameters := None; path_methods := [] |}
  end.

Section Reconciler.

(** The Schema Inferencer, lib.ts:48 [quicktypeJSON], by the packages
    quicktype-core and json-schema-deref-sync; [None] when it rejects. *)
Variable quicktypeJSON : string -> string -> list string -> option json.

(** [toOpenApiSchema] of the package json-schema-to-openapi-schema;
    [None] when it throws. *)
Variable toOpenApiSchema : json -> option json.

(** What lib.ts:920-947 and 955-984 compute for one slot that has
    examples: the schema and the published examples to attach. *)
Definition infer_slot (path method : string) (exampleObject : obj json)
  (exampleFilename : string) : option (json * Examples) :=
  match validateExampleList exampleObject (path ++ " " ++ method ++ " requests")
                            exampleFilename with
  | None => None
  | Some exampleStats =>
      match quicktypeJSON "schema" (join "-" [path; method; "request"])
                          (allExamples exampleStats) with
      | None => None
      | Some jsonSchema =>
          match refer_element jsonSchema (firstExample exampleStats) with
          | None => None
          | Some jsonSchema' =>
              match toOpenApiSchema jsonSchema' with
              | None => None
              | Some schema => Some (schema, publishExamples exampleStats)
              end
          end
      end
  end.

(** lib.ts:917-949, the request slot of one method. *)
Definition reconcile_request (path method : string) (examples : MethodExamples)
  (exampleFilename : string) (methodObject : OperationObject) : option OperationObject :=
  let numExamples := List.length (Object_keys (request_examples examples)) in
  if (numExamples =? 0)%nat then Some methodObject
  else
    match infer_slot path method (request_examples examples) exampleFilename with
    | None => None
    | Some (schema, published) =>
        let body := match requestBody methodObject with
                    | None => {| rb_content := empty_json_content |}
                    | Some b => b
                    end in
        match attach schema published (rb_content body) with
        | None => None
        | Some c => Some (set_requestBody (Some {| rb_content := c |}) methodObject)
        end
    end.

(** The loop of lib.ts:951-987 over the status codes still to visit. *)
Fixpoint reconcile_responses (path method : string) (slots : obj (obj json))
  (exampleFilename : string) (methodObject : OperationObject) : option OperationObject :=
  match slots with
  | [] => Some methodObject
  | (statusCode, exampleObject) :: slots' =>
      let numExamples := List.length (Object_keys exampleObject) in
      if (numExamples =? 0)%nat
      then reconcile_responses path method slots' exampleFilename methodObject
      else
        match infer_slot path method exampleObject exampleFilename with
        | None => None
        | Some (schema, published) =>
            let response :=
              match obj_get statusCode (responses methodObject) with
              | None => {| resp_description := None;
                           resp_content := Some empty_json_content |}
              | Some r => r
              end in
            match resp_content response with
            | None => None
            | Some c =>
                match attach schema published c with
                | None => None
                | Some c' =>
                    reconcile_responses path method slots' exampleFilename
                      (set_response statusCode
                         {| resp_description := resp_description response;
                            resp_content := Some c' |}
                         methodObject)
                end
            end
        end
  end.

(** The loop of lib.ts:894-988 over the methods of one path still to
    visit; [methods] is [newSpec.paths[path]] without its parameters. *)
Fixpoint reconcile_methods (path : string) (curated : obj MethodExamples)
  (exampleFilename : string) (methods : obj OperationObject)
  : option (obj OperationObject) :=
  match curated with
  | [] => Some methods
  | (method, examples) :: curated' =>
      let methods1 := match obj_get method methods with
                      | None => obj_set method (skeleton path method) methods
                      | Some _ => methods
                      end in
      match obj_get method methods1 with
      | None => None
      | Some methodObject =>
          match reconcile_request path method examples exampleFilename methodObject with
          | None => None
          | Some methodObject1 =>
              match reconcile_responses path method (response_examples examples)
                                        exampleFilename methodObject1 with
              | None => None
              | Some methodObject2 =>
                  reconcile_methods path curated' exampleFilename
                                    (obj_set method methodObject2 methods1)
              end
          end
      end
  end.

(** The loop of lib.ts:885-989 over the paths still to visit. *)
Fixpoint reconcile_paths (masterExamples : ExampleFile) (exampleFilename : string)
  (oldSpec newSpec : OpenApiSpec) : option OpenApiSpec :=
  match masterExamples with
  | [] => Some newSpec
  | (path, curated) :: masterExamples' =>
      let item := prior_item path oldSpec in
      match reconcile_methods path curated exampleFilename (path_methods item) with
      | None => None
      | Some methods =>
          reconcile_paths masterExamples' exampleFilename oldSpec
            (set_paths
               (obj_set path
                  {| path_parameters := path_parameters item; path_methods := methods |}
                  (paths newSpec))
               newSpec)
      end
  end.

(** lib.ts:876 [generateSchema], of the two files it reads: the curated
    examples and the prior specification.  [None]: the run halts or the
    promise is rejected. *)
Definition generateSchema (exampleFilename : string) (masterExamples : ExampleFile)
  (oldSpec : OpenApiSpec) : option OpenApiSpec :=
  reconcile_paths masterExamples exampleFilename oldSpec
    {| openapi := openapi oldSpec; info := info oldSpec;
       servers := servers oldSpec; paths := [] |}.

End Reconciler.

(** ** Notions of the statements *)

(** The examples a slot holds, [[]] when the slot has none. *)
Definition content_pool (c : Content) : Examples :=
  match json_examples c with
  | Some (Some examples) => examples
  | _ => []
  end.

Definition request_pool (m : OperationObject) : Examples :=
  match requestBody m with
  | Some body => content_pool (rb_content body)
  | None => []
  end.

Definition response_pool (statusString : string) (m : OperationObject) : Examples :=
  match obj_get statusString (responses m) with
  | Some response =>
      match resp_content response with
      | Some c => content_pool c
      | None => []
      end
  | None => []
  end.

(** The left fold of [merge] over [values], from [accumulator]; [None]
    when a merge throws. *)
Fixpoint merge_all (accumulator : json) (values : list json) : option json :=
  match values with
  | [] => Some accumulator
  | v :: values' =>
      match merge accumulator v with
      | None => None
      | Some merged => merge_all merged values'
      end
  end.

(** The entries [example-i], [example-(i+1)], ... of a pool, four digits
    wide, for the values [values]. *)
Fixpoint numbered (i : nat) (values : list json) : Examples :=
  match values with
  | [] => []
  | v :: values' => ("example-" ++ pad i 4, v) :: numbered (S i) values'
  end.

(** The fold of the Example Merge Engine on a pool seen as its accumulator
    and the list of its stored examples: a body that serializes like the
    accumulator or like a stored example is discarded, and so is a body
    whose merge throws; any other body is merged into the accumulator and
    stored last. *)
Definition fold_value (pool : json * list json) (v : json) : json * list json :=
  if existsb (fun e => JSON_stringify v =? JSON_stringify e) (fst pool :: snd pool)
  then pool
  else match merge (fst pool) v with
       | Some merged => (merged, (snd pool ++ [v])%list)
       | None => pool
       end.

(** The request slot of [m] is a JSON pool whose accumulator is
    [accumulator] and whose stored examples are [kept]. *)
Definition json_pool_of (m : OperationObject) (accumulator : json) (kept : list json) : Prop :=
  requestBody m
  = Some {| rb_content :=
              [("application/json",
                {| mt_examples := Some (("example-0001", accumulator) :: numbered 2 kept);
                   mt_schema := mt_schema new_json_media |})] |}.

(** [subsequence kept all]: [kept] is [all] with some elements left out. *)
Inductive subsequence {A : Type} : list A -> list A -> Prop :=
| subsequence_nil : subsequence [] []
| subsequence_skip (x : A) (kept all : list A) :
    subsequence kept all -> subsequence kept (x :: all)
| subsequence_keep (x : A) (kept all : list A) :
    subsequence kept all -> subsequence (x :: kept) (x :: all).

(** The entries whose name carries the published marker, and the name
    the [i]-th of [count] published examples is given (from 0). *)
Definition flagged (exampleObject : obj json) : list json :=
  map snd (filter (fun e => includes (fst e) "gexample") exampleObject).

Definition published_name (count i : nat) : string :=
  "example-" ++ pad (i + 1) (count / 10 + 1).

(** No operation of the specification has a request body. *)
Definition no_request_body (spec : OpenApiSpec) : Prop :=
  forall path method operation,
    get_method path method spec = Some operation -> requestBody operation = None.

(** ** Sample data *)

(** An operation as [addMethod] makes it, for the examples below. *)
Definition sample_operation : OperationObject :=
  {| operationId := "get-accounts";
     summary := "List accounts";
     description := JStr "";
     parameters := [];
     responses := [];
     tags := ["Miscellaneous"];
     meta := {| originalPath := "https://api.x/accounts/"; element := Some (JStr "") |};
     requestBody := None |}.

(** A run of one transaction, for the examples below: a request that the
    server refused, under a configuration that strips the host and
    collapses account numbers. *)
Definition sample_config : Config :=
  {| apiBasePath := "api.x";
     pathReplace := [("https://api\.x", "");
                     ("/accounts/\d+/", "/accounts/{account_id}/")];
     replace := [];
     config_tags := [["billing"; "Billing"]; ["account"]] |}.

Definition refused_entry : Entry :=
  {| request :=
       {| request_method := "POST";
          url := "https://api.x/accounts/42/";
          queryString := [];
          request_bodySize := 12;
          postData := Some (Text (Some (JObj [("name", JStr "a")]))) |};
     response :=
       {| status := 400;
          response_bodySize := 40;
          response_content :=
            Some (JObj [("error", JStr "invalid"); ("code", JNum 7)]) |} |}.

(** A prior specification with one operation, and a curated file that
    mentions another path only, for the examples below. *)
Definition prior_spec : OpenApiSpec :=
  {| openapi := JStr "3.0.0";
     info := JObj [("title", JStr "API"); ("version", JStr "1.0.0")];
     servers := None;
     paths := [("/accounts/",
                {| path_parameters := Some [];
                   path_methods := [("get", sample_operation);
                                    ("post", sample_operation)] |})] |}.

Definition curated_other_path : ExampleFile :=
  [("/users/", [("get", {| request_examples := []; response_examples := [] |})])].

Definition curated_same_path : ExampleFile :=
  [("/accounts/",
    [("get", {| request_examples := [];
                response_examples :=
                  [("200", [("gexample-0002", JObj [("id", JNum 42)])])] |})])].

(** ** Spec Merger *)

(** The loop of lib.ts:535-537 over the methods of [toMerge.paths[path]]
    still to visit, on the methods of [master.paths[path]]. *)
Fixpoint mergeFiles_methods (toMerge master : obj OperationObject) : obj OperationObject :=
  match toMerge with
  | [] => master
  | (method, operation) :: toMerge' =>
      mergeFiles_methods toMerge'
        (match obj_get method master with
         | None => obj_set method operation master
         | Some _ => master
         end)
  end.

(** lib.ts:531-539, one path of [toMerge]: a path that [master] lacks is
    copied whole; of a path that [master] has, the keys that [master]
    lacks are copied ([parameters] is one of the keys the inner loop
    visits). *)
Definition mergeFiles_path (path : string) (item : PathItemObject)
  (master : obj PathItemObject) : obj PathItemObject :=
  match obj_get path master with
  | None => obj_set path item master
  | Some mine =>
      obj_set path
        {| path_parameters := match path_parameters mine with
                              | Some p => Some p
                              | None => path_parameters item
                              end;
           path_methods := mergeFiles_methods (path_methods item) (path_methods mine) |}
        master
  end.

(** The loop of lib.ts:531-539 over the paths of [toMerge] still to
    visit. *)
Fixpoint mergeFiles_paths (toMerge master : obj PathItemObject) : obj PathItemObject :=
  match toMerge with
  | [] => master
  | (path, item) :: toMerge' => mergeFiles_paths toMerge' (mergeFiles_path path item master)
  end.

(** lib.ts:524 [mergeFiles], of the two documents it reads, before the
    keys of the result are sorted and the result is written. *)
Definition mergeFiles (master toMerge : OpenApiSpec) : OpenApiSpec :=
  set_paths (mergeFiles_paths (paths toMerge) (paths master)) master.

(** ** Writing the examples out *)

(** [value['element']?.includes('shoji')] on the value of an example;
    [None] when it throws: the value is [null], or its element is neither
    a string nor an array and has no [includes]. *)
Definition includes_shoji (value : json) : option bool :=
  match value with
  | JNull => None
  | JObj props =>
      match obj_get "element" props with
      | None => Some false
      | Some JNull => Some false
      | Some (JStr s) => Some (includes s "shoji")
      | Some (JArr items) =>
          Some (existsb (fun item => match item with
                                     | JStr s => s =? "shoji"
                                     | _ => false
                                     end) items)
      | Some _ => None
      end
  | _ => Some false
  end.

(** The loop of lib.ts:727-730 over the examples still to visit: whether
    some request example is a shoji one. *)
Fixpoint some_shoji (examples : Examples) (shoji : bool) : option bool :=
  match examples with
  | [] => Some shoji
  | (_, value) :: examples' =>
      match includes_shoji value with
      | None => None
      | Some true => some_shoji examples' true
      | Some false => some_shoji examples' shoji
      end
  end.

(** The loop of lib.ts:735-745, from the example of rank [exampleNum + 1]
    on: the request examples written out. *)
Fixpoint write_request_examples (shoji : bool) (exampleCount exampleNum : nat)
  (examples : Examples) (written : obj json) : obj json :=
  match examples with
  | [] => written
  | (example, value) :: examples' =>
      let exampleNum1 := S exampleNum in
      write_request_examples shoji exampleCount exampleNum1 examples'
        (if ((exampleNum1 <? 2)%nat || negb (exampleCount =? 2)%nat)
            && (negb shoji || match includes_shoji value with
                              | Some b => b
                              | None => false
                              end)
         then obj_set example value written
         else written)
  end.

(** The loop of lib.ts:755-758, from the example of rank [exampleNum + 1]
    on: the response examples of one status written out. *)
Fixpoint write_response_examples (exampleCount exampleNum : nat)
  (examples : Examples) (written : obj json) : obj json :=
  match examples with
  | [] => written
  | (example, value) :: examples' =>
      let exampleNum1 := S exampleNum in
      write_response_examples exampleCount exampleNum1 examples'
        (if (exampleNum1 <? 2)%nat || negb (exampleCount =? 2)%nat
         then obj_set example value written
         else written)
  end.

(** [x?.content?.["application/json"]?.examples] on a content that may be
    absent. *)
Definition optional_examples (c : option Content) : option Examples :=
  match c with
  | None => None
  | Some c' =>
      match obj_get "application/json" c' with
      | None => None
      | Some media => mt_examples media
      end
  end.

(** The loop of lib.ts:749-760 over the responses still to visit. *)
Fixpoint write_responses (responses : obj ResponseObject) (written : obj (obj json))
  : obj (obj json) :=
  match responses with
  | [] => written
  | (status, response) :: responses' =>
      write_responses responses'
        (match optional_examples (resp_content response) with
         | None => written
         | Some examples =>
             obj_set status
               (write_response_examples (List.length (Object_keys examples)) 0 examples [])
               written
         end)
  end.

(** lib.ts:715-760, the examples of one operation; [None] when reading a
    request example throws. *)
Definition write_method (method : OperationObject) : option MethodExamples :=
  match
    (match optional_examples (option_map rb_content (requestBody method)) with
     | None => Some []
     | Some examples =>
         match some_shoji examples false with
         | None => None
         | Some shoji =>
             Some (write_request_examples shoji (List.length (Object_keys examples)) 0
                                          examples [])
         end
     end)
  with
  | None => None
  | Some written =>
      Some {| request_examples := written;
              response_examples := write_responses (responses method) [] |}
  end.

(** The loop of lib.ts:712-762 over the methods of one path still to
    visit. *)
Fixpoint write_methods (methods : obj OperationObject) (written : obj MethodExamples)
  : option (obj MethodExamples) :=
  match methods with
  | [] => Some written
  | (lMethod, method) :: methods' =>
      if lMethod =? "options" then write_methods methods' written
      else match write_method method with
           | None => None
           | Some examples => write_methods methods' (obj_set lMethod examples written)
           end
  end.

(** The loop of lib.ts:710-763 over the paths still to visit. *)
Fixpoint write_paths (items : obj PathItemObject) (specExamples : ExampleFile)
  : option ExampleFile :=
  match items with
  | [] => Some specExamples
  | (path, item) :: items' =>
      match write_methods (path_methods item) [] with
      | None => None
      | Some methods => write_paths items' (obj_set path methods specExamples)
      end
  end.

(** lib.ts:708 [writeExamples]: the example file made from a document,
    before its keys are sorted and it is written. *)
Definition writeExamples (spec : OpenApiSpec) : option ExampleFile :=
  write_paths (paths spec) [].

(** ** More notions of the statements *)

(** [c] occurs in [s]. *)
Fixpoint has_char (c : ascii) (s : string) : bool :=
  match s with
  | "" => false
  | String d s' => Ascii.eqb c d || has_char c s'
  end.

(** A rule of the tags matches [path]: its keyword occurs in it, the
    keyword of an empty rule being [undefined]. *)
Definition tag_rule_matches (path : string) (rule : list string) : bool :=
  match rule with
  | [] => includes path "undefined"
  | keyword :: _ => includes path keyword
  end.

(** The tag a rule gives. *)
Definition tag_of_rule (rule : list string) : string :=
  match rule with
  | [] => ""
  | [keyword] => capitalize keyword
  | _ :: name :: _ => name
  end.

(** The first element of [values] that is truthy, the last one when none
    is. *)
Fixpoint first_truthy (values : list json) : option json :=
  match values with
  | [] => None
  | [v] => Some v
  | v :: values' => if truthy v then Some v else first_truthy values'
  end.

(** The number a text of decimal digits stands for. *)
Definition decimal_value (s : string) : option nat :=
  option_map Nat.of_uint (NilEmpty.uint_of_string s).

(** The names of the query parameters an operation declares. *)
Definition query_names (m : OperationObject) : list string :=
  map param_name (filter (fun param => param_in param =? "query") (parameters m)).

(** The transactions the loop of [generateSpec] does not skip: the URL
    contains the base path and is not normalized to the empty text. *)
Definition is_ingested (engine : RegExpEngine) (config : Config) (item : Entry) : bool :=
  includes (url (request item)) (apiBasePath config)
  && match filterUrl engine config (url (request item)) with
     | Some "" => false
     | _ => true
     end.

(** [items[path][method]], [None] for [undefined]. *)
Definition find_operation (items : obj PathItemObject) (path method : string)
  : option OperationObject :=
  match obj_get path items with
  | None => None
  | Some item => obj_get method (path_methods item)
  end.

(** The operation the reconciliation of a method starts from: the one the
    prior path has, else the one made for it (lib.ts:897-913). *)
Definition start_operation (path method : string) (methods : obj OperationObject)
  : OperationObject :=
  match obj_get method methods with
  | Some operation => operation
  | None => skeleton path method
  end.

(** A pool has examples, none of them flagged for publication. *)
Definition unflagged (pool : obj json) : Prop :=
  pool <> []
  /\ forall name v, In (name, v) pool -> includes name "gexample" = false.

(** A method of the curated file has a slot with examples, none of them
    flagged for publication. *)
Definition has_unflagged_slot (examples : MethodExamples) : Prop :=
  unflagged (request_examples examples)
  \/ exists statusCode pool,
       In (statusCode, pool) (response_examples examples) /\ unflagged pool.

(** The request body of an operation has no [application/json] media
    type. *)
Definition request_without_json (operation : OperationObject) : Prop :=
  exists body,
    requestBody operation = Some body
    /\ obj_get "application/json" (rb_content body) = None.

(** The response of an operation under a status code has no
    [application/json] media type: it has no content at all, or a content
    of other media types. *)
Definition response_without_json (statusCode : string) (operation : OperationObject)
  : Prop :=
  exists response,
    obj_get statusCode (responses operation) = Some response
    /\ match resp_content response with
       | None => True
       | Some c => obj_get "application/json" c = None
       end.

(** A curated file for a method the prior specification of the examples
    does not have, and a prior specification with an upload and a response
    recorded without a body. *)
Definition curated_new_method : ExampleFile :=
  [("/users/",
    [("post",
      {| request_examples := [("gexample-0001", JObj [("name", JStr "a")])];
         response_examples :=
           [("201", [("example-0001", JObj [("id", JNum 1)]);
                     ("gexample-0002", JObj [("id", JNum 2)])])] |})])].

Definition prior_upload_spec : OpenApiSpec :=
  {| openapi := JStr "3.0.0";
     info := JObj [("title", JStr "API"); ("version", JStr "1.0.0")];
     servers := None;
     paths := [("/files/",
                {| path_parameters := None;
                   path_methods :=
                     [("post", set_requestBody (Some binary_requestBody)
                                 (set_responses [("204", described "Item created")]
                                                sample_operation))] |})] |}.

(** An operation holds an example under a name in its request slot, and
    in its response slot of a status code. *)
Definition request_example_of (operation : OperationObject) (name : string) (value : json)
  : Prop :=
  exists examples,
    optional_examples (option_map rb_content (requestBody operation)) = Some examples
    /\ In (name, value) examples.

Definition response_example_of (operation : OperationObject) (statusCode name : string)
  (value : json) : Prop :=
  exists response examples,
    In (statusCode, response) (responses operation)
    /\ optional_examples (resp_content response) = Some examples
    /\ In (name, value) examples.

(** * Properties *)

(** ** Dictionaries *)

Lemma obj_get_set_same {A : Type} (k : string) (v : A) (o : obj A) :
  obj_get k (obj_set k v o) = Some v.
Proof.
  induction o as [| [k' v'] o IH]; simpl.
  - now rewrite String.eqb_refl.
  - destruct (k =? k') eqn:E; simpl.
    + now rewrite String.eqb_refl.
    + destruct (key_before k k'); simpl.
      * now rewrite String.eqb_refl.
      * now rewrite E.
Qed.

Lemma obj_get_set_other {A : Type} (k k' : string) (v : A) (o : obj A) :
  k' <> k -> obj_get k' (obj_set k v o) = obj_get k' o.
Proof.
  intros Hne. apply String.eqb_neq in Hne.
  induction o as [| [k0 v0] o IH]; simpl.
  - now rewrite Hne.
  - destruct (k =? k0) eqn:E; simpl.
    + apply String.eqb_eq in E. subst k0. now rewrite Hne.
    + destruct (key_before k k0); simpl.
      * now rewrite Hne.
      * now rewrite IH.
Qed.

Lemma key_before_not_index (k k' : string) :
  array_index k = None -> key_before k k' = false.
Proof. unfold key_before. now intros ->. Qed.

(** A new key that is not an array index goes last. *)
Lemma obj_set_new {A : Type} (k : string) (v : A) (o : obj A) :
  array_index k = None -> obj_get k o = None ->
  obj_set k v o = (o ++ [(k, v)])%list.
Proof.
  intros Hk. induction o as [| [k' v'] o IH]; simpl; intros Hget.
  - reflexivity.
  - destruct (k =? k') eqn:E; [discriminate |].
    rewrite (key_before_not_index _ _ Hk). now rewrite IH.
Qed.

Lemma obj_get_app_none {A : Type} (k : string) (o1 o2 : obj A) :
  obj_get k o1 = None -> obj_get k (o1 ++ o2)%list = obj_get k o2.
Proof.
  induction o1 as [| [k' v'] o1 IH]; simpl; intros H; [reflexivity |].
  destruct (k =? k'); [discriminate | auto].
Qed.

Lemma obj_get_In {A : Type} (k : string) (v : A) (o : obj A) :
  obj_get k o = Some v -> In (k, v) o.
Proof.
  induction o as [| [k' v'] o IH]; simpl; [discriminate |].
  destruct (k =? k') eqn:E.
  - apply String.eqb_eq in E. intros [= ->]. subst. now left.
  - intros H. right. auto.
Qed.

Lemma obj_get_none_keys {A : Type} (k : string) (o : obj A) :
  obj_get k o = None <-> ~ In k (Object_keys o).
Proof.
  induction o as [| [k' v'] o IH]; simpl.
  - tauto.
  - destruct (k =? k') eqn:E.
    + apply String.eqb_eq in E. subst. split; [discriminate | intros H; exfalso; auto].
    + apply String.eqb_neq in E. rewrite IH. split.
      * intros H [H1 | H1]; [congruence | auto].
      * intros H H1. apply H. now right.
Qed.

(** ** Records *)

Lemma set_requestBody_same (m : OperationObject) :
  set_requestBody (requestBody m) m = m.
Proof. now destruct m. Qed.

Lemma is_duplicate_In (data : json) (examples : Examples) (name : string) (v : json) :
  In (name, v) examples -> JSON_stringify v = JSON_stringify data ->
  is_duplicate (JSON_stringify data) examples = true.
Proof.
  intros Hin Heq. unfold is_duplicate. apply existsb_exists.
  exists (name, v). split; [assumption |]. simpl. rewrite Heq. apply String.eqb_refl.
Qed.

(** ** Example Merge Engine: duplicates *)

(** C8.  Folding a body whose serialization is that of an example the pool
    already holds changes nothing: the operation, hence the number of
    stored examples, the accumulator and every stored value, is the one
    before the fold.  For a response the body folded is the parsed body
    without its traceback. *)
Theorem duplicate_fold_is_noop :
  (forall (specMethod : OperationObject) (body : RequestBodyObject)
          (examples : Examples) (data : json) (name : string) (v : json),
      requestBody specMethod = Some body ->
      json_examples (rb_content body) = Some (Some examples) ->
      In (name, v) examples ->
      JSON_stringify data = JSON_stringify v ->
      mergeRequestExample specMethod (Text (Some data)) = specMethod)
  /\
  (forall (specMethod : OperationObject) (statusString method filteredUrl : string)
          (response : ResponseObject) (c : Content) (examples : Examples)
          (parsed data : json) (name : string) (v : json),
      obj_get statusString (responses specMethod) = Some response ->
      resp_content response = Some c ->
      json_examples c = Some (Some examples) ->
      In (name, v) examples ->
      delete_traceback parsed = Some data ->
      JSON_stringify data = JSON_stringify v ->
      mergeResponseExample specMethod statusString (Some parsed) method filteredUrl
      = specMethod).
Proof.
  split.
  - intros specMethod body examples data name v Hbody Hex Hin Heq.
    unfold mergeRequestExample. rewrite Hbody. rewrite Hbody. rewrite Hex.
    now rewrite (is_duplicate_In data examples name v Hin (eq_sym Heq)).
  - intros specMethod statusString method filteredUrl response c examples
           parsed data name v Hresp Hc Hex Hin Hdel Heq.
    unfold mergeResponseExample. rewrite Hdel.
    destruct (1 <? Object_keys_length data)%nat; [| reflexivity].
    rewrite Hresp, Hc, Hex.
    now rewrite (is_duplicate_In data examples name v Hin (eq_sym Heq)).
Qed.

(** ** Response Classifier *)

(** C4 (the cell the code misplaces).  For status 204 and method [post]
    the classifier writes the description under the key [202]; the key
    [204] is left as it was. *)
Theorem addResponse_204_post_writes_202 (specPath : OperationObject) :
  responses (addResponse 204 "post" specPath)
  = obj_set "202" (described "Item created") (responses specPath)
  /\ obj_get "204" (responses (addResponse 204 "post" specPath))
     = obj_get "204" (responses specPath)
  /\ obj_get "202" (responses (addResponse 204 "post" specPath))
     = Some (described "Item created").
Proof.
  split; [reflexivity | split].
  - simpl. now apply obj_get_set_other.
  - simpl. apply obj_get_set_same.
Qed.

(** Every other cell of the table is stored under the decimal form of its
    status, and a pair without a cell leaves the operation as it was. *)
Lemma addResponse_other_cells (status : Z) (method : string) (specPath : OperationObject) :
  ~ (status = 204%Z /\ method = "post") ->
  addResponse status method specPath = specPath
  \/ exists text,
       responses (addResponse status method specPath)
       = obj_set (Number_toString status) (described text) (responses specPath).
Proof.
  intros Hcell. unfold addResponse.
  repeat match goal with
         | |- context [(?a =? ?b)%Z] =>
             destruct (Z.eqb_spec a b); [subst |]
         | |- context [String.eqb ?a ?b] =>
             destruct (String.eqb_spec a b); [subst |]
         | |- context [orb _ _] => simpl orb
         end;
    try (left; reflexivity);
    try (right; eexists; reflexivity).
  exfalso. apply Hcell. split; reflexivity.
Qed.

Lemma addResponse_unauthorized (method : string) (specPath : OperationObject) :
  obj_get "401" (responses (addResponse 401 method specPath))
  = Some (described "Unauthorized").
Proof. simpl. apply obj_get_set_same. Qed.

Lemma addResponse_requestBody (status : Z) (method : string) (specPath : OperationObject) :
  requestBody (addResponse status method specPath) = requestBody specPath.
Proof.
  unfold addResponse.
  repeat match goal with
         | |- context [if ?b then _ else _] => destruct b
         end; reflexivity.
Qed.

(** ** Example Merge Engine: binary payloads *)

Lemma mergeRequestExample_binary_fixed (m : OperationObject) (postData : PostData) :
  requestBody m = Some binary_requestBody -> mergeRequestExample m postData = m.
Proof.
  intros Hbody. unfold mergeRequestExample.
  destruct postData as [| [data |]]; rewrite ?Hbody; reflexivity.
Qed.

(** C10.  Once the request body of an operation has been recorded from a
    payload without text, it is the multipart schema; that body has no
    [application/json] content, so reading its examples throws; and every
    request body folded afterwards, JSON or not, leaves the operation as
    it was. *)
Theorem binary_body_discards_later_json (specMethod : OperationObject) :
  requestBody specMethod = None ->
  let recorded := mergeRequestExample specMethod NoText in
  requestBody recorded = Some binary_requestBody
  /\ json_examples (rb_content binary_requestBody) = None
  /\ (forall data : json, mergeRequestExample recorded (Text (Some data)) = recorded)
  /\ (forall later : list PostData, fold_left mergeRequestExample later recorded = recorded).
Proof.
  intros Hnone recorded.
  assert (Hrec : requestBody recorded = Some binary_requestBody).
  { unfold recorded, mergeRequestExample. now rewrite Hnone. }
  split; [exact Hrec | split; [reflexivity | split]].
  - intros data. now apply mergeRequestExample_binary_fixed.
  - intros later. induction later as [| p later IH]; simpl; [reflexivity |].
    now rewrite (mergeRequestExample_binary_fixed recorded p Hrec).
Qed.

Lemma binary_body_discards_later_json_witness :
  requestBody sample_operation = None
  /\ fold_left mergeRequestExample
       [Text (Some (JObj [("name", JStr "a")])); Text (Some (JObj [("name", JStr "b")]))]
       (mergeRequestExample sample_operation NoText)
     = mergeRequestExample sample_operation NoText.
Proof.
  split; [reflexivity |].
  apply (binary_body_discards_later_json sample_operation); reflexivity.
Defined.

(** ** Example Merge Engine: a response body folded twice *)

Lemma responses_capture_metadata (data : json) (m : OperationObject) :
  responses (capture_metadata data m) = responses m.
Proof.
  unfold capture_metadata.
  destruct (property data "description") as [d |]; [destruct (truthy d) |];
    (destruct (property data "element") as [e |]; [destruct (truthy e) |]);
    reflexivity.
Qed.

Lemma requestBody_capture_metadata (data : json) (m : OperationObject) :
  requestBody (capture_metadata data m) = requestBody m.
Proof.
  unfold capture_metadata.
  destruct (property data "description") as [d |]; [destruct (truthy d) |];
    (destruct (property data "element") as [e |]; [destruct (truthy e) |]);
    reflexivity.
Qed.

(** A body with at most one top-level key is not folded. *)
Lemma mergeResponseExample_small_body (specMethod : OperationObject)
  (statusString method filteredUrl : string) (parsed data : json) :
  delete_traceback parsed = Some data ->
  (Object_keys_length data <= 1)%nat ->
  mergeResponseExample specMethod statusString (Some parsed) method filteredUrl = specMethod.
Proof.
  intros Hdel Hlen. unfold mergeResponseExample. rewrite Hdel.
  destruct (Nat.ltb_spec 1 (Object_keys_length data)); [lia | reflexivity].
Qed.

(** C2 as stated fails: after the body [{"a":1}] has been folded twice into
    a response slot that has no example yet, the slot still has none, so
    there is no [example-0001]. *)
Lemma single_key_body_leaves_pool_empty :
  let body := JObj [("a", JNum 1)] in
  let specMethod := addResponse 200 "get" sample_operation in
  let after :=
    mergeResponseExample
      (mergeResponseExample specMethod "200" (Some body) "get" "/accounts/")
      "200" (Some body) "get" "/accounts/" in
  response_pool "200" specMethod = []
  /\ response_pool "200" after = []
  /\ obj_get "example-0001" (response_pool "200" after) <> Some body.
Proof. repeat split; discriminate. Qed.

(** C2, amended.  In a response slot without examples, the body [{"a":1}]
    folded twice leaves the operation as it was, because the body has a
    single top-level key; the body [{"a":1,"b":2}] folded twice leaves
    the accumulator [example-0001] and one stored example [example-0002],
    both equal to the body. *)
Theorem response_body_folded_twice (specMethod : OperationObject)
  (statusString method filteredUrl : string) (response : ResponseObject) :
  obj_get statusString (responses specMethod) = Some response ->
  resp_content response = None ->
  let one := JObj [("a", JNum 1)] in
  let two := JObj [("a", JNum 1); ("b", JNum 2)] in
  mergeResponseExample
    (mergeResponseExample specMethod statusString (Some one) method filteredUrl)
    statusString (Some one) method filteredUrl = specMethod
  /\ response_pool statusString
       (mergeResponseExample
          (mergeResponseExample specMethod statusString (Some two) method filteredUrl)
          statusString (Some two) method filteredUrl)
     = [("example-0001", two); ("example-0002", two)].
Proof.
  intros Hresp Hcontent one two. split.
  - rewrite !(mergeResponseExample_small_body _ _ _ _ one one); auto.
  - set (first := mergeResponseExample specMethod statusString (Some two) method filteredUrl).
    assert (Hfirst : obj_get statusString (responses first)
                     = Some {| resp_description := resp_description response;
                               resp_content :=
                                 Some [("application/json",
                                        {| mt_examples :=
                                             Some [("example-0001", two); ("example-0002", two)];
                                           mt_schema := mt_schema new_json_media |})] |}).
    { unfold first, mergeResponseExample. simpl. rewrite Hresp, Hcontent. simpl.
      rewrite !obj_get_set_same. reflexivity. }
    unfold mergeResponseExample. simpl. rewrite Hfirst. simpl.
    unfold response_pool. rewrite Hfirst. reflexivity.
Qed.

Lemma response_body_folded_twice_witness :
  let specMethod := addResponse 200 "get" sample_operation in
  response_pool "200"
    (mergeResponseExample
       (mergeResponseExample specMethod "200"
          (Some (JObj [("a", JNum 1); ("b", JNum 2)])) "get" "/accounts/")
       "200" (Some (JObj [("a", JNum 1); ("b", JNum 2)])) "get" "/accounts/")
  = [("example-0001", JObj [("a", JNum 1); ("b", JNum 2)]);
     ("example-0002", JObj [("a", JNum 1); ("b", JNum 2)])].
Proof.
  exact (proj2 (response_body_folded_twice
                  (addResponse 200 "get" sample_operation) "200" "get" "/accounts/"
                  (described "Success") eq_refl eq_refl)).
Defined.

Lemma duplicate_fold_is_noop_witness :
  let stored := JObj [("name", JStr "a")] in
  let pool := [("example-0001", stored); ("example-0002", stored)] in
  let media := {| mt_examples := Some pool; mt_schema := mt_schema new_json_media |} in
  let c := [("application/json", media)] in
  let request_op := set_requestBody (Some {| rb_content := c |}) sample_operation in
  let response_op :=
    set_response "200" {| resp_description := Some "Success"; resp_content := Some c |}
                 sample_operation in
  mergeRequestExample request_op (Text (Some stored)) = request_op
  /\ mergeResponseExample response_op "200"
       (Some (JObj [("name", JStr "a"); ("traceback", JStr "boom")])) "get" "/accounts/"
     = response_op.
Proof.
  intros stored pool media c request_op response_op. split.
  - apply (proj1 duplicate_fold_is_noop request_op {| rb_content := c |} pool stored
             "example-0002" stored); try reflexivity.
    simpl. right. left. reflexivity.
  - apply (proj2 duplicate_fold_is_noop response_op "200" "get" "/accounts/"
             {| resp_description := Some "Success"; resp_content := Some c |}
             c pool (JObj [("name", JStr "a"); ("traceback", JStr "boom")]) stored
             "example-0002" stored); try reflexivity.
    simpl. right. left. reflexivity.
Defined.

(** ** Example names *)

(** The number a decimal text stands for. *)
Lemma decimal_of_zeros (k : nat) (s : string) :
  option_map Nat.of_uint (NilEmpty.uint_of_string (repeat_string "0" k ++ s))
  = option_map Nat.of_uint (NilEmpty.uint_of_string s).
Proof.
  induction k as [| k IH]; simpl; [reflexivity |].
  simpl in IH. rewrite <- IH.
  destruct (NilEmpty.uint_of_string (repeat_string "0" k ++ s)); reflexivity.
Qed.

Lemma decimal_of_nat_toString (m : nat) :
  option_map Nat.of_uint (NilEmpty.uint_of_string (nat_toString m)) = Some m.
Proof.
  unfold nat_toString.
  pose proof (Unsigned.of_to m) as Hm.
  destruct (Nat.to_uint m) as [| d | d | d | d | d | d | d | d | d | d] eqn:E;
    [ simpl in Hm; subst m; reflexivity | .. ];
    (unfold NilZero.string_of_uint; rewrite NilEmpty.usu; simpl option_map;
     now rewrite Hm).
Qed.

Lemma decimal_of_pad (m width : nat) :
  option_map Nat.of_uint (NilEmpty.uint_of_string (pad m width)) = Some m.
Proof.
  unfold pad. destruct (width <=? String.length (nat_toString m))%nat.
  - apply decimal_of_nat_toString.
  - rewrite decimal_of_zeros. apply decimal_of_nat_toString.
Qed.

Lemma pad_injective (m m' width width' : nat) :
  pad m width = pad m' width' -> m = m'.
Proof.
  intros H.
  pose proof (decimal_of_pad m width) as H1.
  rewrite H, decimal_of_pad in H1. now injection H1.
Qed.

Lemma example_name_injective (m m' width width' : nat) :
  "example-" ++ pad m width = "example-" ++ pad m' width' -> m = m'.
Proof. simpl. intros [= H]. now apply pad_injective in H. Qed.

Lemma example_name_not_index (s : string) : array_index ("example-" ++ s) = None.
Proof. reflexivity. Qed.

Lemma numbered_get_none (j i : nat) (values : list json) :
  (j < i)%nat -> obj_get ("example-" ++ pad j 4) (numbered i values) = None.
Proof.
  revert i. induction values as [| v values IH]; intros i Hlt; [reflexivity |].
  cbn [numbered obj_get].
  destruct (String.eqb_spec ("example-" ++ pad j 4) ("example-" ++ pad i 4)) as [E | E].
  - apply example_name_injective in E. lia.
  - apply IH. lia.
Qed.

Lemma numbered_get_after (i : nat) (values : list json) :
  obj_get ("example-" ++ pad (i + List.length values) 4) (numbered i values) = None.
Proof.
  revert i. induction values as [| v values IH]; intros i; [reflexivity |].
  cbn [numbered obj_get List.length].
  destruct (String.eqb_spec ("example-" ++ pad (i + S (List.length values)) 4)
                            ("example-" ++ pad i 4)) as [E | E].
  - apply example_name_injective in E. lia.
  - replace (i + S (List.length values))%nat with (S i + List.length values)%nat by lia.
    apply IH.
Qed.

Lemma numbered_app (i : nat) (values more : list json) :
  numbered i (values ++ more)
  = (numbered i values ++ numbered (i + List.length values) more)%list.
Proof.
  revert i. induction values as [| v values IH]; intros i; simpl.
  - now rewrite Nat.add_0_r.
  - rewrite IH. now replace (S i + List.length values)%nat
                       with (i + S (List.length values))%nat by lia.
Qed.

Lemma numbered_length (i : nat) (values : list json) :
  List.length (numbered i values) = List.length values.
Proof. revert i. induction values; intros; simpl; auto. Qed.

Lemma numbered_values (i : nat) (values : list json) :
  map snd (numbered i values) = values.
Proof. revert i. induction values; intros; simpl; f_equal; auto. Qed.

(** ** Example Merge Engine: the accumulator *)

Lemma subsequence_length {A : Type} (kept all : list A) :
  subsequence kept all -> (List.length kept <= List.length all)%nat.
Proof. induction 1; simpl; lia. Qed.

Lemma subsequence_full {A : Type} (kept all : list A) :
  subsequence kept all -> List.length kept = List.length all -> kept = all.
Proof.
  induction 1 as [| x kept all Hsub IH | x kept all Hsub IH]; simpl; intros Hlen.
  - reflexivity.
  - apply subsequence_length in Hsub. lia.
  - f_equal. apply IH. lia.
Qed.

Lemma subsequence_snoc_skip {A : Type} (x : A) (kept all : list A) :
  subsequence kept all -> subsequence kept (all ++ [x]).
Proof.
  induction 1; simpl.
  - apply subsequence_skip, subsequence_nil.
  - now apply subsequence_skip.
  - now apply subsequence_keep.
Qed.

Lemma subsequence_snoc_keep {A : Type} (x : A) (kept all : list A) :
  subsequence kept all -> subsequence (kept ++ [x]) (all ++ [x]).
Proof.
  induction 1; simpl.
  - apply subsequence_keep, subsequence_nil.
  - now apply subsequence_skip.
  - now apply subsequence_keep.
Qed.

Lemma merge_all_snoc (start v : json) (values : list json) :
  merge_all start (values ++ [v])
  = match merge_all start values with
    | Some accumulator => merge accumulator v
    | None => None
    end.
Proof.
  revert start. induction values as [| w values IH]; intros start; simpl.
  - now destruct (merge start v).
  - destruct (merge start w); [apply IH | reflexivity].
Qed.

(** Storing a body in a pool made of the accumulator and the examples
    numbered from 2. *)
Lemma store_example_numbered (accumulator merged data : json) (kept : list json) :
  merge accumulator data = Some merged ->
  store_example (("example-0001", accumulator) :: numbered 2 kept) data
  = Some (("example-0001", merged) :: numbered 2 (kept ++ [data])).
Proof.
  intros Hmerge. unfold store_example.
  cbn [obj_get]. rewrite String.eqb_refl, Hmerge.
  cbn [obj_set]. rewrite String.eqb_refl.
  cbn [Object_keys map List.length].
  rewrite length_map, numbered_length.
  f_equal.
  set (name := "example-" ++ pad (S (List.length kept) + 1) 4).
  cbn [obj_set].
  destruct (String.eqb_spec name "example-0001") as [E | E].
  - change "example-0001" with ("example-" ++ pad 1 4) in E.
    apply example_name_injective in E. lia.
  - rewrite (key_before_not_index name "example-0001" (example_name_not_index _)).
    f_equal. rewrite numbered_app. cbn [numbered]. subst name.
    replace (S (List.length kept) + 1)%nat with (2 + List.length kept)%nat by lia.
    apply obj_set_new; [apply example_name_not_index | apply numbered_get_after].
Qed.

Lemma is_duplicate_numbered (dataString : string) (i : nat) (values : list json) :
  is_duplicate dataString (numbered i values)
  = existsb (fun e => dataString =? JSON_stringify e) values.
Proof.
  unfold is_duplicate. revert i.
  induction values as [| v values IH]; intros i; cbn [numbered existsb snd].
  - reflexivity.
  - now rewrite IH.
Qed.

Lemma mergeRequestExample_step (m : OperationObject) (accumulator : json)
  (kept : list json) (v : json) :
  json_pool_of m accumulator kept ->
  json_pool_of (mergeRequestExample m (Text (Some v)))
               (fst (fold_value (accumulator, kept) v))
               (snd (fold_value (accumulator, kept) v)).
Proof.
  intros Hpool. unfold json_pool_of in Hpool.
  unfold mergeRequestExample. rewrite Hpool. rewrite Hpool.
  cbn [rb_content json_examples obj_get String.eqb Ascii.eqb Bool.eqb mt_examples].
  unfold fold_value. cbn [fst snd].
  change (is_duplicate (JSON_stringify v)
            (("example-0001", accumulator) :: numbered 2 kept))
    with ((JSON_stringify v =? JSON_stringify accumulator)
          || is_duplicate (JSON_stringify v) (numbered 2 kept)).
  rewrite is_duplicate_numbered. cbn [existsb].
  destruct ((JSON_stringify v =? JSON_stringify accumulator)
            || existsb (fun e => JSON_stringify v =? JSON_stringify e) kept).
  - exact Hpool.
  - destruct (merge accumulator v) as [merged |] eqn:Hmerge.
    + rewrite (store_example_numbered accumulator merged v kept Hmerge).
      reflexivity.
    + unfold store_example. cbn [obj_get]. rewrite String.eqb_refl, Hmerge.
      exact Hpool.
Qed.

Lemma mergeRequestExample_steps (values : list json) (m : OperationObject)
  (accumulator : json) (kept : list json) :
  json_pool_of m accumulator kept ->
  json_pool_of (fold_left mergeRequestExample (map (fun v => Text (Some v)) values) m)
               (fst (fold_left fold_value values (accumulator, kept)))
               (snd (fold_left fold_value values (accumulator, kept))).
Proof.
  revert m accumulator kept.
  induction values as [| v values IH]; intros m accumulator kept Hpool.
  - exact Hpool.
  - cbn [map fold_left].
    pose proof (mergeRequestExample_step m accumulator kept v Hpool) as Hstep.
    destruct (fold_value (accumulator, kept) v) as [accumulator1 kept1].
    now apply IH.
Qed.

(** What the fold keeps: the accumulator stays the left fold of the deep
    merge over the stored examples, which are taken from the bodies in
    their order. *)
Lemma fold_value_invariant (values done : list json) (accumulator : json)
  (kept : list json) :
  merge_all (JObj []) kept = Some accumulator ->
  subsequence kept done ->
  merge_all (JObj []) (snd (fold_left fold_value values (accumulator, kept)))
  = Some (fst (fold_left fold_value values (accumulator, kept)))
  /\ subsequence (snd (fold_left fold_value values (accumulator, kept)))
                 (done ++ values).
Proof.
  revert done accumulator kept.
  induction values as [| v values IH]; intros done accumulator kept Hacc Hsub.
  - cbn [fold_left fst snd]. rewrite app_nil_r. auto.
  - cbn [fold_left].
    replace (done ++ v :: values)%list with ((done ++ [v]) ++ values)%list
      by (rewrite <- app_assoc; reflexivity).
    unfold fold_value at 2 4 6. cbn [fst snd].
    destruct (existsb (fun e => JSON_stringify v =? JSON_stringify e)
                      (accumulator :: kept)).
    + apply IH; [exact Hacc | now apply subsequence_snoc_skip].
    + destruct (merge accumulator v) as [merged |] eqn:Hmerge.
      * apply IH; [| now apply subsequence_snoc_keep].
        rewrite merge_all_snoc, Hacc. exact Hmerge.
      * apply IH; [exact Hacc | now apply subsequence_snoc_skip].
Qed.

Lemma mergeRequestExample_first (m : OperationObject) (v : json) :
  requestBody m = None ->
  mergeRequestExample m (Text (Some v))
  = mergeRequestExample
      (set_requestBody (Some {| rb_content := [("application/json", new_json_media)] |}) m)
      (Text (Some v)).
Proof. intros H. unfold mergeRequestExample. now rewrite H. Qed.

(** C3 as stated fails: [{"a":1}], [{"a":2}] and [{"a":1}] again leave the
    accumulator [{"a":2}], since the third body is discarded as a copy of
    the first, while the left fold of the three is [{"a":1}]. *)
Lemma discarded_duplicate_is_not_merged :
  let values := [JObj [("a", JNum 1)]; JObj [("a", JNum 2)]; JObj [("a", JNum 1)]] in
  let after :=
    fold_left mergeRequestExample (map (fun v => Text (Some v)) values) sample_operation in
  obj_get "example-0001" (request_pool after) = Some (JObj [("a", JNum 2)])
  /\ merge_all (JObj []) values = Some (JObj [("a", JNum 1)])
  /\ obj_get "example-0001" (request_pool after) <> merge_all (JObj []) values.
Proof. repeat split; discriminate. Qed.

(** C3, amended.  After the bodies [values] have been folded, in order,
    into a request slot that had no example, the pool is the accumulator
    [example-0001] followed by the stored examples [example-0002],
    [example-0003], ...; the stored examples are the bodies that were not
    discarded (as a copy of the accumulator or of a stored example, or
    because their merge throws), in fold order; and the accumulator is the
    left fold of the deep merge, arrays overwritten, over the stored
    examples.  When no body was discarded it is the left fold over
    [values]. *)
Theorem accumulator_is_fold_of_stored (specMethod : OperationObject) (values : list json) :
  requestBody specMethod = None ->
  values <> [] ->
  let accumulator := fst (fold_left fold_value values (JObj [], [])) in
  let kept := snd (fold_left fold_value values (JObj [], [])) in
  request_pool
    (fold_left mergeRequestExample (map (fun v => Text (Some v)) values) specMethod)
  = ("example-0001", accumulator) :: numbered 2 kept
  /\ subsequence kept values
  /\ merge_all (JObj []) kept = Some accumulator
  /\ (List.length kept = List.length values ->
      merge_all (JObj []) values = Some accumulator).
Proof.
  intros Hnone Hvalues accumulator kept.
  destruct (fold_value_invariant values [] (JObj []) [] eq_refl subsequence_nil)
    as [Hacc Hsub].
  cbn [app] in Hsub. fold accumulator kept in Hacc, Hsub.
  split; [| split; [exact Hsub | split; [exact Hacc |]]].
  - destruct values as [| v values]; [congruence |].
    cbn [map fold_left]. rewrite (mergeRequestExample_first specMethod v Hnone).
    pose proof (mergeRequestExample_steps (v :: values)
                  (set_requestBody
                     (Some {| rb_content := [("application/json", new_json_media)] |})
                     specMethod)
                  (JObj []) [] eq_refl) as Hpool.
    cbn [map fold_left] in Hpool. unfold json_pool_of in Hpool.
    unfold request_pool. rewrite Hpool. reflexivity.
  - intros Hlen. now rewrite <- (subsequence_full kept values Hsub Hlen).
Qed.

Lemma accumulator_is_fold_of_stored_witness :
  let values := [JObj [("a", JNum 1)]; JObj [("a", JNum 2)]; JObj [("a", JNum 1)]] in
  request_pool
    (fold_left mergeRequestExample (map (fun v => Text (Some v)) values) sample_operation)
  = [("example-0001", JObj [("a", JNum 2)]);
     ("example-0002", JObj [("a", JNum 1)]);
     ("example-0003", JObj [("a", JNum 2)])]
  /\ merge_all (JObj []) [JObj [("a", JNum 1)]; JObj [("a", JNum 2)]]
     = Some (JObj [("a", JNum 2)]).
Proof.
  intros values.
  destruct (accumulator_is_fold_of_stored sample_operation values eq_refl
              ltac:(discriminate)) as (Hpool & _ & Hacc & _).
  split; [exact Hpool | exact Hacc].
Defined.

(** ** Example Curation Validator *)

Lemma collect_examples_spec (entries : obj json) (gexampleCount : nat)
  (all : list string) (published : list json) :
  collect_examples entries gexampleCount all published
  = ((gexampleCount + List.length (flagged entries))%nat,
     (all ++ map (fun e => JSON_stringify (snd e)) entries)%list,
     (published ++ flagged entries)%list).
Proof.
  revert gexampleCount all published.
  induction entries as [| [name v] entries IH]; intros g all published.
  - cbn. now rewrite Nat.add_0_r, !app_nil_r.
  - cbn [collect_examples]. unfold flagged. cbn [filter fst].
    destruct (includes name "gexample"); rewrite IH; unfold flagged; cbn [map snd List.length].
    + rewrite <- !app_assoc, <- Nat.add_assoc. reflexivity.
    + rewrite <- !app_assoc. reflexivity.
Qed.

Lemma flagged_none (exampleObject : obj json) :
  List.length (flagged exampleObject) = 0%nat
  <-> forall name v, In (name, v) exampleObject -> includes name "gexample" = false.
Proof.
  unfold flagged. induction exampleObject as [| [name v] entries IH]; cbn [filter fst].
  - split; [intros _ ? ? [] | reflexivity].
  - destruct (includes name "gexample") eqn:E; cbn [map List.length].
    + split; [discriminate |]. intros H. specialize (H name v (or_introl eq_refl)). congruence.
    + rewrite IH. split.
      * intros H n0 v0 [[= <- <-] | Hin]; [exact E | eauto].
      * intros H n0 v0 Hin. apply (H n0 v0). now right.
Qed.

(** C7.  The validator halts the run exactly when the pool has at least
    one example and no example name carries the published marker; the
    pool without examples passes, with nothing published. *)
Theorem curation_gate (exampleObject : obj json) (exampleObjectName exampleFilename : string) :
  (validateExampleList exampleObject exampleObjectName exampleFilename = None
   <-> exampleObject <> []
       /\ forall name v, In (name, v) exampleObject -> includes name "gexample" = false)
  /\ validateExampleList [] exampleObjectName exampleFilename
     = Some {| allExamples := []; publishExamples := []; firstExample := None |}.
Proof.
  split; [| reflexivity].
  unfold validateExampleList. rewrite collect_examples_spec.
  rewrite !app_nil_l, Nat.add_0_l.
  unfold Object_keys. rewrite length_map. rewrite <- flagged_none.
  destruct (renumber 0 (flagged exampleObject)
                     (List.length (flagged exampleObject) / 10 + 1) [] None)
    as [published first].
  destruct exampleObject as [| e entries].
  - cbn. split; [intros H; discriminate H | intros [H _]; congruence].
  - cbn [List.length Nat.eqb negb andb].
    destruct (Nat.eqb_spec (List.length (flagged (e :: entries))) 0) as [E | E].
    + split; [intros _; split; [discriminate | exact E] | reflexivity].
    + split; [intros H; discriminate H | intros [_ H]; congruence].
Qed.

Lemma published_name_injective (count i j : nat) :
  published_name count i = published_name count j -> i = j.
Proof. unfold published_name. intros H. apply example_name_injective in H. lia. Qed.

Lemma renumber_spec (count : nat) (rest : list json) (i : nat)
  (published : Examples) (first : option json) :
  (forall j, (i <= j)%nat -> obj_get (published_name count j) published = None) ->
  fst (renumber i rest (count / 10 + 1) published first)
  = (published
     ++ combine (map (published_name count) (seq i (List.length rest))) rest)%list.
Proof.
  revert i published first.
  induction rest as [| v rest IH]; intros i published first Hfresh.
  - cbn. now rewrite app_nil_r.
  - cbn [renumber List.length seq map combine].
    change ("example-" ++ pad (i + 1) (count / 10 + 1)) with (published_name count i).
    rewrite (obj_set_new (published_name count i) v published
               (example_name_not_index _) (Hfresh i (le_n i))).
    rewrite IH.
    + rewrite <- app_assoc. reflexivity.
    + intros j Hj. rewrite obj_get_app_none by (apply Hfresh; lia).
      cbn [obj_get].
      destruct (String.eqb_spec (published_name count j) (published_name count i)) as [E | E];
        [| reflexivity].
      apply published_name_injective in E. lia.
Qed.

(** C6 as stated fails: one published example is keyed [example-1], the
    width being 1, not [example-0001]. *)
Lemma one_published_example_is_example_1 :
  let value := JObj [("id", JNum 42)] in
  option_map publishExamples
    (validateExampleList [("gexample-1", value)] "/accounts/ get requests" "examples.json")
  = Some [("example-1", value)]
  /\ option_map publishExamples
       (validateExampleList [("gexample-1", value)] "/accounts/ get requests" "examples.json")
     <> Some [("example-0001", value)].
Proof. split; [reflexivity | discriminate]. Qed.

(** C6, amended.  For a pool that passes validation, the published
    examples are the flagged values, in their order in the pool and
    unchanged, keyed [example-] followed by their rank from 1, padded with
    zeros to the width [count / 10 + 1], [count] being their number: so
    [example-1], [example-2], ... for fewer than ten. *)
Theorem renumbering_is_contiguous (exampleObject : obj json)
  (exampleObjectName exampleFilename : string) (stats : ExampleStats) :
  validateExampleList exampleObject exampleObjectName exampleFilename = Some stats ->
  let count := List.length (flagged exampleObject) in
  publishExamples stats
  = combine (map (fun i => "example-" ++ pad (i + 1) (count / 10 + 1)) (seq 0 count))
            (flagged exampleObject)
  /\ map snd (publishExamples stats) = flagged exampleObject
  /\ List.length (publishExamples stats) = count.
Proof.
  intros Hvalid count.
  assert (Hpub : publishExamples stats
                 = combine (map (published_name count) (seq 0 count)) (flagged exampleObject)).
  { unfold validateExampleList in Hvalid. rewrite collect_examples_spec in Hvalid.
    rewrite !app_nil_l, Nat.add_0_l in Hvalid.
    destruct (negb (List.length (Object_keys exampleObject) =? 0)%nat
              && (List.length (flagged exampleObject) =? 0)%nat); [discriminate |].
    pose proof (renumber_spec count (flagged exampleObject) 0 [] None
                  (fun j _ => eq_refl)) as Hspec.
    fold count in Hvalid.
    destruct (renumber 0 (flagged exampleObject) (count / 10 + 1) [] None)
      as [published first].
    injection Hvalid as <-. cbn [publishExamples]. exact Hspec. }
  split; [exact Hpub | split].
  - rewrite Hpub. clear Hpub Hvalid. unfold count.
    generalize (published_name (List.length (flagged exampleObject))).
    generalize 0%nat. induction (flagged exampleObject) as [| v l IH]; intros i name.
    + reflexivity.
    + cbn [List.length seq map combine snd]. f_equal. apply IH.
  - rewrite Hpub. rewrite length_combine, length_map, length_seq. fold count. lia.
Qed.

Lemma renumbering_is_contiguous_witness :
  let pool := [("example-0002", JObj [("id", JNum 1)]);
               ("gexample-0003", JObj [("id", JNum 2)]);
               ("gexample-0004", JObj [("id", JNum 3)])] in
  exists stats,
    validateExampleList pool "/accounts/ get requests" "examples.json" = Some stats
    /\ publishExamples stats
       = [("example-1", JObj [("id", JNum 2)]); ("example-2", JObj [("id", JNum 3)])].
Proof.
  intros pool.
  destruct (validateExampleList pool "/accounts/ get requests" "examples.json")
    as [stats |] eqn:E; [| discriminate].
  exists stats. split; [reflexivity |].
  exact (proj1 (renumbering_is_contiguous pool _ _ stats E)).
Defined.

(** ** Path Normalizer *)

Lemma replace_from_no_match (r : regex) (whole replacement s : string) (pos : nat) :
  test_from r pos s = false -> replace_from r whole replacement pos 0 s = s.
Proof.
  revert pos. induction s as [| c s IH]; intros pos; cbn [test_from replace_from].
  - destruct (match_at r pos ""); [discriminate | reflexivity].
  - destruct (match_at r pos (String c s)); [discriminate |].
    intros H. now rewrite IH.
Qed.

(** A text without a match of the pattern is returned as it is. *)
Lemma replace_all_no_match (r : regex) (replacement s : string) :
  RegExp_test r s = false -> replace_all r replacement s = s.
Proof. apply replace_from_no_match. Qed.

Lemma substring_whole (s : string) : substring 0 (String.length s) s = s.
Proof. induction s as [| c s IH]; cbn; [reflexivity | now rewrite IH]. Qed.

(** A text in which the pattern has no match is returned as it is,
    whatever the engine. *)
Lemma String_replace_no_match (engine : RegExpEngine) (re : RegExpObject engine)
  (replacement s : string) :
  has_match engine re s = false -> String_replace engine re replacement s = s.
Proof.
  unfold has_match, String_replace.
  destruct (exec_all engine re s); [intros _ | discriminate].
  cbn [replace_results]. rewrite Nat.sub_0_r. apply substring_whole.
Qed.

Lemma apply_rules_reads_patterns (engine : RegExpEngine) (rules : obj string)
  (inputUrl T : string) :
  apply_rules engine rules inputUrl = Some T ->
  forall key replacement,
    In (key, replacement) rules -> exists re, RegExp engine key = Some re.
Proof.
  revert inputUrl. induction rules as [| [k rep] rules IH]; intros inputUrl Hrun key replacement.
  - intros [].
  - cbn [apply_rules] in Hrun.
    destruct (RegExp engine k) as [re |] eqn:E; [| discriminate].
    intros [[= <- <-] | Hin]; [now exists re | eauto].
Qed.

Lemma apply_rules_no_match (engine : RegExpEngine) (rules : obj string) (T : string) :
  (forall key replacement, In (key, replacement) rules ->
     exists re, RegExp engine key = Some re /\ has_match engine re T = false) ->
  apply_rules engine rules T = Some T.
Proof.
  induction rules as [| [k rep] rules IH]; intros H; cbn [apply_rules].
  - reflexivity.
  - destruct (H k rep (or_introl eq_refl)) as (re & -> & Htest).
    rewrite (String_replace_no_match engine re rep T Htest).
    apply IH. intros key replacement Hin. apply (H key replacement). now right.
Qed.

(** C5 as stated fails: with the rule [/api] to [/api/v2], the template
    [/api/v2/users] that normalization gives for [/api/users] is
    normalized again to [/api/v2/v2/users]. *)
Lemma normalization_is_not_idempotent :
  let config := {| apiBasePath := "api"; pathReplace := [("/api", "/api/v2")];
                   replace := []; config_tags := [] |} in
  filterUrl fragment_engine config "/api/users" = Some "/api/v2/users"
  /\ filterUrl fragment_engine config "/api/v2/users" = Some "/api/v2/v2/users"
  /\ filterUrl fragment_engine config "/api/v2/users" <> Some "/api/v2/users".
Proof. repeat split; discriminate. Qed.

(** C5, amended.  Whatever the engine of regular expressions and the
    rules, a template [T] that normalization gives, and in which no
    pattern of the rules has a match, is returned unchanged when it is
    normalized again. *)
Theorem normalization_fixes_match_free_templates (engine : RegExpEngine)
  (config : Config) (inputUrl T : string) :
  filterUrl engine config inputUrl = Some T ->
  (forall key replacement re,
      In (key, replacement) (pathReplace config) ->
      RegExp engine key = Some re -> has_match engine re T = false) ->
  filterUrl engine config T = Some T.
Proof.
  unfold filterUrl. intros Hrun Hfree. apply apply_rules_no_match.
  intros key replacement Hin.
  destruct (apply_rules_reads_patterns _ _ _ _ Hrun key replacement Hin) as [re Hre].
  exists re. split; [exact Hre | eauto].
Qed.

Lemma normalization_fixes_match_free_templates_witness :
  let config := {| apiBasePath := "api.x";
                   pathReplace := [("/accounts/\d+/", "/accounts/{account_id}/")];
                   replace := []; config_tags := [] |} in
  filterUrl fragment_engine config "https://api.x/accounts/42/"
  = Some "https://api.x/accounts/{account_id}/"
  /\ filterUrl fragment_engine config "https://api.x/accounts/{account_id}/"
     = Some "https://api.x/accounts/{account_id}/".
Proof.
  intros config. split; [reflexivity |].
  apply (normalization_fixes_match_free_templates fragment_engine config
           "https://api.x/accounts/42/").
  - reflexivity.
  - intros key replacement re [[= <- <-] | []]. intros [= <-]. reflexivity.
Defined.

(** ** Ingestion: requests that failed *)

Lemma requestBody_addQueryStringParams (m : OperationObject) (harParams : list QueryParam) :
  requestBody (addQueryStringParams m harParams) = requestBody m.
Proof.
  unfold addQueryStringParams.
  generalize (map param_name
                (filter (fun param => param_in param =? "query") (parameters m))).
  intros known. revert m.
  induction harParams as [| param harParams IH]; intros m; cbn [fold_left].
  - reflexivity.
  - rewrite IH. now destruct (existsb (String.eqb (query_name param)) known).
Qed.

Lemma requestBody_mergeResponseExample (m : OperationObject)
  (statusString : string) (content : option json) (method filteredUrl : string) :
  requestBody (mergeResponseExample m statusString content method filteredUrl)
  = requestBody m.
Proof.
  unfold mergeResponseExample.
  repeat match goal with
         | |- context [match ?x with _ => _ end] => destruct x
         end;
    rewrite ?requestBody_capture_metadata; reflexivity.
Qed.

Lemma generateSpec_operation_failed_request (specMethod specMethod' : OperationObject)
  (method filteredUrl : string) (item : Entry) :
  (400 <= status (response item))%Z ->
  generateSpec_operation specMethod method filteredUrl item = Some specMethod' ->
  requestBody specMethod' = requestBody specMethod.
Proof.
  intros Hstatus. unfold generateSpec_operation.
  destruct (Z.ltb_spec (status (response item)) 400) as [Hlt | _]; [lia |].
  rewrite andb_false_r. intros [= <-].
  destruct (0 <? response_bodySize (response item))%Z;
    rewrite ?requestBody_mergeResponseExample, requestBody_addQueryStringParams,
            addResponse_requestBody; reflexivity.
Qed.

Lemma get_method_set_method (path method path' method' : string)
  (operation found : OperationObject) (spec : OpenApiSpec) :
  get_method path' method' (set_method path method operation spec) = Some found ->
  found = operation \/ get_method path' method' spec = Some found.
Proof.
  unfold set_method, get_method.
  destruct (obj_get path (paths spec)) as [item |] eqn:Hitem; [| now right].
  cbn [paths set_paths].
  destruct (String.eqb_spec path' path) as [-> | Hpath].
  - rewrite obj_get_set_same, Hitem. cbn [path_methods].
    destruct (String.eqb_spec method' method) as [-> | Hmethod].
    + rewrite obj_get_set_same. intros [= <-]. now left.
    + rewrite obj_get_set_other by assumption. now right.
  - rewrite obj_get_set_other by assumption. now right.
Qed.

Lemma get_method_addPath (path path' method' : string) (found : OperationObject)
  (spec : OpenApiSpec) :
  get_method path' method' (addPath path spec) = Some found ->
  get_method path' method' spec = Some found.
Proof.
  unfold addPath, get_method. cbn [paths set_paths].
  destruct (String.eqb_spec path' path) as [-> | Hpath].
  - rewrite obj_get_set_same. cbn. discriminate.
  - now rewrite obj_get_set_other by assumption.
Qed.

Section FailedRequests.

Variable engine : RegExpEngine.
Variable pluralize : string -> option Z -> string.

Lemma generateSpec_entry_failed_request (config : Config) (methodList methodList' : list string)
  (spec spec' : OpenApiSpec) (item : Entry) :
  (400 <= status (response item))%Z ->
  no_request_body spec ->
  generateSpec_entry engine pluralize config (methodList, spec) item = Some (methodList', spec') ->
  no_request_body spec'.
Proof.
  intros Hstatus Hspec. unfold generateSpec_entry.
  destruct (negb (includes (url (request item)) (apiBasePath config)));
    [now intros [= <- <-] |].
  destruct (filterUrl engine config (url (request item))) as [filteredUrl |]; [| discriminate].
  destruct (filteredUrl =? ""); [now intros [= <- <-] |].
  set (spec1 := match obj_get filteredUrl (paths spec) with
                | None => addPath filteredUrl spec
                | Some _ => spec
                end).
  assert (Hspec1 : no_request_body spec1).
  { unfold spec1. destruct (obj_get filteredUrl (paths spec)); [exact Hspec |].
    intros p m o Hget. apply (Hspec p m o). now apply get_method_addPath in Hget. }
  set (method := toLowerCase (request_method (request item))).
  destruct (match get_method filteredUrl method spec1 with
            | None => addMethod pluralize method filteredUrl (url (request item))
                                methodList spec1 config
            | Some _ => (methodList, spec1)
            end) as [methodList2 spec2] eqn:Hadd.
  assert (Hspec2 : no_request_body spec2).
  { destruct (get_method filteredUrl method spec1).
    - injection Hadd as _ <-. exact Hspec1.
    - unfold addMethod in Hadd. injection Hadd as _ <-.
      intros p m o Hget. apply get_method_set_method in Hget.
      destruct Hget as [-> | Hget]; [reflexivity | eauto]. }
  destruct (get_method filteredUrl method spec2) as [specMethod |] eqn:Hmethod;
    [| discriminate].
  destruct (generateSpec_operation specMethod method filteredUrl item) as [specMethod' |] eqn:Hop;
    [| discriminate].
  intros [= _ <-] p m o Hget. apply get_method_set_method in Hget.
  destruct Hget as [-> | Hget]; [| eauto].
  rewrite (generateSpec_operation_failed_request _ _ _ _ _ Hstatus Hop). eauto.
Qed.

Lemma generateSpec_entries_failed_requests (config : Config) (entries : list Entry)
  (methodList methodList' : list string) (spec spec' : OpenApiSpec) :
  (forall item, In item entries -> (400 <= status (response item))%Z) ->
  no_request_body spec ->
  generateSpec_entries engine pluralize config (methodList, spec) entries
  = Some (methodList', spec') ->
  no_request_body spec'.
Proof.
  revert methodList spec.
  induction entries as [| item entries IH]; intros methodList spec Hall Hspec;
    cbn [generateSpec_entries].
  - now intros [= _ <-].
  - destruct (generateSpec_entry engine pluralize config (methodList, spec) item)
      as [[methodList1 spec1] |] eqn:Hstep; [| discriminate].
    apply IH.
    + intros i Hi. apply Hall. now right.
    + apply (generateSpec_entry_failed_request config methodList methodList1 spec spec1 item);
        [apply Hall; now left | exact Hspec | exact Hstep].
Qed.

End FailedRequests.

(** C9.  A transaction whose response status is 400 or more leaves the
    request body of its operation as it was, whatever the request
    carries: a request body is folded only under a status below 400.  And
    when every transaction of a run has such a status, no operation of
    the specification built from the empty one has a request body: the
    request pools stay empty. *)
Theorem failed_request_is_not_folded :
  (forall (specMethod specMethod' : OperationObject) (method filteredUrl : string)
          (item : Entry),
      (400 <= status (response item))%Z ->
      generateSpec_operation specMethod method filteredUrl item = Some specMethod' ->
      requestBody specMethod' = requestBody specMethod)
  /\
  (forall (engine : RegExpEngine) (pluralize : string -> option Z -> string)
          (config : Config)
          (entries : list Entry) (methodList : list string) (spec : OpenApiSpec),
      (forall item, In item entries -> (400 <= status (response item))%Z) ->
      generateSpec_entries engine pluralize config ([], createEmptyApiSpec) entries
      = Some (methodList, spec) ->
      forall path method operation,
        get_method path method spec = Some operation ->
        requestBody operation = None /\ request_pool operation = []).
Proof.
  split.
  - exact generateSpec_operation_failed_request.
  - intros engine pluralize config entries methodList spec Hall Hrun path method operation Hget.
    assert (Hnone : requestBody operation = None).
    { assert (Hempty : no_request_body createEmptyApiSpec).
      { intros p m o. unfold get_method. cbn. discriminate. }
      exact (generateSpec_entries_failed_requests engine pluralize config entries [] methodList
               createEmptyApiSpec spec Hall Hempty Hrun path method operation Hget). }
    split; [exact Hnone |]. unfold request_pool. now rewrite Hnone.
Qed.

Lemma failed_request_is_not_folded_witness :
  exists methodList spec operation,
    generateSpec_entries fragment_engine (fun word _ => word) sample_config
                   ([], createEmptyApiSpec) [refused_entry]
    = Some (methodList, spec)
    /\ get_method "/accounts/{account_id}/" "post" spec = Some operation
    /\ requestBody operation = None
    /\ response_pool "400" operation
       = [("example-0001", JObj [("error", JStr "invalid"); ("code", JNum 7)]);
          ("example-0002", JObj [("error", JStr "invalid"); ("code", JNum 7)])].
Proof.
  destruct (generateSpec_entries fragment_engine (fun word _ => word) sample_config
                                 ([], createEmptyApiSpec) [refused_entry])
    as [[methodList spec] |] eqn:Hrun; [| vm_compute in Hrun; discriminate Hrun].
  destruct (get_method "/accounts/{account_id}/" "post" spec) as [operation |] eqn:Hget.
  - exists methodList, spec, operation.
    split; [reflexivity | split; [exact Hget | split]].
    + apply (proj2 failed_request_is_not_folded fragment_engine (fun word _ => word)
               sample_config
               [refused_entry] methodList spec) with (path := "/accounts/{account_id}/")
                                                     (method := "post").
      * intros item [<- | []]. vm_compute. discriminate.
      * exact Hrun.
      * exact Hget.
    + vm_compute in Hrun. injection Hrun as <- <-.
      vm_compute in Hget. injection Hget as <-. reflexivity.
  - exfalso. vm_compute in Hrun. injection Hrun as <- <-.
    vm_compute in Hget. discriminate Hget.
Defined.

(** ** Spec Reconciler *)

Section ReconcilerFacts.

Variable quicktypeJSON : string -> string -> list string -> option json.
Variable toOpenApiSchema : json -> option json.

(** The methods of a path that the curated file does not name are the
    ones the path had. *)
Lemma reconcile_methods_frame (path exampleFilename : string)
  (curated : obj MethodExamples) (methods methods' : obj OperationObject) (method : string) :
  reconcile_methods quicktypeJSON toOpenApiSchema path curated exampleFilename methods
  = Some methods' ->
  obj_get method curated = None ->
  obj_get method methods' = obj_get method methods.
Proof.
  revert methods.
  induction curated as [| [m examples] curated IH]; intros methods; cbn [reconcile_methods].
  - now intros [= <-].
  - intros Hrun Hmethod. cbn [obj_get] in Hmethod.
    destruct (String.eqb_spec method m) as [-> | Hne]; [discriminate |].
    set (methods1 := match obj_get m methods with
                     | None => obj_set m (skeleton path m) methods
                     | Some _ => methods
                     end) in Hrun.
    assert (H1 : obj_get method methods1 = obj_get method methods).
    { unfold methods1. destruct (obj_get m methods); [reflexivity |].
      now apply obj_get_set_other. }
    destruct (obj_get m methods1) as [methodObject |]; [| discriminate].
    destruct (reconcile_request quicktypeJSON toOpenApiSchema path m examples
                                exampleFilename methodObject) as [methodObject1 |];
      [| discriminate].
    destruct (reconcile_responses quicktypeJSON toOpenApiSchema path m
                                  (response_examples examples) exampleFilename
                                  methodObject1) as [methodObject2 |];
      [| discriminate].
    rewrite (IH _ Hrun Hmethod). rewrite obj_get_set_other by assumption. exact H1.
Qed.

Lemma reconcile_paths_spec (masterExamples : ExampleFile) (exampleFilename : string)
  (oldSpec newSpec result : OpenApiSpec) :
  NoDup (Object_keys masterExamples) ->
  reconcile_paths quicktypeJSON toOpenApiSchema masterExamples exampleFilename
                  oldSpec newSpec = Some result ->
  forall path,
    match obj_get path masterExamples with
    | None => obj_get path (paths result) = obj_get path (paths newSpec)
    | Some curated =>
        exists methods,
          reconcile_methods quicktypeJSON toOpenApiSchema path curated exampleFilename
                            (path_methods (prior_item path oldSpec)) = Some methods
          /\ obj_get path (paths result)
             = Some {| path_parameters := path_parameters (prior_item path oldSpec);
                       path_methods := methods |}
    end.
Proof.
  revert newSpec.
  induction masterExamples as [| [p curated] rest IH]; intros newSpec Hnodup;
    cbn [reconcile_paths].
  - intros [= <-] path. reflexivity.
  - destruct (reconcile_methods quicktypeJSON toOpenApiSchema p curated exampleFilename
                                (path_methods (prior_item p oldSpec)))
      as [methods |] eqn:Hmethods; [| discriminate].
    intros Hrun path. inversion Hnodup as [| ? ? Hfresh Hrest]; subst.
    specialize (IH _ Hrest Hrun path). cbn [obj_get].
    destruct (String.eqb_spec path p) as [-> | Hne].
    + apply obj_get_none_keys in Hfresh. rewrite Hfresh in IH.
      exists methods. split; [exact Hmethods |].
      rewrite IH. cbn [paths set_paths]. apply obj_get_set_same.
    + destruct (obj_get path rest); [exact IH |].
      rewrite IH. cbn [paths set_paths]. now apply obj_get_set_other.
Qed.

End ReconcilerFacts.

(** C1 as stated fails: a path of the prior specification that the
    curated file does not mention is absent from the result, and its
    operations with it. *)
Lemma reconcile_drops_unmentioned_path :
  let result :=
    generateSchema (fun _ _ _ => Some (JObj [])) (fun schema => Some schema)
                   "examples.json" curated_other_path prior_spec in
  get_method "/accounts/" "get" prior_spec = Some sample_operation
  /\ obj_get "/accounts/" curated_other_path = None
  /\ option_map (fun spec => Object_keys (paths spec)) result = Some ["/users/"]
  /\ option_map (get_method "/accounts/" "get") result = Some None
  /\ option_map (get_method "/accounts/" "get") result
     <> Some (Some sample_operation).
Proof. repeat split; discriminate. Qed.

(** C1, amended.  The paths of the result of a reconciliation are the
    paths the curated file mentions; under a path that the curated file
    mentions, every method that the file omits is the operation the prior
    specification had for it, unchanged. *)
Theorem reconcile_keeps_omitted_methods
  (quicktypeJSON : string -> string -> list string -> option json)
  (toOpenApiSchema : json -> option json)
  (exampleFilename : string) (masterExamples : ExampleFile)
  (oldSpec newSpec : OpenApiSpec) :
  NoDup (Object_keys masterExamples) ->
  generateSchema quicktypeJSON toOpenApiSchema exampleFilename masterExamples oldSpec
  = Some newSpec ->
  (forall path, obj_get path masterExamples = None ->
                obj_get path (paths newSpec) = None)
  /\ (forall path curated, obj_get path masterExamples = Some curated ->
                           obj_get path (paths newSpec) <> None)
  /\ (forall path curated method,
         obj_get path masterExamples = Some curated ->
         obj_get method curated = None ->
         get_method path method newSpec = get_method path method oldSpec).
Proof.
  intros Hnodup Hrun. unfold generateSchema in Hrun.
  pose proof (reconcile_paths_spec quicktypeJSON toOpenApiSchema masterExamples
                exampleFilename oldSpec _ newSpec Hnodup Hrun) as Hspec.
  split; [| split].
  - intros path Hpath. specialize (Hspec path). rewrite Hpath in Hspec. exact Hspec.
  - intros path curated Hpath. specialize (Hspec path). rewrite Hpath in Hspec.
    destruct Hspec as (methods & _ & ->). discriminate.
  - intros path curated method Hpath Hmethod.
    specialize (Hspec path). rewrite Hpath in Hspec.
    destruct Hspec as (methods & Hmethods & Hitem).
    unfold get_method at 1. rewrite Hitem. cbn [path_methods].
    rewrite (reconcile_methods_frame quicktypeJSON toOpenApiSchema path exampleFilename
               curated _ methods method Hmethods Hmethod).
    unfold get_method, prior_item.
    destruct (obj_get path (paths oldSpec)); reflexivity.
Qed.

Lemma reconcile_keeps_omitted_methods_witness :
  let quicktypeJSON := fun (_ _ : string) (_ : list string) =>
                         Some (JObj [("type", JStr "object")]) in
  let toOpenApiSchema := fun schema : json => Some schema in
  exists newSpec,
    generateSchema quicktypeJSON toOpenApiSchema "examples.json"
                   curated_same_path prior_spec = Some newSpec
    /\ get_method "/accounts/" "post" newSpec = Some sample_operation
    /\ option_map (response_pool "200") (get_method "/accounts/" "get" newSpec)
       = Some [("example-1", JObj [("id", JNum 42)])].
Proof.
  intros quicktypeJSON toOpenApiSchema.
  destruct (generateSchema quicktypeJSON toOpenApiSchema "examples.json"
                           curated_same_path prior_spec) as [newSpec |] eqn:Hrun;
    [| vm_compute in Hrun; discriminate Hrun].
  exists newSpec. split; [reflexivity | split].
  - change (Some sample_operation) with (get_method "/accounts/" "post" prior_spec).
    apply (proj2 (proj2 (reconcile_keeps_omitted_methods quicktypeJSON toOpenApiSchema
                    "examples.json" curated_same_path prior_spec newSpec
                    ltac:(repeat constructor; simpl; tauto) Hrun))
                 "/accounts/"
                 [("get", {| request_examples := [];
                             response_examples :=
                               [("200", [("gexample-0002", JObj [("id", JNum 42)])])] |})]
                 "post"); reflexivity.
  - vm_compute in Hrun. injection Hrun as <-. reflexivity.
Defined.

(** ** Worked examples *)

Example pad_examples :
  pad 1 4 = "0001" /\ pad 12 4 = "0012" /\ pad 123 2 = "123" /\ pad 3 1 = "3".
Proof. repeat split. Qed.

Example operationId_of_dataset :
  derive_operationId "get" "/datasets/{dataset_id}/" = "get-datasets-dataset_id".
Proof. reflexivity. Qed.

Example first_tag_rule_wins :
  deriveTag "/account/billing/42/" sample_config = "Billing".
Proof. reflexivity. Qed.

Example path_parameters_of_template :
  map param_name
      (map path_parameter (match_all re_placeholder "/datasets/{dataset_id}/decks/{deck_id}/"))
  = ["dataset_id"; "deck_id"].
Proof. reflexivity. Qed.

Example summary_of_template :
  deriveSummary (fun word _ => word) "get" "/datasets/{dataset_id}/" = "Dataset details"
  /\ deriveSummary (fun word _ => word) "post" "/account/login/" = "Log in".
Proof. split; reflexivity. Qed.

(** A transaction whose status and method have a cell in the table
    replaces the response object, and with it the examples stored for
    that status by the transactions before. *)
Example classified_response_restarts_pool :
  let body := JObj [("id", JNum 42); ("name", JStr "a")] in
  let first :=
    mergeResponseExample (addResponse 200 "get" sample_operation) "200" (Some body)
                         "get" "/accounts/" in
  response_pool "200" first = [("example-0001", body); ("example-0002", body)]
  /\ response_pool "200" (addResponse 200 "get" first) = [].
Proof. split; reflexivity. Qed.

(** Under a status or method without a cell the operation has no response
    object for the status, and the body is not recorded. *)
Example unclassified_response_is_not_recorded :
  let body := JObj [("id", JNum 42); ("name", JStr "a")] in
  mergeResponseExample (addResponse 500 "get" sample_operation) "500" (Some body)
                       "get" "/accounts/"
  = sample_operation.
Proof. reflexivity. Qed.

(** * Further properties of the code *)

(** ** Texts *)

Lemma length_append (s1 s2 : string) :
  String.length (s1 ++ s2) = (String.length s1 + String.length s2)%nat.
Proof. induction s1 as [| c s1 IH]; simpl; [reflexivity | now rewrite IH]. Qed.

Lemma length_repeat_string (c : ascii) (k : nat) :
  String.length (repeat_string (String c "") k) = k.
Proof. induction k as [| k IH]; simpl; [reflexivity | now rewrite IH]. Qed.

Lemma has_char_append (c : ascii) (s1 s2 : string) :
  has_char c (s1 ++ s2) = has_char c s1 || has_char c s2.
Proof.
  induction s1 as [| d s1 IH]; simpl; [reflexivity |].
  now rewrite IH, orb_assoc.
Qed.

Lemma has_char_repeat_zero (c : ascii) (k : nat) :
  has_char c (repeat_string "0" k) = true -> c = "0"%char.
Proof.
  induction k as [| k IH]; simpl; [discriminate |].
  destruct (Ascii.eqb_spec c "0"); [auto | exact IH].
Qed.

Lemma has_char_string_of_uint (c : ascii) (d : Decimal.uint) :
  has_char c (NilEmpty.string_of_uint d) = true -> is_digit c = true.
Proof.
  induction d as [| d IH | d IH | d IH | d IH | d IH | d IH | d IH | d IH | d IH | d IH];
    cbn [NilEmpty.string_of_uint has_char]; try discriminate;
    (match goal with
     | |- (Ascii.eqb c ?k || _) = true -> _ =>
         destruct (Ascii.eqb_spec c k) as [-> | _]; [reflexivity | exact IH]
     end).
Qed.

(** A decimal numeral is made of digits. *)
Lemma has_char_nat_toString (c : ascii) (m : nat) :
  has_char c (nat_toString m) = true -> is_digit c = true.
Proof.
  unfold nat_toString, NilZero.string_of_uint.
  destruct (Nat.to_uint m) eqn:E; [| apply has_char_string_of_uint ..].
  cbn. destruct (Ascii.eqb_spec c "0") as [-> | _]; [reflexivity | discriminate].
Qed.

Lemma has_char_pad (c : ascii) (m width : nat) :
  has_char c (pad m width) = true -> is_digit c = true.
Proof.
  unfold pad. destruct (width <=? String.length (nat_toString m))%nat.
  - apply has_char_nat_toString.
  - rewrite has_char_append. intros H. apply orb_true_iff in H. destruct H as [H | H].
    + apply has_char_repeat_zero in H. now subst.
    + now apply has_char_nat_toString in H.
Qed.

(** X1.  [pad] writes the number itself: its result is the decimal
    numeral of [m] behind zeros only, it reads back as [m], it is at least
    [width] characters long, and no digit of [m] is cut off when [m] is
    wider than [width]. *)
Theorem pad_reads_back (m width : nat) :
  decimal_value (pad m width) = Some m
  /\ String.length (pad m width) = Nat.max width (String.length (nat_toString m))
  /\ (forall c, has_char c (pad m width) = true -> is_digit c = true).
Proof.
  split; [exact (decimal_of_pad m width) | split].
  - unfold pad. destruct (Nat.leb_spec width (String.length (nat_toString m))).
    + lia.
    + rewrite length_append, length_repeat_string. lia.
  - intros c. apply has_char_pad.
Qed.

(** ** Example Curation Validator, further *)

Lemma renumber_first (rest : list json) (i padWidth : nat) (published : Examples)
  (first : option json) :
  snd (renumber i rest padWidth published first)
  = match first with
    | Some f => if truthy f then Some f
                else match rest with
                     | [] => Some f
                     | _ => first_truthy rest
                     end
    | None => first_truthy rest
    end.
Proof.
  revert i published first.
  induction rest as [| v rest IH]; intros i published first.
  - cbn. destruct first as [f |]; [destruct (truthy f) |]; reflexivity.
  - cbn [renumber]. rewrite IH. cbn [first_truthy].
    destruct first as [f |]; [destruct (truthy f) eqn:Ef |].
    + now rewrite Ef.
    + destruct rest; [destruct (truthy v) | destruct (truthy v)]; reflexivity.
    + destruct rest; [destruct (truthy v) | destruct (truthy v)]; reflexivity.
Qed.

(** X2.  Every example of a pool that passes validation, flagged or not,
    is handed to the schema inference, serialized, in the order of the
    pool. *)
Theorem validation_serializes_every_example (exampleObject : obj json)
  (exampleObjectName exampleFilename : string) (stats : ExampleStats) :
  validateExampleList exampleObject exampleObjectName exampleFilename = Some stats ->
  allExamples stats = map (fun e => JSON_stringify (snd e)) exampleObject
  /\ List.length (allExamples stats) = List.length exampleObject.
Proof.
  intros Hvalid.
  assert (H : allExamples stats = map (fun e => JSON_stringify (snd e)) exampleObject).
  { unfold validateExampleList in Hvalid. rewrite collect_examples_spec in Hvalid.
    rewrite !app_nil_l, Nat.add_0_l in Hvalid.
    destruct (negb (List.length (Object_keys exampleObject) =? 0)%nat
              && (List.length (flagged exampleObject) =? 0)%nat); [discriminate |].
    destruct (renumber 0 (flagged exampleObject)
                       (List.length (flagged exampleObject) / 10 + 1) [] None).
    now injection Hvalid as <-. }
  split; [exact H | now rewrite H, length_map].
Qed.

Lemma validation_serializes_every_example_witness :
  exists stats,
    validateExampleList [("example-0002", JNum 1); ("gexample-0003", JNum 2)]
                        "/accounts/ get requests" "examples.json" = Some stats
    /\ allExamples stats = ["1"; "2"].
Proof.
  destruct (validateExampleList [("example-0002", JNum 1); ("gexample-0003", JNum 2)]
                                "/accounts/ get requests" "examples.json")
    as [stats |] eqn:E; [| discriminate E].
  exists stats. split; [reflexivity |].
  exact (proj1 (validation_serializes_every_example _ _ _ stats E)).
Defined.

(** X3.  The first example that validation reports is the first published
    value that is truthy, and the last published value when none is (so a
    pool whose published values are all [null] reports [null]). *)
Theorem validation_first_example (exampleObject : obj json)
  (exampleObjectName exampleFilename : string) (stats : ExampleStats) :
  validateExampleList exampleObject exampleObjectName exampleFilename = Some stats ->
  firstExample stats = first_truthy (flagged exampleObject).
Proof.
  intros Hvalid.
  unfold validateExampleList in Hvalid. rewrite collect_examples_spec in Hvalid.
  rewrite !app_nil_l, Nat.add_0_l in Hvalid.
  destruct (negb (List.length (Object_keys exampleObject) =? 0)%nat
            && (List.length (flagged exampleObject) =? 0)%nat); [discriminate |].
  pose proof (renumber_first (flagged exampleObject) 0
                (List.length (flagged exampleObject) / 10 + 1) [] None) as Hfirst.
  destruct (renumber 0 (flagged exampleObject)
                     (List.length (flagged exampleObject) / 10 + 1) [] None).
  injection Hvalid as <-. exact Hfirst.
Qed.

Lemma validation_first_example_witness :
  exists stats,
    validateExampleList [("gexample-1", JNull); ("gexample-2", JObj [("id", JNum 1)]);
                         ("gexample-3", JObj [("id", JNum 2)])]
                        "/accounts/ get requests" "examples.json" = Some stats
    /\ firstExample stats = Some (JObj [("id", JNum 1)]).
Proof.
  destruct (validateExampleList [("gexample-1", JNull); ("gexample-2", JObj [("id", JNum 1)]);
                                 ("gexample-3", JObj [("id", JNum 2)])]
                                "/accounts/ get requests" "examples.json")
    as [stats |] eqn:E; [| discriminate E].
  exists stats. split; [reflexivity |].
  exact (validation_first_example _ _ _ stats E).
Defined.

Lemma includes_needs_first_char (hay needle : string) (c : ascii) :
  has_char c hay = false -> includes hay (String c needle) = false.
Proof.
  induction hay as [| d hay IH]; cbn [has_char includes prefix]; intros H.
  - reflexivity.
  - apply orb_false_iff in H. destruct H as [Hc Hrest].
    destruct (ascii_dec c d) as [-> | _]; [now rewrite Ascii.eqb_refl in Hc |].
    now rewrite (IH Hrest).
Qed.

Lemma engine_name_not_published (i width : nat) :
  includes ("example-" ++ pad i width) "gexample" = false.
Proof.
  apply includes_needs_first_char. cbn [append has_char Ascii.eqb Bool.eqb orb].
  destruct (has_char "g" (pad i width)) eqn:E; [| reflexivity].
  apply has_char_pad in E. discriminate E.
Qed.

(** X4.  A pool that still carries the names the merge engine gives
    ([example-] and a number) and has an example is refused by the
    validator: published examples have to be renamed. *)
Theorem engine_names_are_refused (exampleObject : obj json)
  (exampleObjectName exampleFilename : string) :
  exampleObject <> [] ->
  (forall name v, In (name, v) exampleObject ->
                  exists i width, name = "example-" ++ pad i width) ->
  validateExampleList exampleObject exampleObjectName exampleFilename = None.
Proof.
  intros Hne Hnames.
  unfold validateExampleList. rewrite collect_examples_spec.
  rewrite !app_nil_l, Nat.add_0_l.
  assert (Hflag : List.length (flagged exampleObject) = 0%nat).
  { apply flagged_none. intros name v Hin.
    destruct (Hnames name v Hin) as (i & width & ->). apply engine_name_not_published. }
  rewrite Hflag. unfold Object_keys. rewrite length_map.
  destruct exampleObject; [congruence | reflexivity].
Qed.

Lemma engine_names_are_refused_witness :
  validateExampleList
    (request_pool
       (fold_left mergeRequestExample
          [Text (Some (JObj [("name", JStr "a")])); Text (Some (JObj [("name", JStr "b")]))]
          sample_operation))
    "/accounts/ post requests" "examples.json" = None.
Proof.
  apply engine_names_are_refused.
  - discriminate.
  - intros name v [[= <- _] | [[= <- _] | [[= <- _] | []]]].
    + now exists 1%nat, 4%nat.
    + now exists 2%nat, 4%nat.
    + now exists 3%nat, 4%nat.
Defined.

(** ** Example Merge Engine, further *)

Lemma In_obj_set {A : Type} (k k' : string) (v v' : A) (o : obj A) :
  In (k', v') (obj_set k v o) -> (k', v') = (k, v) \/ In (k', v') o.
Proof.
  induction o as [| [k0 v0] o IH]; cbn [obj_set].
  - intros [H | []]. now left.
  - destruct (k =? k0).
    + intros [H | H]; [now left | right; now right].
    + destruct (key_before k k0).
      * intros [H | H]; [now left | now right].
      * intros [H | H]; [right; now left |].
        destruct (IH H) as [H1 | H1]; [now left | right; now right].
Qed.

Lemma obj_get_delete {A : Type} (k : string) (o : obj A) :
  NoDup (Object_keys o) -> obj_get k (obj_delete k o) = None.
Proof.
  induction o as [| [k0 v0] o IH]; cbn [obj_delete Object_keys map fst]; intros Hnodup.
  - reflexivity.
  - inversion Hnodup as [| ? ? Hfresh Hrest]; subst.
    destruct (String.eqb_spec k k0) as [-> | Hne].
    + now apply obj_get_none_keys.
    + cbn [obj_get]. apply String.eqb_neq in Hne. rewrite Hne. now apply IH.
Qed.

Lemma obj_get_delete_other {A : Type} (k k' : string) (o : obj A) :
  k' <> k -> obj_get k' (obj_delete k o) = obj_get k' o.
Proof.
  intros Hne. induction o as [| [k0 v0] o IH]; cbn [obj_delete]; [reflexivity |].
  destruct (String.eqb_spec k k0) as [-> | Hk].
  - cbn [obj_get]. apply String.eqb_neq in Hne. now rewrite Hne.
  - cbn [obj_get]. now rewrite IH.
Qed.

(** The deep merge of an object source adds no key that neither value
    has. *)
Lemma deepmerge_object_absent (target : json) (sprops : obj json) (merged : json)
  (k : string) :
  property target k = None ->
  obj_get k sprops = None ->
  deepmerge target (JObj sprops) = Some merged ->
  property merged k = None.
Proof.
  intros Htarget Hsource.
  assert (Hloop : forall (tprops l destination : obj json) (r : json),
             obj_get k destination = None ->
             obj_get k l = None ->
             (fix mergeObject (l : obj json) (destination : obj json) : option json :=
                match l with
                | [] => Some (JObj destination)
                | (key, sv) :: l' =>
                    match (match obj_get key tprops with
                           | Some tv => if isMergeableObject sv then deepmerge tv sv
                                        else Some sv
                           | None => Some sv
                           end) with
                    | Some v => mergeObject l' (obj_set key v destination)
                    | None => None
                    end
                end) l destination = Some r ->
             property r k = None).
  { intros tprops l. induction l as [| [key sv] l IH]; intros destination r Hd Hl.
    - intros [= <-]. exact Hd.
    - cbn [obj_get] in Hl. destruct (String.eqb_spec k key) as [-> | Hne]; [discriminate |].
      destruct (match obj_get key tprops with
                | Some tv => if isMergeableObject sv then deepmerge tv sv else Some sv
                | None => Some sv
                end) as [v |]; [| discriminate].
      apply IH; [| exact Hl]. now rewrite obj_get_set_other. }
  destruct target as [| b | n | s | items | tprops]; cbn [deepmerge].
  - apply Hloop; [reflexivity | exact Hsource].
  - apply Hloop; [reflexivity | exact Hsource].
  - apply Hloop; [reflexivity | exact Hsource].
  - apply Hloop; [reflexivity | exact Hsource].
  - intros [= <-]. exact Hsource.
  - apply Hloop; [exact Htarget | exact Hsource].
Qed.

(** From the empty object the deep merge of an object never throws. *)
Lemma deepmerge_from_empty (sprops : obj json) :
  exists merged, deepmerge (JObj []) (JObj sprops) = Some (JObj merged).
Proof.
  cbn [deepmerge]. generalize (@nil (string * json)) at 2.
  induction sprops as [| [key sv] l IH]; intros destination.
  - now exists destination.
  - cbn [obj_get]. apply IH.
Qed.

Lemma merge_from_empty (data : json) :
  data <> JNull -> exists merged, merge (JObj []) data = Some merged.
Proof.
  intros Hdata. unfold merge.
  destruct data as [| b | n | s | items | props]; [congruence | ..];
    try (eexists; reflexivity).
  destruct (deepmerge_from_empty props) as [merged H]. eauto.
Qed.

Lemma first_char_differs (c d : ascii) (s t : string) :
  c <> d -> (String c s =? String d t) = false.
Proof.
  intros H. apply String.eqb_neq. intros [= E]. contradiction.
Qed.

(** A body with more than one top-level key does not serialize like the
    empty object. *)
Lemma big_body_is_not_empty_object (data : json) :
  (1 < Object_keys_length data)%nat ->
  (JSON_stringify data =? JSON_stringify (JObj [])) = false.
Proof.
  destruct data as [| b | n | s | items | props]; cbn [Object_keys_length]; try lia.
  - intros _. now apply first_char_differs.
  - intros _. now apply first_char_differs.
  - destruct props as [| [k v] props]; cbn [List.length]; [lia |]. intros _.
    apply String.eqb_neq. change (JSON_stringify (JObj [])) with "{}".
    cbn [JSON_stringify]. unfold QuoteJSONString.
    destruct props as [| [k2 v2] props]; cbn [join append]; intros H; discriminate H.
Qed.

Lemma content_pool_set_json_examples (e : Examples) (c : Content) (x : option Examples) :
  json_examples c = Some x -> content_pool (set_json_examples e c) = e.
Proof.
  unfold json_examples, set_json_examples, content_pool.
  destruct (obj_get "application/json" c) as [media |]; [| discriminate]. intros _.
  unfold json_examples. now rewrite obj_get_set_same.
Qed.

(** The pool of [statusString] after a body has been stored in it. *)
Lemma mergeResponseExample_cases (specMethod : OperationObject)
  (statusString method filteredUrl : string) (parsed data : json) :
  delete_traceback parsed = Some data ->
  let after := mergeResponseExample specMethod statusString (Some parsed) method
                                    filteredUrl in
  after = specMethod
  \/ (exists response,
         obj_get statusString (responses specMethod) = Some response
         /\ resp_content response = None
         /\ after = set_response statusString
                      {| resp_description := resp_description response;
                         resp_content := Some [("application/json", new_json_media)] |}
                      specMethod)
  \/ (exists response examples examples',
         obj_get statusString (responses specMethod) = Some response
         /\ (1 < Object_keys_length data)%nat
         /\ examples = match resp_content response with
                       | None => [("example-0001", JObj [])]
                       | Some c => content_pool c
                       end
         /\ store_example examples data = Some examples'
         /\ response_pool statusString after = examples'
         /\ after
            = capture_metadata data
                (set_responses (responses after) specMethod)).
Proof.
  intros Hdel after. subst after. unfold mergeResponseExample. rewrite Hdel.
  destruct (Nat.ltb_spec 1 (Object_keys_length data)) as [Hbig | _]; [| now left].
  destruct (obj_get statusString (responses specMethod)) as [response |] eqn:Hresp;
    [| now left].
  destruct (resp_content response) as [c |] eqn:Hc.
  - destruct (json_examples c) as [[examples |] |] eqn:Hex; [| now left | now left].
    destruct (is_duplicate (JSON_stringify data) examples); [now left |].
    destruct (store_example examples data) as [examples' |] eqn:Hstore; [| now left].
    right. right. exists response, examples, examples'.
    split; [reflexivity | split; [exact Hbig | split]].
    + rewrite Hc. unfold content_pool. now rewrite Hex.
    + split; [exact Hstore |].
      rewrite responses_capture_metadata. split.
      * unfold response_pool. rewrite responses_capture_metadata.
        cbn [set_response set_responses responses]. rewrite obj_get_set_same.
        cbn [resp_content]. apply (content_pool_set_json_examples _ _ _ Hex).
      * now destruct specMethod.
  - cbn [json_examples obj_get String.eqb Ascii.eqb Bool.eqb new_json_media mt_examples].
    destruct (is_duplicate (JSON_stringify data) [("example-0001", JObj [])]).
    + right. left. exists response. auto.
    + destruct (store_example [("example-0001", JObj [])] data) as [examples' |] eqn:Hstore.
      * right. right. exists response, [("example-0001", JObj [])], examples'.
        split; [reflexivity | split; [exact Hbig | split; [now rewrite Hc |]]].
        split; [exact Hstore |].
        rewrite responses_capture_metadata. split.
        -- unfold response_pool. rewrite responses_capture_metadata.
           cbn [set_response set_responses responses]. rewrite obj_get_set_same.
           reflexivity.
        -- cbn [set_response set_responses responses]. now destruct specMethod.
      * right. left. exists response. auto.
Qed.

Lemma store_example_In (examples examples' : Examples) (data : json) :
  store_example examples data = Some examples' ->
  forall name v,
    In (name, v) examples' ->
    v = data
    \/ (exists accumulator,
           obj_get "example-0001" examples = Some accumulator
           /\ merge accumulator data = Some v)
    \/ In (name, v) examples.
Proof.
  unfold store_example.
  destruct (obj_get "example-0001" examples) as [accumulator |] eqn:Hacc; [| discriminate].
  destruct (merge accumulator data) as [merged |] eqn:Hmerge; [| discriminate].
  intros [= <-] name v Hin.
  apply In_obj_set in Hin. destruct Hin as [[= _ ->] | Hin]; [now left |].
  apply In_obj_set in Hin. destruct Hin as [[= _ ->] | Hin]; [| now right; right].
  right. left. now exists accumulator.
Qed.

(** X5.  No response example carries a top-level traceback: when no entry
    of a response pool has one, folding a body that is an object leaves
    it so, for the stored body and for the accumulator alike. *)
Theorem response_examples_carry_no_traceback (specMethod : OperationObject)
  (statusString method filteredUrl : string) (props : obj json) :
  NoDup (Object_keys props) ->
  (forall name v, In (name, v) (response_pool statusString specMethod) ->
                  property v "traceback" = None) ->
  forall name v,
    In (name, v)
       (response_pool statusString
          (mergeResponseExample specMethod statusString (Some (JObj props)) method
                                filteredUrl)) ->
    property v "traceback" = None.
Proof.
  intros Hnodup Hbefore name v.
  destruct (mergeResponseExample_cases specMethod statusString method filteredUrl
              (JObj props) (JObj (obj_delete "traceback" props)) eq_refl)
    as [-> | [(response & Hresp & Hc & ->) | (response & examples & examples' & Hresp & _
                                              & Hexamples & Hstore & -> & _)]].
  - apply Hbefore.
  - unfold response_pool. cbn [set_response set_responses responses].
    rewrite obj_get_set_same. cbn. intros [[= _ <-] | []]. reflexivity.
  - assert (Hold : forall name0 v0, In (name0, v0) examples ->
                                    property v0 "traceback" = None).
    { intros name0 v0 Hin. subst examples.
      destruct (resp_content response) as [c |] eqn:Hc.
      - apply (Hbefore name0 v0). unfold response_pool. now rewrite Hresp, Hc.
      - destruct Hin as [[= _ <-] | []]. reflexivity. }
    intros Hin.
    destruct (store_example_In examples examples' _ Hstore name v Hin)
      as [-> | [(accumulator & Hacc & Hmerge) | Hin']].
    + cbn [property]. now apply obj_get_delete.
    + apply (deepmerge_object_absent accumulator (obj_delete "traceback" props) v).
      * apply obj_get_In in Hacc. eauto.
      * now apply obj_get_delete.
      * exact Hmerge.
    + eauto.
Qed.

Lemma response_examples_carry_no_traceback_witness :
  let body := JObj [("error", JStr "boom"); ("traceback", JStr "at line 1");
                    ("code", JNum 7)] in
  response_pool "400"
    (mergeResponseExample (addResponse 400 "get" sample_operation) "400" (Some body)
                          "get" "/accounts/")
  = [("example-0001", JObj [("error", JStr "boom"); ("code", JNum 7)]);
     ("example-0002", JObj [("error", JStr "boom"); ("code", JNum 7)])]
  /\ forall name v,
       In (name, v)
          (response_pool "400"
             (mergeResponseExample (addResponse 400 "get" sample_operation) "400"
                                   (Some body) "get" "/accounts/")) ->
       property v "traceback" = None.
Proof.
  intros body. split; [reflexivity |].
  apply (response_examples_carry_no_traceback (addResponse 400 "get" sample_operation)
           "400" "get" "/accounts/"
           [("error", JStr "boom"); ("traceback", JStr "at line 1"); ("code", JNum 7)]).
  - repeat constructor; simpl; intuition discriminate.
  - intros name v [].
Defined.

Lemma mergeResponseExample_first_body (specMethod : OperationObject)
  (statusString method filteredUrl : string) (response : ResponseObject)
  (parsed data : json) :
  obj_get statusString (responses specMethod) = Some response ->
  resp_content response = None ->
  delete_traceback parsed = Some data ->
  (1 < Object_keys_length data)%nat ->
  let after := mergeResponseExample specMethod statusString (Some parsed) method
                                    filteredUrl in
  exists merged,
    merge (JObj []) data = Some merged
    /\ response_pool statusString after
       = [("example-0001", merged); ("example-0002", data)]
    /\ (forall d, property data "description" = Some d -> truthy d = true ->
                  description after = d)
    /\ (forall e, property data "element" = Some e -> truthy e = true ->
                  element (meta after) = Some e).
Proof.
  intros Hresp Hc Hdel Hbig after.
  assert (Hdata : data <> JNull) by (intros ->; cbn in Hbig; lia).
  destruct (merge_from_empty data Hdata) as [merged Hmerge].
  exists merged. split; [exact Hmerge |].
  assert (Hafter : after
                   = capture_metadata data
                       (set_response statusString
                          {| resp_description := resp_description response;
                             resp_content :=
                               Some [("application/json",
                                      {| mt_examples :=
                                           Some [("example-0001", merged);
                                                 ("example-0002", data)];
                                         mt_schema := mt_schema new_json_media |})] |}
                          (set_response statusString
                             {| resp_description := resp_description response;
                                resp_content :=
                                  Some [("application/json", new_json_media)] |}
                             specMethod))).
  { subst after. unfold mergeResponseExample. rewrite Hdel.
    destruct (Nat.ltb_spec 1 (Object_keys_length data)) as [_ | Hsmall]; [| lia].
    rewrite Hresp, Hc.
    cbn [json_examples obj_get String.eqb Ascii.eqb Bool.eqb new_json_media mt_examples].
    unfold is_duplicate. cbn [existsb snd].
    rewrite (big_body_is_not_empty_object data Hbig). cbn [orb].
    change [("example-0001", JObj [])]
      with (("example-0001", JObj []) :: numbered 2 []).
    rewrite (store_example_numbered (JObj []) merged data [] Hmerge).
    reflexivity. }
  split; [| split].
  - rewrite Hafter. unfold response_pool. rewrite responses_capture_metadata.
    cbn [set_response set_responses responses]. rewrite !obj_get_set_same. reflexivity.
  - intros d Hd Htruthy. rewrite Hafter. unfold capture_metadata. rewrite Hd, Htruthy.
    destruct (property data "element") as [e |]; [destruct (truthy e) |]; reflexivity.
  - intros e He Htruthy. rewrite Hafter. unfold capture_metadata. rewrite He, Htruthy.
    reflexivity.
Qed.

(** X6.  The first body folded into a response slot that has no content
    yet is always stored, when it has more than one top-level key once its
    traceback is removed: the pool becomes the accumulator [example-0001],
    the merge of the body into the empty object, and the body as
    [example-0002]; a truthy [description] of the body becomes the
    description of the operation and a truthy [element] its element
    kind. *)
Theorem first_response_body_is_stored (specMethod : OperationObject)
  (statusString method filteredUrl : string) (response : ResponseObject)
  (parsed data : json) :
  obj_get statusString (responses specMethod) = Some response ->
  resp_content response = None ->
  delete_traceback parsed = Some data ->
  (1 < Object_keys_length data)%nat ->
  let after := mergeResponseExample specMethod statusString (Some parsed) method
                                    filteredUrl in
  exists merged,
    merge (JObj []) data = Some merged
    /\ response_pool statusString after
       = [("example-0001", merged); ("example-0002", data)]
    /\ (forall d, property data "description" = Some d -> truthy d = true ->
                  description after = d)
    /\ (forall e, property data "element" = Some e -> truthy e = true ->
                  element (meta after) = Some e).
Proof.
  exact (mergeResponseExample_first_body specMethod statusString method filteredUrl
           response parsed data).
Qed.

Lemma first_response_body_is_stored_witness :
  let body := JObj [("element", JStr "shoji:entity");
                    ("description", JStr "An account"); ("body", JObj [])] in
  let after := mergeResponseExample (addResponse 200 "get" sample_operation) "200"
                                    (Some body) "get" "/accounts/" in
  response_pool "200" after = [("example-0001", body); ("example-0002", body)]
  /\ description after = JStr "An account"
  /\ element (meta after) = Some (JStr "shoji:entity").
Proof.
  intros body after.
  destruct (first_response_body_is_stored (addResponse 200 "get" sample_operation)
              "200" "get" "/accounts/" (described "Success") body body
              eq_refl eq_refl eq_refl ltac:(cbn; lia))
    as (merged & Hmerge & Hpool & Hdescription & Helement).
  injection Hmerge as <-.
  split; [exact Hpool | split].
  - apply Hdescription; reflexivity.
  - apply Helement; reflexivity.
Defined.

(** ** What the merges leave alone *)

Lemma capture_metadata_frame (data : json) (m : OperationObject) :
  operationId (capture_metadata data m) = operationId m
  /\ summary (capture_metadata data m) = summary m
  /\ parameters (capture_metadata data m) = parameters m
  /\ tags (capture_metadata data m) = tags m
  /\ originalPath (meta (capture_metadata data m)) = originalPath (meta m).
Proof.
  unfold capture_metadata.
  destruct (property data "description") as [d |]; [destruct (truthy d) |];
    (destruct (property data "element") as [e |]; [destruct (truthy e) |]);
    repeat split.
Qed.

Lemma mergeResponseExample_frame (specMethod : OperationObject)
  (statusString : string) (content : option json) (method filteredUrl : string) :
  let after := mergeResponseExample specMethod statusString content method filteredUrl in
  operationId after = operationId specMethod
  /\ summary after = summary specMethod
  /\ parameters after = parameters specMethod
  /\ tags after = tags specMethod
  /\ originalPath (meta after) = originalPath (meta specMethod).
Proof.
  cbv zeta. unfold mergeResponseExample.
  repeat match goal with
         | |- context [match ?x with _ => _ end] => destruct x
         end;
    try (repeat split; reflexivity);
    match goal with
    | |- context [capture_metadata ?d ?m] =>
        destruct (capture_metadata_frame d m) as (-> & -> & -> & -> & ->)
    end; repeat split; reflexivity.
Qed.

Lemma mergeRequestExample_frame (specMethod : OperationObject) (postData : PostData) :
  mergeRequestExample specMethod postData
  = set_requestBody (requestBody (mergeRequestExample specMethod postData)) specMethod.
Proof.
  unfold mergeRequestExample. destruct specMethod as [id sm ds ps rs ts mt rb].
  cbn [requestBody set_requestBody operationId summary description parameters responses
       tags meta].
  destruct postData as [| [data |]]; destruct rb as [body |];
    cbn [requestBody set_requestBody operationId summary description parameters responses
         tags meta];
    repeat match goal with
           | |- context [match ?x with _ => _ end] => destruct x
           end; reflexivity.
Qed.

(** X7.  Folding a request body changes nothing of the operation but its
    request body; folding a response body changes neither the request
    body nor the operation id, the summary, the tags, the parameters or
    the original path. *)
Theorem merges_keep_the_identity (specMethod : OperationObject) :
  (forall postData,
      mergeRequestExample specMethod postData
      = set_requestBody (requestBody (mergeRequestExample specMethod postData)) specMethod)
  /\ (forall statusString content method filteredUrl,
         let after := mergeResponseExample specMethod statusString content method
                                           filteredUrl in
         requestBody after = requestBody specMethod
         /\ operationId after = operationId specMethod
         /\ summary after = summary specMethod
         /\ parameters after = parameters specMethod
         /\ tags after = tags specMethod
         /\ originalPath (meta after) = originalPath (meta specMethod)).
Proof.
  split.
  - apply mergeRequestExample_frame.
  - intros statusString content method filteredUrl after.
    split; [apply requestBody_mergeResponseExample | apply mergeResponseExample_frame].
Qed.

(** ** Query parameters *)

Lemma set_parameters_same (m : OperationObject) : set_parameters (parameters m) m = m.
Proof. now destruct m. Qed.

Lemma addQueryStringParams_fold (known : list string) (harParams : list QueryParam)
  (m : OperationObject) :
  fold_left
    (fun m0 param =>
       if existsb (String.eqb (query_name param)) known then m0
       else set_parameters (parameters m0 ++ [query_parameter param])%list m0)
    harParams m
  = set_parameters
      (parameters m
       ++ map query_parameter
            (filter (fun param => negb (existsb (String.eqb (query_name param)) known))
                    harParams))%list
      m.
Proof.
  revert m. induction harParams as [| param harParams IH]; intros m; cbn [fold_left filter].
  - cbn [map]. rewrite app_nil_r. symmetry. apply set_parameters_same.
  - rewrite IH. destruct (existsb (String.eqb (query_name param)) known); cbn [negb].
    + reflexivity.
    + cbn [map parameters set_parameters]. rewrite <- app_assoc. reflexivity.
Qed.

Lemma addQueryStringParams_spec (specMethod : OperationObject)
  (harParams : list QueryParam) :
  addQueryStringParams specMethod harParams
  = set_parameters
      (parameters specMethod
       ++ map query_parameter
            (filter (fun param =>
                       negb (existsb (String.eqb (query_name param))
                                     (query_names specMethod)))
                    harParams))%list
      specMethod.
Proof. unfold addQueryStringParams. apply addQueryStringParams_fold. Qed.

(** X8.  Recording the query string of a request keeps the parameters the
    operation declares, in their order, and adds after them one parameter
    for each entry of the query string whose name the operation did not
    declare as a query parameter before the call; nothing else of the
    operation changes.  (An undeclared name that occurs twice in one
    query string is added twice.) *)
Theorem addQueryStringParams_appends_unknown (specMethod : OperationObject)
  (harParams : list QueryParam) :
  addQueryStringParams specMethod harParams
  = set_parameters
      (parameters specMethod
       ++ map query_parameter
            (filter (fun param =>
                       negb (existsb (String.eqb (query_name param))
                                     (query_names specMethod)))
                    harParams))%list
      specMethod.
Proof. exact (addQueryStringParams_spec specMethod harParams). Qed.

Lemma query_names_app (m : OperationObject) (added : list QueryParam) :
  query_names (set_parameters (parameters m ++ map query_parameter added)%list m)
  = (query_names m ++ map query_name added)%list.
Proof.
  unfold query_names. cbn [parameters set_parameters].
  rewrite filter_app, map_app. f_equal.
  induction added as [| a added IH]; [reflexivity |].
  cbn [map filter query_parameter param_in String.eqb Ascii.eqb Bool.eqb param_name].
  now rewrite IH.
Qed.

Lemma filter_none {A : Type} (f : A -> bool) (l : list A) :
  (forall x, In x l -> f x = false) -> filter f l = [].
Proof.
  induction l as [| x l IH]; intros H; cbn [filter]; [reflexivity |].
  rewrite (H x (or_introl eq_refl)). apply IH. intros y Hy. apply H. now right.
Qed.

(** X9.  Recording the same query string a second time adds nothing:
    once a request has been seen, later requests with the same parameter
    names leave the declared parameters as they are. *)
Theorem addQueryStringParams_is_idempotent (specMethod : OperationObject)
  (harParams : list QueryParam) :
  addQueryStringParams (addQueryStringParams specMethod harParams) harParams
  = addQueryStringParams specMethod harParams.
Proof.
  rewrite (addQueryStringParams_spec specMethod harParams).
  set (unknown := filter (fun param =>
                            negb (existsb (String.eqb (query_name param))
                                          (query_names specMethod))) harParams).
  rewrite addQueryStringParams_spec, query_names_app.
  rewrite filter_none.
  - cbn [map]. rewrite app_nil_r. apply set_parameters_same.
  - intros param Hin. apply negb_false_iff. rewrite existsb_app. apply orb_true_iff.
    destruct (existsb (String.eqb (query_name param)) (query_names specMethod)) eqn:E;
      [now left | right].
    apply existsb_exists. exists (query_name param). split; [| apply String.eqb_refl].
    apply in_map. unfold unknown. apply filter_In. split; [exact Hin |]. now rewrite E.
Qed.

(** ** The loop of [generateSpec] *)

Lemma set_responses_same (m : OperationObject) : set_responses (responses m) m = m.
Proof. now destruct m. Qed.

Lemma addResponse_frame (status : Z) (method : string) (specPath : OperationObject) :
  addResponse status method specPath
  = set_responses (responses (addResponse status method specPath)) specPath.
Proof.
  unfold addResponse.
  repeat match goal with
         | |- context [if ?b then _ else _] => destruct b
         end;
    cbn [responses set_responses]; try reflexivity;
    symmetry; apply set_responses_same.
Qed.

Lemma responses_addQueryStringParams (m : OperationObject) (harParams : list QueryParam) :
  responses (addQueryStringParams m harParams) = responses m.
Proof. now rewrite addQueryStringParams_spec. Qed.

Lemma responses_mergeRequestExample (m : OperationObject) (postData : PostData) :
  responses (mergeRequestExample m postData) = responses m.
Proof. now rewrite mergeRequestExample_frame. Qed.

(** What one transaction leaves of the identity of its operation, and the
    original path it writes. *)
Lemma generateSpec_operation_frame (specMethod specMethod' : OperationObject)
  (method filteredUrl : string) (item : Entry) :
  generateSpec_operation specMethod method filteredUrl item = Some specMethod' ->
  operationId specMethod' = operationId specMethod
  /\ summary specMethod' = summary specMethod
  /\ tags specMethod' = tags specMethod
  /\ originalPath (meta specMethod') = url (request item).
Proof.
  unfold generateSpec_operation.
  set (m1 := set_meta _ specMethod).
  set (m2 := addResponse _ method m1).
  set (m3 := addQueryStringParams m2 _).
  assert (H3 : operationId m3 = operationId specMethod
               /\ summary m3 = summary specMethod
               /\ tags m3 = tags specMethod
               /\ originalPath (meta m3) = url (request item)).
  { unfold m3. rewrite addQueryStringParams_spec. cbn [operationId summary tags meta
                                                       set_parameters].
    unfold m2. rewrite addResponse_frame. cbn. auto. }
  destruct H3 as (Hid & Hsum & Htags & Hpath).
  destruct ((0 <? request_bodySize (request item))%Z
            && (status (response item) <? 400)%Z).
  - destruct (postData (request item)) as [body |]; [| discriminate].
    intros [= <-].
    destruct (0 <? response_bodySize (response item))%Z.
    + destruct (mergeResponseExample_frame (mergeRequestExample m3 body)
                  (Number_toString (status (response item)))
                  (response_content (response item)) method filteredUrl)
        as (-> & -> & _ & -> & ->).
      rewrite mergeRequestExample_frame. cbn. auto.
    + rewrite mergeRequestExample_frame. cbn. auto.
  - intros [= <-].
    destruct (0 <? response_bodySize (response item))%Z; [| auto].
    destruct (mergeResponseExample_frame m3
                (Number_toString (status (response item)))
                (response_content (response item)) method filteredUrl)
      as (-> & -> & _ & -> & ->).
    auto.
Qed.

Lemma get_method_set_method_inv (path method path' method' : string)
  (operation found : OperationObject) (spec : OpenApiSpec) :
  get_method path' method' (set_method path method operation spec) = Some found ->
  (path' = path /\ method' = method /\ found = operation)
  \/ get_method path' method' spec = Some found.
Proof.
  unfold set_method, get_method.
  destruct (obj_get path (paths spec)) as [item |] eqn:Hitem; [| now right].
  cbn [paths set_paths].
  destruct (String.eqb_spec path' path) as [-> | Hpath].
  - rewrite obj_get_set_same, Hitem. cbn [path_methods].
    destruct (String.eqb_spec method' method) as [-> | Hmethod].
    + rewrite obj_get_set_same. intros [= <-]. now left.
    + rewrite obj_get_set_other by assumption. now right.
  - rewrite obj_get_set_other by assumption. now right.
Qed.

Lemma get_method_set_method_same (path method : string)
  (operation old : OperationObject) (spec : OpenApiSpec) :
  get_method path method spec = Some old ->
  get_method path method (set_method path method operation spec) = Some operation.
Proof.
  unfold set_method, get_method.
  destruct (obj_get path (paths spec)) as [item |] eqn:Hitem; [| discriminate].
  intros _. cbn [paths set_paths]. rewrite obj_get_set_same. cbn [path_methods].
  apply obj_get_set_same.
Qed.

Section RunInvariant.

Variable engine : RegExpEngine.
Variable pluralize : string -> option Z -> string.
Variable config : Config.

(** A property of the operations, by path and method, that holds of an
    operation as [addMethod] makes it and that a transaction keeps. *)
Variable P : string -> string -> OperationObject -> Prop.

Hypothesis P_new : forall method filteredUrl originalUrl,
  P filteredUrl method
    {| operationId := derive_operationId method filteredUrl;
       summary := deriveSummary pluralize method filteredUrl;
       description := JStr "";
       parameters := [];
       responses := [];
       tags := [deriveTag filteredUrl config];
       meta := {| originalPath := originalUrl; element := Some (JStr "") |};
       requestBody := None |}.

Hypothesis P_kept : forall path method operation operation' item,
  P path method operation ->
  generateSpec_operation operation method path item = Some operation' ->
  P path method operation'.

Lemma generateSpec_entry_invariant (methodList methodList' : list string)
  (spec spec' : OpenApiSpec) (item : Entry) :
  (forall path method operation,
      get_method path method spec = Some operation -> P path method operation) ->
  generateSpec_entry engine pluralize config (methodList, spec) item = Some (methodList', spec') ->
  forall path method operation,
    get_method path method spec' = Some operation -> P path method operation.
Proof.
  intros Hspec. unfold generateSpec_entry.
  destruct (negb (includes (url (request item)) (apiBasePath config)));
    [now intros [= <- <-] |].
  destruct (filterUrl engine config (url (request item))) as [filteredUrl |]; [| discriminate].
  destruct (filteredUrl =? ""); [now intros [= <- <-] |].
  set (spec1 := match obj_get filteredUrl (paths spec) with
                | None => addPath filteredUrl spec
                | Some _ => spec
                end).
  assert (Hspec1 : forall path method operation,
             get_method path method spec1 = Some operation -> P path method operation).
  { unfold spec1. destruct (obj_get filteredUrl (paths spec)); [exact Hspec |].
    intros p m o Hget. apply (Hspec p m o). now apply get_method_addPath in Hget. }
  set (method := toLowerCase (request_method (request item))).
  destruct (match get_method filteredUrl method spec1 with
            | None => addMethod pluralize method filteredUrl (url (request item))
                                methodList spec1 config
            | Some _ => (methodList, spec1)
            end) as [methodList2 spec2] eqn:Hadd.
  assert (Hspec2 : forall path method operation,
             get_method path method spec2 = Some operation -> P path method operation).
  { destruct (get_method filteredUrl method spec1).
    - injection Hadd as _ <-. exact Hspec1.
    - unfold addMethod in Hadd. injection Hadd as _ <-.
      intros p m o Hget. apply get_method_set_method_inv in Hget.
      destruct Hget as [(-> & -> & ->) | Hget]; [apply P_new | eauto]. }
  destruct (get_method filteredUrl method spec2) as [specMethod |] eqn:Hmethod;
    [| discriminate].
  destruct (generateSpec_operation specMethod method filteredUrl item)
    as [specMethod' |] eqn:Hop; [| discriminate].
  intros [= _ <-] p m o Hget. apply get_method_set_method_inv in Hget.
  destruct Hget as [(-> & -> & ->) | Hget]; [| eauto].
  apply (P_kept filteredUrl method specMethod specMethod' item); eauto.
Qed.

Lemma generateSpec_entries_invariant (entries : list Entry)
  (methodList methodList' : list string) (spec spec' : OpenApiSpec) :
  (forall path method operation,
      get_method path method spec = Some operation -> P path method operation) ->
  generateSpec_entries engine pluralize config (methodList, spec) entries
  = Some (methodList', spec') ->
  forall path method operation,
    get_method path method spec' = Some operation -> P path method operation.
Proof.
  revert methodList spec.
  induction entries as [| item entries IH]; intros methodList spec Hspec;
    cbn [generateSpec_entries].
  - now intros [= _ <-].
  - destruct (generateSpec_entry engine pluralize config (methodList, spec) item)
      as [[methodList1 spec1] |] eqn:Hstep; [| discriminate].
    apply IH. exact (generateSpec_entry_invariant _ _ _ _ _ Hspec Hstep).
Qed.

End RunInvariant.

(** X10.  The identity of an operation is derived once and never changes
    during a run: in the document a run builds from the empty one, the
    operation under a path and a method has the operation id, the summary
    and the tag that its method and its path give, however many
    transactions it has taken in and in whatever order. *)
Theorem operation_identity_is_stable (engine : RegExpEngine)
  (pluralize : string -> option Z -> string)
  (config : Config) (entries : list Entry) (methodList : list string)
  (spec : OpenApiSpec) :
  generateSpec_entries engine pluralize config ([], createEmptyApiSpec) entries
  = Some (methodList, spec) ->
  forall path method operation,
    get_method path method spec = Some operation ->
    operationId operation = derive_operationId method path
    /\ summary operation = deriveSummary pluralize method path
    /\ tags operation = [deriveTag path config].
Proof.
  intros Hrun.
  apply (generateSpec_entries_invariant engine pluralize config
           (fun path method operation =>
              operationId operation = derive_operationId method path
              /\ summary operation = deriveSummary pluralize method path
              /\ tags operation = [deriveTag path config])
           ltac:(intros; cbn; auto)
           ltac:(intros path method operation operation' item (H1 & H2 & H3) Hop;
                 destruct (generateSpec_operation_frame _ _ _ _ _ Hop)
                   as (-> & -> & -> & _); auto)
           entries [] methodList createEmptyApiSpec spec);
    [| exact Hrun].
  intros p m o. unfold get_method. cbn. discriminate.
Qed.

Lemma operation_identity_is_stable_witness :
  exists methodList spec operation,
    generateSpec_entries fragment_engine (fun word _ => word) sample_config
                         ([], createEmptyApiSpec) [refused_entry; refused_entry]
    = Some (methodList, spec)
    /\ get_method "/accounts/{account_id}/" "post" spec = Some operation
    /\ operationId operation = "post-accounts-account_id"
    /\ tags operation = ["Account"].
Proof.
  destruct (generateSpec_entries fragment_engine (fun word _ => word) sample_config
              ([], createEmptyApiSpec) [refused_entry; refused_entry])
    as [[methodList spec] |] eqn:Hrun; [| vm_compute in Hrun; discriminate Hrun].
  destruct (get_method "/accounts/{account_id}/" "post" spec) as [operation |] eqn:Hget.
  - exists methodList, spec, operation. split; [reflexivity | split; [exact Hget |]].
    destruct (operation_identity_is_stable _ _ _ _ _ _ Hrun _ _ _ Hget) as (-> & _ & ->).
    split; reflexivity.
  - exfalso. vm_compute in Hrun. injection Hrun as <- <-.
    vm_compute in Hget. discriminate Hget.
Defined.

Lemma responses_addResponse_meta (status : Z) (method : string) (x : Meta)
  (m : OperationObject) :
  responses (addResponse status method (set_meta x m))
  = responses (addResponse status method m).
Proof.
  unfold addResponse.
  repeat match goal with
         | |- context [if ?b then _ else _] => destruct b
         end; reflexivity.
Qed.

Lemma response_pool_bare (statusString text : string) (m : OperationObject) :
  obj_get statusString (responses m) = Some (described text) ->
  response_pool statusString m = [].
Proof. intros H. unfold response_pool. now rewrite H. Qed.

(** X11.  A transaction whose status and method have a cell of the
    response table under the key of its status starts the examples of
    that status afresh: whatever the slot held before, after the
    transaction it holds nothing, or the accumulator and the one body of
    this transaction. *)
Theorem classified_response_holds_one_body (specMethod specMethod' : OperationObject)
  (method filteredUrl text : string) (item : Entry) :
  generateSpec_operation specMethod method filteredUrl item = Some specMethod' ->
  obj_get (Number_toString (status (response item)))
          (responses (addResponse (status (response item)) method specMethod))
  = Some (described text) ->
  let pool := response_pool (Number_toString (status (response item))) specMethod' in
  pool = []
  \/ exists parsed data merged,
       response_content (response item) = Some parsed
       /\ delete_traceback parsed = Some data
       /\ merge (JObj []) data = Some merged
       /\ pool = [("example-0001", merged); ("example-0002", data)].
Proof.
  intros Hop Hcell pool. subst pool. unfold generateSpec_operation in Hop.
  set (key := Number_toString (status (response item))) in *.
  set (m1 := set_meta _ specMethod) in Hop.
  set (m3 := addQueryStringParams (addResponse _ method m1) _) in Hop.
  assert (H3 : obj_get key (responses m3) = Some (described text)).
  { unfold m3, m1. now rewrite responses_addQueryStringParams, responses_addResponse_meta. }
  assert (Hfinal : forall m4, responses m4 = responses m3 ->
             (if (0 <? response_bodySize (response item))%Z
              then mergeResponseExample m4 key (response_content (response item)) method
                                        filteredUrl
              else m4) = specMethod' ->
             response_pool key specMethod' = []
             \/ exists parsed data merged,
                  response_content (response item) = Some parsed
                  /\ delete_traceback parsed = Some data
                  /\ merge (JObj []) data = Some merged
                  /\ response_pool key specMethod'
                     = [("example-0001", merged); ("example-0002", data)]).
  { intros m4 H4 <-. rewrite <- H4 in H3.
    destruct (0 <? response_bodySize (response item))%Z;
      [| left; exact (response_pool_bare _ _ _ H3)].
    destruct (response_content (response item)) as [parsed |];
      [| left; exact (response_pool_bare _ _ _ H3)].
    destruct (delete_traceback parsed) as [data |] eqn:Hdel.
    - destruct (Nat.ltb_spec 1 (Object_keys_length data)) as [Hbig | Hsmall].
      + right. exists parsed, data.
        destruct (mergeResponseExample_first_body m4 key method filteredUrl
                    (described text) parsed data H3 eq_refl Hdel Hbig)
          as (merged & Hmerge & Hpool & _).
        exists merged. auto.
      + left. rewrite (mergeResponseExample_small_body m4 key method filteredUrl
                         parsed data Hdel) by lia.
        exact (response_pool_bare _ _ _ H3).
    - left. unfold mergeResponseExample. rewrite Hdel.
      exact (response_pool_bare _ _ _ H3). }
  destruct ((0 <? request_bodySize (request item))%Z
            && (status (response item) <? 400)%Z).
  - destruct (postData (request item)) as [body |]; [| discriminate Hop].
    injection Hop as Hop. apply (Hfinal (mergeRequestExample m3 body));
      [apply responses_mergeRequestExample | exact Hop].
  - injection Hop as Hop. now apply (Hfinal m3).
Qed.

Lemma classified_response_holds_one_body_witness :
  let earlier := JObj [("id", JNum 42); ("name", JStr "a")] in
  let later := JObj [("id", JNum 43); ("name", JStr "b"); ("extra", JBool true)] in
  let before :=
    mergeResponseExample (addResponse 200 "get" sample_operation) "200" (Some earlier)
                         "get" "/accounts/{account_id}/" in
  let item :=
    {| request := {| request_method := "GET"; url := "https://api.x/accounts/43/";
                     queryString := []; request_bodySize := 0; postData := None |};
       response := {| status := 200; response_bodySize := 50;
                      response_content := Some later |} |} in
  response_pool "200" before = [("example-0001", earlier); ("example-0002", earlier)]
  /\ exists after,
       generateSpec_operation before "get" "/accounts/{account_id}/" item = Some after
       /\ response_pool "200" after = [("example-0001", later); ("example-0002", later)].
Proof.
  intros earlier later before item. split; [reflexivity |].
  destruct (generateSpec_operation before "get" "/accounts/{account_id}/" item)
    as [after |] eqn:Hop; [| discriminate Hop].
  exists after. split; [reflexivity |].
  destruct (classified_response_holds_one_body before after "get"
              "/accounts/{account_id}/" "Success" item Hop eq_refl)
    as [Hempty | (parsed & data & merged & Hparsed & Hdel & Hmerge & Hpool)].
  - exfalso. vm_compute in Hop. injection Hop as <-. discriminate Hempty.
  - injection Hparsed as <-. injection Hdel as <-. injection Hmerge as <-. exact Hpool.
Defined.

(** X12.  After a transaction that the loop takes in, the operation of
    its normalized path and its method in lower case exists and its
    original path is the URL of that transaction: the original path is
    the URL seen last. *)
Theorem original_path_is_the_last_url (engine : RegExpEngine)
  (pluralize : string -> option Z -> string)
  (config : Config) (methodList methodList' : list string) (spec spec' : OpenApiSpec)
  (item : Entry) (filteredUrl : string) :
  generateSpec_entry engine pluralize config (methodList, spec) item = Some (methodList', spec') ->
  includes (url (request item)) (apiBasePath config) = true ->
  filterUrl engine config (url (request item)) = Some filteredUrl ->
  filteredUrl <> "" ->
  exists operation,
    get_method filteredUrl (toLowerCase (request_method (request item))) spec'
    = Some operation
    /\ originalPath (meta operation) = url (request item).
Proof.
  intros Hstep Hbase Hfilter Hblank. unfold generateSpec_entry in Hstep.
  rewrite Hbase, Hfilter in Hstep. cbn [negb] in Hstep.
  apply String.eqb_neq in Hblank. rewrite Hblank in Hstep.
  set (spec1 := match obj_get filteredUrl (paths spec) with
                | None => addPath filteredUrl spec
                | Some _ => spec
                end) in Hstep.
  set (method := toLowerCase (request_method (request item))) in *.
  destruct (match get_method filteredUrl method spec1 with
            | None => addMethod pluralize method filteredUrl (url (request item))
                                methodList spec1 config
            | Some _ => (methodList, spec1)
            end) as [methodList2 spec2].
  destruct (get_method filteredUrl method spec2) as [specMethod |] eqn:Hmethod;
    [| discriminate Hstep].
  destruct (generateSpec_operation specMethod method filteredUrl item)
    as [specMethod' |] eqn:Hop; [| discriminate Hstep].
  injection Hstep as _ <-. exists specMethod'. split.
  - exact (get_method_set_method_same _ _ _ _ _ Hmethod).
  - now destruct (generateSpec_operation_frame _ _ _ _ _ Hop) as (_ & _ & _ & ->).
Qed.

Lemma original_path_is_the_last_url_witness :
  exists methodList spec operation,
    generateSpec_entry fragment_engine (fun word _ => word) sample_config
                       ([], createEmptyApiSpec) refused_entry = Some (methodList, spec)
    /\ get_method "/accounts/{account_id}/" "post" spec = Some operation
    /\ originalPath (meta operation) = "https://api.x/accounts/42/".
Proof.
  destruct (generateSpec_entry fragment_engine (fun word _ => word) sample_config
              ([], createEmptyApiSpec) refused_entry)
    as [[methodList spec] |] eqn:Hstep; [| vm_compute in Hstep; discriminate Hstep].
  destruct (original_path_is_the_last_url _ _ _ _ _ _ _ _ "/accounts/{account_id}/" Hstep
              eq_refl eq_refl ltac:(discriminate)) as (operation & Hget & Hpath).
  exists methodList, spec, operation. split; [reflexivity | split; [exact Hget | exact Hpath]].
Defined.

(** X13.  A transaction whose URL does not contain the base path, or
    whose URL is normalized to the empty text, has no effect on the run:
    the run over the transactions is the run over those that are taken
    in. *)
Theorem skipped_transactions_have_no_effect (engine : RegExpEngine)
  (pluralize : string -> option Z -> string)
  (config : Config) (state : list string * OpenApiSpec) (entries : list Entry) :
  generateSpec_entries engine pluralize config state entries
  = generateSpec_entries engine pluralize config state (filter (is_ingested engine config) entries).
Proof.
  revert state. induction entries as [| item entries IH]; intros state; [reflexivity |].
  cbn [filter generateSpec_entries].
  destruct (is_ingested engine config item) eqn:Hin.
  - cbn [generateSpec_entries].
    destruct (generateSpec_entry engine pluralize config state item); [apply IH | reflexivity].
  - assert (Hskip : generateSpec_entry engine pluralize config state item = Some state).
    { unfold generateSpec_entry, is_ingested in *. destruct state as [methodList spec].
      destruct (includes (url (request item)) (apiBasePath config)); [| reflexivity].
      cbn [negb andb] in *.
      destruct (filterUrl engine config (url (request item))) as [[| c s] |];
        [reflexivity | discriminate Hin | discriminate Hin]. }
    rewrite Hskip. apply IH.
Qed.

(** ** Operation Identity Assigner, further *)

Lemma deriveTag_rules_step (path : string) (rule : list string)
  (rules : list (list string)) :
  deriveTag_rules path (rule :: rules)
  = if tag_rule_matches path rule then tag_of_rule rule else deriveTag_rules path rules.
Proof. destruct rule as [| keyword [| name rest]]; reflexivity. Qed.

(** X14.  The tag of a path is given by the first rule, in the order of
    the configuration, whose keyword occurs in the path, whatever the
    rules after it: the name of the rule when it has one, else its keyword
    with a capital.  When no keyword occurs in the path the tag is
    [Miscellaneous]. *)
Theorem deriveTag_first_match_wins (path : string) (config : Config) :
  (forall before rule after,
      config_tags config = (before ++ rule :: after)%list ->
      (forall r, In r before -> tag_rule_matches path r = false) ->
      tag_rule_matches path rule = true ->
      deriveTag path config = tag_of_rule rule)
  /\ ((forall r, In r (config_tags config) -> tag_rule_matches path r = false) ->
      deriveTag path config = "Miscellaneous").
Proof.
  unfold deriveTag. split.
  - intros before rule after ->. induction before as [| r before IH]; intros Hbefore Hrule.
    + rewrite app_nil_l. now rewrite deriveTag_rules_step, Hrule.
    + rewrite <- app_comm_cons.
      rewrite deriveTag_rules_step, (Hbefore r (or_introl eq_refl)).
      apply IH; [| exact Hrule]. intros r' Hr'. apply Hbefore. now right.
  - induction (config_tags config) as [| r rules IH]; intros Hnone; [reflexivity |].
    rewrite deriveTag_rules_step, (Hnone r (or_introl eq_refl)).
    apply IH. intros r' Hr'. apply Hnone. now right.
Qed.

Lemma deriveTag_first_match_wins_witness :
  deriveTag "/account/billing/42/" sample_config = "Billing"
  /\ deriveTag "/datasets/" sample_config = "Miscellaneous".
Proof.
  split.
  - apply (proj1 (deriveTag_first_match_wins "/account/billing/42/" sample_config)
             [] ["billing"; "Billing"] [["account"]]).
    + reflexivity.
    + intros r [].
    + reflexivity.
  - apply (proj2 (deriveTag_first_match_wins "/datasets/" sample_config)).
    intros r [<- | [<- | []]]; reflexivity.
Defined.

Lemma append_not_empty_r (s t : string) : t <> "" -> s ++ t <> "".
Proof. destruct s; cbn; [auto | discriminate]. Qed.

(** X15.  The summary of an operation is never the empty text, whatever
    the method, the path and the pluralizer. *)
Theorem deriveSummary_is_never_empty (pluralize : string -> option Z -> string)
  (method path : string) :
  deriveSummary pluralize method path <> "".
Proof.
  unfold deriveSummary.
  repeat match goal with
         | |- context [if ?b then _ else _] => destruct b
         end;
    try discriminate;
    apply append_not_empty_r; discriminate.
Qed.

Lemma split_from_append (sep : ascii) (s t current : string) :
  split_from sep (s ++ String sep t) current
  = (split_from sep s current ++ split_from sep t "")%list.
Proof.
  revert current. induction s as [| c s IH]; intros current; cbn [append split_from].
  - now rewrite Ascii.eqb_refl.
  - destruct (Ascii.eqb c sep); cbn [app]; now rewrite IH.
Qed.

Lemma split_from_not_empty (sep : ascii) (s current : string) :
  split_from sep s current <> [].
Proof.
  revert current. induction s as [| c s IH]; intros current; cbn [split_from].
  - discriminate.
  - destruct (Ascii.eqb c sep); [discriminate | apply IH].
Qed.

Lemma last_segment (before : list string) (word : string) :
  let parts := (before ++ [word; ""])%list in
  (if (1 <? List.length parts)%nat then nth (List.length parts - 2) parts "" else "")
  = word.
Proof.
  cbv zeta. rewrite length_app. cbn [List.length].
  destruct (Nat.ltb_spec 1 (List.length before + 2)); [| lia].
  replace (List.length before + 2 - 2)%nat with (List.length before) by lia.
  rewrite app_nth2 by lia. now rewrite Nat.sub_diag.
Qed.

(** X16.  A path whose last segment before the final slash is [login] is
    summarized [Log in], and [logout] gives [Log out], whatever the method
    and whatever comes before. *)
Theorem login_and_logout_summaries (pluralize : string -> option Z -> string)
  (method prefix : string) :
  deriveSummary pluralize method (prefix ++ "/login/") = "Log in"
  /\ deriveSummary pluralize method (prefix ++ "/logout/") = "Log out".
Proof.
  split; unfold deriveSummary, split; rewrite split_from_append;
    cbn [split_from append Ascii.eqb Bool.eqb];
    cbv zeta; rewrite last_segment; reflexivity.
Qed.

(** What a replacement can leave of a character: a character of the
    result comes from the text or from a replacement text, and a
    character that the pattern matches wherever it stands does not come
    from the text. *)
Lemma replace_from_removes (r : regex) (whole replacement substituted : string)
  (c : ascii) :
  (forall pos e, substitute whole pos e replacement = substituted) ->
  has_char c substituted = false ->
  (forall pos s, match_at r pos (String c s) = Some (S pos)) ->
  forall s pos skip, has_char c (replace_from r whole replacement pos skip s) = false.
Proof.
  intros Hsub Hfree Hmatch. induction s as [| d s IH]; intros pos skip.
  - destruct skip; cbn [replace_from]; [| reflexivity].
    destruct (match_at r pos ""); [| reflexivity].
    now rewrite Hsub, has_char_append, Hfree.
  - destruct skip as [| skip]; cbn [replace_from]; [| apply IH].
    destruct (Ascii.eqb_spec c d) as [<- | Hne].
    + rewrite Hmatch, Hsub, has_char_append, Hfree.
      destruct (Nat.eqb_spec (S pos) pos); [lia | apply IH].
    + apply Ascii.eqb_neq in Hne.
      destruct (match_at r pos (String d s)) as [e |].
      * rewrite Hsub, has_char_append, Hfree. cbn [orb].
        destruct (e =? pos)%nat; [| apply IH].
        cbn [has_char]. now rewrite Hne, IH.
      * cbn [has_char]. now rewrite Hne, IH.
Qed.

Lemma replace_from_adds (r : regex) (whole replacement substituted : string) (c : ascii) :
  (forall pos e, substitute whole pos e replacement = substituted) ->
  has_char c substituted = false ->
  forall s pos skip,
    has_char c s = false ->
    has_char c (replace_from r whole replacement pos skip s) = false.
Proof.
  intros Hsub Hfree. induction s as [| d s IH]; intros pos skip Hs.
  - destruct skip; cbn [replace_from]; [| reflexivity].
    destruct (match_at r pos ""); [| reflexivity].
    now rewrite Hsub, has_char_append, Hfree.
  - cbn [has_char] in Hs. apply orb_false_iff in Hs. destruct Hs as [Hd Hs].
    destruct skip as [| skip]; cbn [replace_from]; [| now apply IH].
    destruct (match_at r pos (String d s)) as [e |].
    + rewrite Hsub, has_char_append, Hfree. cbn [orb].
      destruct (e =? pos)%nat; [| now apply IH].
      cbn [has_char]. now rewrite Hd, IH.
    + cbn [has_char]. now rewrite Hd, IH.
Qed.

Lemma match_at_edges_and_braces (pos : nat) (s : string) :
  match_at re_edges_and_braces pos (String "{" s) = Some (S pos)
  /\ match_at re_edges_and_braces pos (String "}" s) = Some (S pos).
Proof.
  unfold match_at, re_edges_and_braces. cbn [rmatch].
  destruct (pos =? 0)%nat; split; reflexivity.
Qed.

(** X17.  After its method and a hyphen, the operation id derived from a
    path has no slash and no brace: a character among [/], [{] and [}]
    that the method does not have, the operation id does not have. *)
Theorem operationId_has_no_slash_or_brace (method path : string) (c : ascii) :
  c = "/"%char \/ c = "{"%char \/ c = "}"%char ->
  has_char c method = false ->
  has_char c (derive_operationId method path) = false.
Proof.
  intros Hc Hmethod. unfold derive_operationId.
  rewrite !has_char_append, Hmethod. cbn [orb].
  assert (Hhyphen : has_char c "-" = false)
    by (destruct Hc as [-> | [-> | ->]]; reflexivity).
  rewrite Hhyphen. cbn [orb]. unfold replace_all.
  destruct Hc as [-> | [-> | ->]].
  - apply (replace_from_removes re_slash _ "-" "-"); reflexivity.
  - apply (replace_from_adds re_slash _ "-" "-"); [reflexivity | reflexivity |].
    apply (replace_from_removes re_edges_and_braces _ "" ""); [reflexivity | reflexivity |].
    intros pos s. apply match_at_edges_and_braces.
  - apply (replace_from_adds re_slash _ "-" "-"); [reflexivity | reflexivity |].
    apply (replace_from_removes re_edges_and_braces _ "" ""); [reflexivity | reflexivity |].
    intros pos s. apply match_at_edges_and_braces.
Qed.

Lemma operationId_has_no_slash_or_brace_witness :
  derive_operationId "get" "/datasets/{dataset_id}/decks/" = "get-datasets-dataset_id-decks"
  /\ has_char "/" (derive_operationId "get" "/datasets/{dataset_id}/decks/") = false.
Proof.
  split; [reflexivity |].
  apply operationId_has_no_slash_or_brace; [now left | reflexivity].
Defined.

(** ** Spec Merger *)

Lemma mergeFiles_methods_get (toMerge master : obj OperationObject) (method : string) :
  obj_get method (mergeFiles_methods toMerge master)
  = match obj_get method master with
    | Some operation => Some operation
    | None => obj_get method toMerge
    end.
Proof.
  revert master. induction toMerge as [| [m operation] toMerge IH]; intros master;
    cbn [mergeFiles_methods obj_get].
  - now destruct (obj_get method master).
  - rewrite IH. destruct (String.eqb_spec method m) as [-> | Hne].
    + destruct (obj_get m master) as [mine |] eqn:E; [now rewrite E |].
      now rewrite obj_get_set_same.
    + destruct (obj_get m master); [reflexivity |].
      now rewrite obj_get_set_other.
Qed.

Lemma mergeFiles_path_find (p : string) (item : PathItemObject)
  (master : obj PathItemObject) (path method : string) :
  find_operation (mergeFiles_path p item master) path method
  = match find_operation master path method with
    | Some operation => Some operation
    | None => if path =? p then obj_get method (path_methods item) else None
    end.
Proof.
  unfold find_operation, mergeFiles_path.
  destruct (obj_get p master) as [mine |] eqn:Hmine.
  - destruct (String.eqb_spec path p) as [-> | Hne].
    + rewrite obj_get_set_same, Hmine. cbn [path_methods]. apply mergeFiles_methods_get.
    + rewrite obj_get_set_other by assumption.
      destruct (obj_get path master) as [other |]; [| reflexivity].
      now destruct (obj_get method (path_methods other)).
  - destruct (String.eqb_spec path p) as [-> | Hne].
    + now rewrite obj_get_set_same, Hmine.
    + rewrite obj_get_set_other by assumption.
      destruct (obj_get path master) as [other |]; [| reflexivity].
      now destruct (obj_get method (path_methods other)).
Qed.

Lemma mergeFiles_paths_keep (toMerge master : obj PathItemObject) (path method : string)
  (operation : OperationObject) :
  find_operation master path method = Some operation ->
  find_operation (mergeFiles_paths toMerge master) path method = Some operation.
Proof.
  revert master. induction toMerge as [| [p item] toMerge IH]; intros master Hfind;
    cbn [mergeFiles_paths]; [exact Hfind |].
  apply IH. now rewrite mergeFiles_path_find, Hfind.
Qed.

Lemma mergeFiles_paths_find (toMerge master : obj PathItemObject) (path method : string) :
  NoDup (Object_keys toMerge) ->
  find_operation (mergeFiles_paths toMerge master) path method
  = match find_operation master path method with
    | Some operation => Some operation
    | None => find_operation toMerge path method
    end.
Proof.
  revert master. induction toMerge as [| [p item] toMerge IH]; intros master Hnodup;
    cbn [mergeFiles_paths].
  - now destruct (find_operation master path method).
  - inversion Hnodup as [| ? ? Hfresh Hrest]; subst.
    rewrite (IH _ Hrest), mergeFiles_path_find.
    destruct (find_operation master path method); [reflexivity |].
    unfold find_operation at 2. cbn [obj_get].
    destruct (String.eqb_spec path p) as [-> | Hne]; [| reflexivity].
    destruct (obj_get method (path_methods item)); [reflexivity |].
    unfold find_operation. apply obj_get_none_keys in Hfresh. now rewrite Hfresh.
Qed.

(** X19.  In a merge of two documents the master wins: every operation of
    the master is in the result as it was.  When the paths of the other
    document are distinct, the result has, besides, exactly the operations
    of the other document whose path and method the master lacks.  The
    header of the master is kept. *)
Theorem mergeFiles_master_wins (master toMerge : OpenApiSpec) :
  (forall path method operation,
      get_method path method master = Some operation ->
      get_method path method (mergeFiles master toMerge) = Some operation)
  /\ (NoDup (Object_keys (paths toMerge)) ->
      forall path method,
        get_method path method (mergeFiles master toMerge)
        = match get_method path method master with
          | Some operation => Some operation
          | None => get_method path method toMerge
          end)
  /\ openapi (mergeFiles master toMerge) = openapi master
  /\ info (mergeFiles master toMerge) = info master.
Proof.
  split; [| split; [| split; reflexivity]].
  - intros path method operation Hget.
    exact (mergeFiles_paths_keep (paths toMerge) (paths master) path method operation Hget).
  - intros Hnodup path method.
    exact (mergeFiles_paths_find (paths toMerge) (paths master) path method Hnodup).
Qed.

Lemma mergeFiles_master_wins_witness :
  let other_operation := skeleton "/accounts/" "delete" in
  let toMerge :=
    {| openapi := JStr "3.0.0"; info := JObj []; servers := None;
       paths := [("/accounts/",
                  {| path_parameters := None;
                     path_methods := [("get", other_operation);
                                      ("delete", other_operation)] |});
                 ("/users/",
                  {| path_parameters := None;
                     path_methods := [("get", other_operation)] |})] |} in
  get_method "/accounts/" "get" (mergeFiles prior_spec toMerge) = Some sample_operation
  /\ get_method "/accounts/" "delete" (mergeFiles prior_spec toMerge) = Some other_operation
  /\ get_method "/users/" "get" (mergeFiles prior_spec toMerge) = Some other_operation.
Proof.
  intros other_operation toMerge.
  assert (Hnodup : NoDup (Object_keys (paths toMerge)))
    by (repeat constructor; simpl; intuition discriminate).
  split; [| split].
  - apply (proj1 (mergeFiles_master_wins prior_spec toMerge)). reflexivity.
  - rewrite (proj1 (proj2 (mergeFiles_master_wins prior_spec toMerge)) Hnodup).
    reflexivity.
  - rewrite (proj1 (proj2 (mergeFiles_master_wins prior_spec toMerge)) Hnodup).
    reflexivity.
Defined.

(** ** Writing the examples out *)

Lemma write_response_examples_all (exampleCount : nat) (examples : Examples)
  (exampleNum : nat) (written : obj json) (name : string) :
  exampleCount <> 2%nat ->
  NoDup (Object_keys examples) ->
  obj_get name (write_response_examples exampleCount exampleNum examples written)
  = match obj_get name examples with
    | Some v => Some v
    | None => obj_get name written
    end.
Proof.
  intros Hcount. apply Nat.eqb_neq in Hcount.
  revert exampleNum written.
  induction examples as [| [k v] examples IH]; intros exampleNum written Hnodup;
    cbn [write_response_examples obj_get]; [reflexivity |].
  inversion Hnodup as [| ? ? Hfresh Hrest]; subst.
  rewrite Hcount. cbn [negb]. rewrite orb_true_r, (IH _ _ Hrest).
  destruct (String.eqb_spec name k) as [-> | Hne].
  - apply obj_get_none_keys in Hfresh. now rewrite Hfresh, obj_get_set_same.
  - now rewrite obj_get_set_other.
Qed.

Lemma write_response_examples_skip (examples : Examples) (exampleNum : nat)
  (written : obj json) :
  (1 <= exampleNum)%nat ->
  write_response_examples 2 exampleNum examples written = written.
Proof.
  revert exampleNum. induction examples as [| [k v] examples IH]; intros exampleNum Hnum;
    cbn [write_response_examples]; [reflexivity |].
  destruct (Nat.ltb_spec (S exampleNum) 2); [lia |]. cbn. apply IH. lia.
Qed.

(** X20.  Of the examples of a response status, the first alone is
    written out when there are exactly two of them, and all of them when
    their number is any other: a status that holds the accumulator and
    one body is exported as its accumulator. *)
Theorem two_examples_are_written_as_one (examples : Examples) :
  (forall k v rest, examples = (k, v) :: rest -> List.length rest = 1%nat ->
     write_response_examples (List.length (Object_keys examples)) 0 examples []
     = [(k, v)])
  /\ (List.length examples <> 2%nat ->
      NoDup (Object_keys examples) ->
      forall name,
        obj_get name
          (write_response_examples (List.length (Object_keys examples)) 0 examples [])
        = obj_get name examples).
Proof.
  split.
  - intros k v rest -> Hrest. unfold Object_keys. rewrite length_map.
    cbn [List.length]. rewrite Hrest. cbn [write_response_examples].
    cbn. now apply write_response_examples_skip.
  - intros Hcount Hnodup name. unfold Object_keys at 1. rewrite length_map.
    rewrite (write_response_examples_all _ _ _ _ _ Hcount Hnodup).
    now destruct (obj_get name examples).
Qed.

Lemma two_examples_are_written_as_one_witness :
  let body := JObj [("id", JNum 42); ("name", JStr "a")] in
  let pool :=
    response_pool "200"
      (mergeResponseExample (addResponse 200 "get" sample_operation) "200" (Some body)
                            "get" "/accounts/") in
  write_response_examples (List.length (Object_keys pool)) 0 pool []
  = [("example-0001", body)].
Proof.
  intros body pool.
  apply (proj1 (two_examples_are_written_as_one pool)
               "example-0001" body [("example-0002", body)]); reflexivity.
Defined.

Lemma write_request_examples_shoji (exampleCount : nat) (examples : Examples)
  (exampleNum : nat) (written : obj json) :
  (forall name v, In (name, v) written -> includes_shoji v = Some true) ->
  forall name v,
    In (name, v) (write_request_examples true exampleCount exampleNum examples written) ->
    includes_shoji v = Some true.
Proof.
  revert exampleNum written.
  induction examples as [| [k x] examples IH]; intros exampleNum written Hwritten;
    cbn [write_request_examples]; [exact Hwritten |].
  apply IH. cbn [negb orb].
  destruct (((S exampleNum <? 2)%nat || negb (exampleCount =? 2)%nat)); cbn [andb];
    [| exact Hwritten].
  destruct (includes_shoji x) as [[|] |] eqn:Hx; try exact Hwritten.
  intros name v Hin. apply In_obj_set in Hin.
  destruct Hin as [[= _ ->] | Hin]; [exact Hx | eauto].
Qed.

Lemma some_shoji_throws (examples : Examples) (shoji : bool) (name : string) (v : json) :
  In (name, v) examples -> includes_shoji v = None -> some_shoji examples shoji = None.
Proof.
  revert shoji. induction examples as [| [k x] examples IH]; intros shoji; [intros [] |].
  intros [[= -> ->] | Hin] Hv; cbn [some_shoji].
  - now rewrite Hv.
  - destruct (includes_shoji x) as [[|] |]; [apply IH | apply IH |]; auto.
Qed.

(** X21.  When one of the request examples of an operation is a shoji
    one (its [element] contains [shoji]), only the shoji examples are
    written out for its request. *)
Theorem shoji_requests_hide_the_others (method : OperationObject)
  (examples : Examples) (written : MethodExamples) :
  optional_examples (option_map rb_content (requestBody method)) = Some examples ->
  some_shoji examples false = Some true ->
  write_method method = Some written ->
  forall name v, In (name, v) (request_examples written) ->
                 includes_shoji v = Some true.
Proof.
  intros Hexamples Hshoji. unfold write_method. rewrite Hexamples, Hshoji.
  intros [= <-]. cbn [request_examples].
  apply write_request_examples_shoji. intros name v [].
Qed.

Lemma shoji_requests_hide_the_others_witness :
  let shoji := JObj [("element", JStr "shoji:entity"); ("body", JObj [("name", JStr "a")])] in
  let plain := JObj [("name", JStr "a")] in
  let method :=
    fold_left mergeRequestExample [Text (Some shoji); Text (Some plain)] sample_operation in
  exists written,
    write_method method = Some written
    /\ Object_keys (request_pool method) = ["example-0001"; "example-0002"; "example-0003"]
    /\ Object_keys (request_examples written) = ["example-0001"; "example-0002"]
    /\ forall name v, In (name, v) (request_examples written) ->
                      includes_shoji v = Some true.
Proof.
  intros shoji plain method.
  destruct (write_method method) as [written |] eqn:Hwrite; [| discriminate Hwrite].
  exists written. split; [reflexivity | split; [reflexivity | split]].
  - vm_compute in Hwrite. injection Hwrite as <-. reflexivity.
  - apply (shoji_requests_hide_the_others method (request_pool method) written);
      [reflexivity | reflexivity | exact Hwrite].
Defined.

Lemma write_methods_throws (methods : obj OperationObject) (written : obj MethodExamples)
  (lMethod : string) (method : OperationObject) :
  In (lMethod, method) methods -> lMethod <> "options" -> write_method method = None ->
  write_methods methods written = None.
Proof.
  revert written. induction methods as [| [k m] methods IH]; intros written; [intros [] |].
  intros [[= -> ->] | Hin] Hne Hthrow; cbn [write_methods].
  - apply String.eqb_neq in Hne. now rewrite Hne, Hthrow.
  - destruct (k =? "options"); [now apply IH |].
    destruct (write_method m); [now apply IH | reflexivity].
Qed.

Lemma write_paths_throws (items : obj PathItemObject) (specExamples : ExampleFile)
  (path : string) (item : PathItemObject) :
  In (path, item) items -> write_methods (path_methods item) [] = None ->
  write_paths items specExamples = None.
Proof.
  revert specExamples. induction items as [| [p i] items IH]; intros specExamples;
    [intros [] |].
  intros [[= -> ->] | Hin] Hthrow; cbn [write_paths].
  - now rewrite Hthrow.
  - destruct (write_methods (path_methods i) []); [now apply IH | reflexivity].
Qed.

(** X22.  Writing the examples out throws as soon as one request example
    of one operation (other than under [options]) is [null], or has an
    [element] that is a number, a boolean or an object: [includes] cannot
    be called on it. *)
Theorem unreadable_request_example_stops_the_export (spec : OpenApiSpec)
  (path lMethod name : string) (item : PathItemObject) (method : OperationObject)
  (examples : Examples) (v : json) :
  In (path, item) (paths spec) ->
  In (lMethod, method) (path_methods item) ->
  lMethod <> "options" ->
  optional_examples (option_map rb_content (requestBody method)) = Some examples ->
  In (name, v) examples ->
  includes_shoji v = None ->
  writeExamples spec = None.
Proof.
  intros Hpath Hmethod Hne Hexamples Hin Hv. unfold writeExamples.
  apply (write_paths_throws _ _ path item Hpath).
  apply (write_methods_throws _ _ lMethod method Hmethod Hne).
  unfold write_method. rewrite Hexamples.
  now rewrite (some_shoji_throws examples false name v Hin Hv).
Qed.

Lemma unreadable_request_example_stops_the_export_witness :
  let body := JObj [("element", JNum 5); ("name", JStr "a")] in
  let method := mergeRequestExample sample_operation (Text (Some body)) in
  let spec := {| openapi := JStr "3.0.0"; info := JObj []; servers := None;
                 paths := [("/accounts/",
                            {| path_parameters := Some [];
                               path_methods := [("post", method)] |})] |} in
  writeExamples spec = None.
Proof.
  intros body method spec.
  apply (unreadable_request_example_stops_the_export spec "/accounts/" "post"
           "example-0002" {| path_parameters := Some [];
                             path_methods := [("post", method)] |}
           method [("example-0001", body); ("example-0002", body)] body).
  - now left.
  - now left.
  - discriminate.
  - reflexivity.
  - right. now left.
  - reflexivity.
Defined.

(** ** Spec Reconciler, further *)

Lemma validateExampleList_unflagged (pool : obj json) (name filename : string) :
  unflagged pool -> validateExampleList pool name filename = None.
Proof.
  intros [Hne Hnone]. unfold validateExampleList. rewrite collect_examples_spec.
  rewrite !app_nil_l, Nat.add_0_l.
  apply flagged_none in Hnone. rewrite Hnone. unfold Object_keys. rewrite length_map.
  destruct pool; [congruence | reflexivity].
Qed.

Lemma length_keys_zero {A : Type} (o : obj A) :
  (List.length (Object_keys o) =? 0)%nat = true <-> o = [].
Proof.
  unfold Object_keys. rewrite length_map. destruct o; cbn; split; congruence.
Qed.

Lemma content_pool_attach (schema : json) (published : Examples) (c c' : Content) :
  attach schema published c = Some c' -> content_pool c' = published.
Proof.
  unfold attach. destruct (obj_get "application/json" c); [| discriminate].
  intros [= <-]. unfold content_pool, json_examples. now rewrite obj_get_set_same.
Qed.

Lemma attach_without_json (schema : json) (published : Examples) (c : Content) :
  obj_get "application/json" c = None -> attach schema published c = None.
Proof. intros H. unfold attach. now rewrite H. Qed.

Section ReconcilerMore.

Variable quicktypeJSON : string -> string -> list string -> option json.
Variable toOpenApiSchema : json -> option json.

Lemma infer_slot_unflagged (path method filename : string) (pool : obj json) :
  unflagged pool ->
  infer_slot quicktypeJSON toOpenApiSchema path method pool filename = None.
Proof.
  intros H. unfold infer_slot. now rewrite validateExampleList_unflagged.
Qed.

Lemma infer_slot_published (path method filename : string) (pool : obj json)
  (schema : json) (published : Examples) :
  infer_slot quicktypeJSON toOpenApiSchema path method pool filename
  = Some (schema, published) ->
  exists stats,
    validateExampleList pool (path ++ " " ++ method ++ " requests") filename = Some stats
    /\ published = publishExamples stats.
Proof.
  unfold infer_slot.
  destruct (validateExampleList pool (path ++ " " ++ method ++ " requests") filename)
    as [stats |]; [| discriminate].
  destruct (quicktypeJSON "schema" (join "-" [path; method; "request"])
                          (allExamples stats)) as [jsonSchema |]; [| discriminate].
  destruct (refer_element jsonSchema (firstExample stats)) as [jsonSchema' |];
    [| discriminate].
  destruct (toOpenApiSchema jsonSchema') as [s |]; [| discriminate].
  intros [= _ <-]. now exists stats.
Qed.

Lemma reconcile_request_frame (path method filename : string) (examples : MethodExamples)
  (m m' : OperationObject) :
  reconcile_request quicktypeJSON toOpenApiSchema path method examples filename m
  = Some m' ->
  m' = set_requestBody (requestBody m') m.
Proof.
  unfold reconcile_request.
  destruct (List.length (Object_keys (request_examples examples)) =? 0)%nat.
  - intros [= <-]. now destruct m.
  - destruct (infer_slot _ _ _ _ _ _) as [[schema pub] |]; [| discriminate].
    destruct (attach schema pub _); [| discriminate]. now intros [= <-].
Qed.

Lemma reconcile_responses_frame (path method filename : string)
  (slots : obj (obj json)) (m m' : OperationObject) :
  reconcile_responses quicktypeJSON toOpenApiSchema path method slots filename m
  = Some m' ->
  m' = set_responses (responses m') m.
Proof.
  revert m. induction slots as [| [statusCode pool] slots IH]; intros m;
    cbn [reconcile_responses].
  - intros [= <-]. now destruct m.
  - destruct (List.length (Object_keys pool) =? 0)%nat; [apply IH |].
    destruct (infer_slot _ _ _ _ _ _) as [[schema pub] |]; [| discriminate].
    destruct (resp_content _) as [c |]; [| discriminate].
    destruct (attach schema pub c) as [c' |]; [| discriminate].
    intros Hrest. rewrite (IH _ Hrest) at 1. reflexivity.
Qed.

(** The request slot after its reconciliation. *)
Lemma reconcile_request_pool (path method filename : string) (examples : MethodExamples)
  (m m' : OperationObject) :
  reconcile_request quicktypeJSON toOpenApiSchema path method examples filename m
  = Some m' ->
  request_examples examples <> [] ->
  exists stats,
    validateExampleList (request_examples examples)
                        (path ++ " " ++ method ++ " requests") filename = Some stats
    /\ request_pool m' = publishExamples stats.
Proof.
  unfold reconcile_request. intros Hrun Hne.
  destruct (List.length (Object_keys (request_examples examples)) =? 0)%nat eqn:E;
    [apply length_keys_zero in E; contradiction |].
  destruct (infer_slot _ _ _ _ _ _) as [[schema pub] |] eqn:Hinfer; [| discriminate].
  destruct (infer_slot_published _ _ _ _ _ _ Hinfer) as (stats & Hvalid & ->).
  exists stats. split; [exact Hvalid |].
  destruct (attach schema (publishExamples stats) _) as [c |] eqn:Hattach; [| discriminate].
  injection Hrun as <-. unfold request_pool. cbn [requestBody set_requestBody rb_content].
  exact (content_pool_attach _ _ _ _ Hattach).
Qed.

(** The responses a run of the loop leaves as they are: those of a
    status code that has no curated example. *)
Lemma reconcile_responses_untouched (path method filename : string)
  (slots : obj (obj json)) (m m' : OperationObject) (statusCode : string) :
  reconcile_responses quicktypeJSON toOpenApiSchema path method slots filename m
  = Some m' ->
  (forall pool, In (statusCode, pool) slots -> pool = []) ->
  obj_get statusCode (responses m') = obj_get statusCode (responses m).
Proof.
  revert m. induction slots as [| [s pool] slots IH]; intros m; cbn [reconcile_responses].
  - now intros [= <-].
  - intros Hrun Hempty.
    assert (Hrest : forall pool, In (statusCode, pool) slots -> pool = [])
      by (intros q Hq; apply Hempty; now right).
    destruct (List.length (Object_keys pool) =? 0)%nat eqn:E; [now apply IH |].
    destruct (String.eqb_spec statusCode s) as [-> | Hne].
    { rewrite (Hempty pool (or_introl eq_refl)) in E. discriminate E. }
    destruct (infer_slot _ _ _ _ _ _) as [[schema pub] |]; [| discriminate].
    destruct (resp_content _) as [c |]; [| discriminate].
    destruct (attach schema pub c) as [c' |]; [| discriminate].
    rewrite (IH _ Hrun Hrest). cbn [set_response set_responses responses].
    now apply obj_get_set_other.
Qed.

Lemma reconcile_responses_other (path method filename : string)
  (slots : obj (obj json)) (m m' : OperationObject) (statusCode : string) :
  reconcile_responses quicktypeJSON toOpenApiSchema path method slots filename m
  = Some m' ->
  obj_get statusCode slots = None ->
  obj_get statusCode (responses m') = obj_get statusCode (responses m).
Proof.
  intros Hrun Hget. apply (reconcile_responses_untouched _ _ _ _ _ _ _ Hrun).
  intros pool Hin. apply (in_map fst) in Hin.
  pose proof (proj1 (obj_get_none_keys _ _) Hget) as Hkeys. now elim Hkeys.
Qed.

Lemma reconcile_request_untouched (path method filename : string)
  (examples : MethodExamples) (m m' : OperationObject) :
  reconcile_request quicktypeJSON toOpenApiSchema path method examples filename m
  = Some m' ->
  request_examples examples = [] ->
  m' = m.
Proof.
  unfold reconcile_request. intros Hrun Hempty. rewrite Hempty in Hrun.
  now injection Hrun.
Qed.

(** A response slot after the reconciliation of the responses. *)
Lemma reconcile_responses_pool (path method filename : string)
  (slots : obj (obj json)) (m m' : OperationObject) (statusCode : string)
  (pool : obj json) :
  reconcile_responses quicktypeJSON toOpenApiSchema path method slots filename m
  = Some m' ->
  NoDup (Object_keys slots) ->
  obj_get statusCode slots = Some pool ->
  pool <> [] ->
  exists stats,
    validateExampleList pool (path ++ " " ++ method ++ " requests") filename = Some stats
    /\ response_pool statusCode m' = publishExamples stats.
Proof.
  revert m. induction slots as [| [s p] slots IH]; intros m; cbn [reconcile_responses];
    [discriminate 3 |].
  intros Hrun Hnodup Hget Hne. inversion Hnodup as [| ? ? Hfresh Hrest]; subst.
  cbn [obj_get] in Hget.
  destruct (String.eqb_spec statusCode s) as [-> | Hother].
  - injection Hget as ->.
    destruct (List.length (Object_keys pool) =? 0)%nat eqn:E;
      [apply length_keys_zero in E; contradiction |].
    destruct (infer_slot _ _ _ _ _ _) as [[schema pub] |] eqn:Hinfer; [| discriminate].
    destruct (infer_slot_published _ _ _ _ _ _ Hinfer) as (stats & Hvalid & ->).
    exists stats. split; [exact Hvalid |].
    destruct (resp_content _) as [c |]; [| discriminate].
    destruct (attach schema (publishExamples stats) c) as [c' |] eqn:Hattach;
      [| discriminate].
    unfold response_pool.
    rewrite (reconcile_responses_other _ _ _ _ _ _ s Hrun)
      by (now apply obj_get_none_keys).
    cbn [set_response set_responses responses]. rewrite obj_get_set_same.
    cbn [resp_content]. exact (content_pool_attach _ _ _ _ Hattach).
  - destruct (List.length (Object_keys p) =? 0)%nat; [now apply (IH m) |].
    destruct (infer_slot _ _ _ _ _ _) as [[schema pub] |]; [| discriminate].
    destruct (resp_content _) as [c |]; [| discriminate].
    destruct (attach schema pub c) as [c' |]; [| discriminate].
    now apply (IH _ Hrun).
Qed.

(** The operation of a curated method after the reconciliation of its
    path. *)
Lemma reconcile_methods_get (path filename : string) (curated : obj MethodExamples)
  (methods methods' : obj OperationObject) (method : string) (examples : MethodExamples) :
  reconcile_methods quicktypeJSON toOpenApiSchema path curated filename methods
  = Some methods' ->
  NoDup (Object_keys curated) ->
  obj_get method curated = Some examples ->
  exists m1 m2,
    reconcile_request quicktypeJSON toOpenApiSchema path method examples filename
                      (start_operation path method methods) = Some m1
    /\ reconcile_responses quicktypeJSON toOpenApiSchema path method
                           (response_examples examples) filename m1 = Some m2
    /\ obj_get method methods' = Some m2.
Proof.
  revert methods. induction curated as [| [m0 ex0] curated IH]; intros methods;
    cbn [reconcile_methods]; [discriminate 3 |].
  intros Hrun Hnodup Hget. inversion Hnodup as [| ? ? Hfresh Hrest]; subst.
  set (methods1 := match obj_get m0 methods with
                   | None => obj_set m0 (skeleton path m0) methods
                   | Some _ => methods
                   end) in Hrun.
  assert (Hstart : obj_get m0 methods1 = Some (start_operation path m0 methods)).
  { unfold methods1, start_operation.
    destruct (obj_get m0 methods) as [op |] eqn:E; [exact E | apply obj_get_set_same]. }
  rewrite Hstart in Hrun.
  destruct (reconcile_request quicktypeJSON toOpenApiSchema path m0 ex0 filename
                              (start_operation path m0 methods))
    as [m1 |] eqn:H1; [| discriminate].
  destruct (reconcile_responses quicktypeJSON toOpenApiSchema path m0
                                (response_examples ex0) filename m1)
    as [m2 |] eqn:H2; [| discriminate].
  cbn [obj_get] in Hget.
  destruct (String.eqb_spec method m0) as [-> | Hne].
  - injection Hget as <-. exists m1, m2. split; [exact H1 | split; [exact H2 |]].
    rewrite (reconcile_methods_frame quicktypeJSON toOpenApiSchema path filename curated
               _ methods' m0 Hrun) by (now apply obj_get_none_keys).
    apply obj_get_set_same.
  - destruct (IH _ Hrun Hrest Hget) as (n1 & n2 & Hn1 & Hn2 & Hn).
    exists n1, n2. split; [| auto].
    replace (start_operation path method methods)
      with (start_operation path method (obj_set m0 m2 methods1)); [exact Hn1 |].
    unfold start_operation. rewrite obj_get_set_other by assumption.
    unfold methods1. destruct (obj_get m0 methods); [reflexivity |].
    now rewrite obj_get_set_other.
Qed.

(** The operation of a curated path and method in the result. *)
Lemma generateSchema_get (filename : string) (masterExamples : ExampleFile)
  (oldSpec newSpec : OpenApiSpec) (path method : string)
  (curated : obj MethodExamples) (examples : MethodExamples) :
  generateSchema quicktypeJSON toOpenApiSchema filename masterExamples oldSpec
  = Some newSpec ->
  NoDup (Object_keys masterExamples) ->
  NoDup (Object_keys curated) ->
  obj_get path masterExamples = Some curated ->
  obj_get method curated = Some examples ->
  exists m1 m2,
    reconcile_request quicktypeJSON toOpenApiSchema path method examples filename
      (start_operation path method (path_methods (prior_item path oldSpec))) = Some m1
    /\ reconcile_responses quicktypeJSON toOpenApiSchema path method
                           (response_examples examples) filename m1 = Some m2
    /\ get_method path method newSpec = Some m2.
Proof.
  intros Hrun Hpaths Hmethods Hpath Hmethod. unfold generateSchema in Hrun.
  pose proof (reconcile_paths_spec quicktypeJSON toOpenApiSchema masterExamples filename
                oldSpec _ newSpec Hpaths Hrun path) as Hspec.
  rewrite Hpath in Hspec. destruct Hspec as (methods & Hrec & Hitem).
  destruct (reconcile_methods_get _ _ _ _ _ _ _ Hrec Hmethods Hmethod)
    as (m1 & m2 & H1 & H2 & Hget).
  exists m1, m2. split; [exact H1 | split; [exact H2 |]].
  unfold get_method. rewrite Hitem. exact Hget.
Qed.

End ReconcilerMore.

Section ReconcilerProperties.

Variable quicktypeJSON : string -> string -> list string -> option json.
Variable toOpenApiSchema : json -> option json.

Lemma reconcile_responses_unflagged (path method filename : string)
  (slots : obj (obj json)) (m : OperationObject) (statusCode : string) (pool : obj json) :
  In (statusCode, pool) slots ->
  unflagged pool ->
  reconcile_responses quicktypeJSON toOpenApiSchema path method slots filename m = None.
Proof.
  revert m. induction slots as [| [s p] slots IH]; intros m Hin Hpool; [destruct Hin |].
  cbn [reconcile_responses]. destruct Hin as [[= -> ->] | Hin].
  - destruct (List.length (Object_keys pool) =? 0)%nat eqn:E.
    + apply length_keys_zero in E. now destruct Hpool.
    + now rewrite infer_slot_unflagged.
  - destruct (List.length (Object_keys p) =? 0)%nat; [now apply IH |].
    destruct (infer_slot quicktypeJSON toOpenApiSchema path method p filename)
      as [[schema pub] |]; [| reflexivity].
    destruct (resp_content _) as [c |]; [| reflexivity].
    destruct (attach schema pub c); [now apply IH | reflexivity].
Qed.

Lemma reconcile_request_unflagged (path method filename : string)
  (examples : MethodExamples) (m : OperationObject) :
  unflagged (request_examples examples) ->
  reconcile_request quicktypeJSON toOpenApiSchema path method examples filename m = None.
Proof.
  intros Hpool. unfold reconcile_request.
  destruct (List.length (Object_keys (request_examples examples)) =? 0)%nat eqn:E.
  - apply length_keys_zero in E. now destruct Hpool.
  - now rewrite infer_slot_unflagged.
Qed.

Lemma reconcile_methods_unflagged (path filename : string) (curated : obj MethodExamples)
  (methods : obj OperationObject) (method : string) (examples : MethodExamples) :
  In (method, examples) curated ->
  has_unflagged_slot examples ->
  reconcile_methods quicktypeJSON toOpenApiSchema path curated filename methods = None.
Proof.
  revert methods. induction curated as [| [m0 ex0] curated IH]; intros methods Hin Hslot;
    [destruct Hin |].
  cbn [reconcile_methods]. destruct (obj_get m0 _) as [methodObject |]; [| reflexivity].
  destruct Hin as [[= -> ->] | Hin].
  - destruct Hslot as [Hreq | (statusCode & pool & Hin & Hpool)].
    + now rewrite reconcile_request_unflagged.
    + destruct (reconcile_request _ _ _ _ _ _ _); [| reflexivity].
      now rewrite (reconcile_responses_unflagged _ _ _ _ _ _ _ Hin Hpool).
  - destruct (reconcile_request _ _ _ _ _ _ _); [| reflexivity].
    destruct (reconcile_responses _ _ _ _ _ _ _); [| reflexivity].
    now apply IH.
Qed.

(** X23.  Reconciliation is all or nothing about curation: when some
    method of the curated file, under any path, has a request slot or a
    response slot with examples none of which is flagged for publication
    ([gexample] in its name), [generateSchema] returns no specification at
    all, whatever the other paths hold. *)
Theorem unflagged_slot_stops_the_reconciliation (filename : string)
  (masterExamples : ExampleFile) (oldSpec : OpenApiSpec) (path method : string)
  (curated : obj MethodExamples) (examples : MethodExamples) :
  In (path, curated) masterExamples ->
  In (method, examples) curated ->
  has_unflagged_slot examples ->
  generateSchema quicktypeJSON toOpenApiSchema filename masterExamples oldSpec = None.
Proof.
  intros Hpath Hmethod Hslot. unfold generateSchema.
  generalize {| openapi := openapi oldSpec; info := info oldSpec;
                servers := servers oldSpec; paths := [] |}.
  induction masterExamples as [| [p c] rest IH]; intros newSpec; [destruct Hpath |].
  cbn [reconcile_paths]. destruct Hpath as [[= -> ->] | Hpath].
  - now rewrite (reconcile_methods_unflagged _ _ _ _ _ _ Hmethod Hslot).
  - destruct (reconcile_methods _ _ _ _ _ _); [now apply IH | reflexivity].
Qed.

(** X24.  Reconciliation writes to nothing but the slots that have
    curated examples.  The operation of a curated path and method in the
    result is the prior one (or the one made for a method the prior
    specification lacks) in its identifier, summary, description,
    parameters, tags and metadata; its request body is the prior one when
    the method has no curated request example; and its response under a
    status code is the prior one when the method has no curated example
    under that code. *)
Theorem reconciliation_writes_curated_slots_only (filename : string)
  (masterExamples : ExampleFile) (oldSpec newSpec : OpenApiSpec) (path method : string)
  (curated : obj MethodExamples) (examples : MethodExamples) :
  generateSchema quicktypeJSON toOpenApiSchema filename masterExamples oldSpec
  = Some newSpec ->
  NoDup (Object_keys masterExamples) ->
  NoDup (Object_keys curated) ->
  obj_get path masterExamples = Some curated ->
  obj_get method curated = Some examples ->
  let prior := start_operation path method (path_methods (prior_item path oldSpec)) in
  exists operation,
    get_method path method newSpec = Some operation
    /\ operationId operation = operationId prior
    /\ summary operation = summary prior
    /\ description operation = description prior
    /\ parameters operation = parameters prior
    /\ tags operation = tags prior
    /\ meta operation = meta prior
    /\ (request_examples examples = [] -> requestBody operation = requestBody prior)
    /\ (forall statusCode,
          (forall pool, In (statusCode, pool) (response_examples examples) -> pool = []) ->
          obj_get statusCode (responses operation) = obj_get statusCode (responses prior)).
Proof.
  intros Hrun Hpaths Hmethods Hpath Hmethod prior.
  destruct (generateSchema_get _ _ _ _ _ _ _ _ _ _ Hrun Hpaths Hmethods Hpath Hmethod)
    as (m1 & m2 & H1 & H2 & Hget).
  fold prior in H1. exists m2. split; [exact Hget |].
  pose proof (reconcile_request_frame _ _ _ _ _ _ _ _ H1) as F1.
  pose proof (reconcile_responses_frame _ _ _ _ _ _ _ _ H2) as F2.
  assert (Hbody : requestBody m2 = requestBody m1) by (now rewrite F2).
  assert (Hresp : responses m1 = responses prior) by (now rewrite F1).
  rewrite F2, F1. cbn [set_responses set_requestBody operationId summary description
                         parameters tags meta].
  repeat (split; [reflexivity |]). split.
  - intros Hempty. cbn [requestBody].
    now rewrite (reconcile_request_untouched _ _ _ _ _ _ _ _ H1 Hempty).
  - intros statusCode Hempty. cbn [responses]. rewrite <- Hresp.
    exact (reconcile_responses_untouched _ _ _ _ _ _ _ _ _ H2 Hempty).
Qed.

(** X25.  A curated method the prior specification does not have comes
    out with an identity of its own: the operation identifier derived from
    the method and the path, the same string as its summary, the tag
    [UNKNOWN], no parameter, and an original path under
    [https://app.crunch.io/api]. *)
Theorem uncaptured_method_gets_a_derived_identity (filename : string)
  (masterExamples : ExampleFile) (oldSpec newSpec : OpenApiSpec) (path method : string)
  (curated : obj MethodExamples) (examples : MethodExamples) :
  generateSchema quicktypeJSON toOpenApiSchema filename masterExamples oldSpec
  = Some newSpec ->
  NoDup (Object_keys masterExamples) ->
  NoDup (Object_keys curated) ->
  obj_get path masterExamples = Some curated ->
  obj_get method curated = Some examples ->
  get_method path method oldSpec = None ->
  exists operation,
    get_method path method newSpec = Some operation
    /\ operationId operation = derive_operationId method path
    /\ summary operation = derive_operationId method path
    /\ tags operation = ["UNKNOWN"]
    /\ parameters operation = []
    /\ originalPath (meta operation) = "https://app.crunch.io/api" ++ path.
Proof.
  intros Hrun Hpaths Hmethods Hpath Hmethod Hnew.
  destruct (generateSchema_get _ _ _ _ _ _ _ _ _ _ Hrun Hpaths Hmethods Hpath Hmethod)
    as (m1 & m2 & H1 & H2 & Hget).
  assert (Hstart : start_operation path method (path_methods (prior_item path oldSpec))
                   = skeleton path method).
  { unfold start_operation, prior_item. unfold get_method in Hnew.
    destruct (obj_get path (paths oldSpec)); [now rewrite Hnew | reflexivity]. }
  rewrite Hstart in H1. exists m2. split; [exact Hget |].
  rewrite (reconcile_responses_frame _ _ _ _ _ _ _ _ H2),
          (reconcile_request_frame _ _ _ _ _ _ _ _ H1).
  repeat split.
Qed.

(** X26.  After a reconciliation, the slots that have curated examples
    hold the published examples of their validation and nothing of what
    the prior specification held there: the request pool of the operation
    is [publishExamples] of the curated request examples, and the pool of
    each status code that has curated examples is [publishExamples] of
    those. *)
Theorem curated_slots_hold_the_published_examples (filename : string)
  (masterExamples : ExampleFile) (oldSpec newSpec : OpenApiSpec) (path method : string)
  (curated : obj MethodExamples) (examples : MethodExamples) :
  generateSchema quicktypeJSON toOpenApiSchema filename masterExamples oldSpec
  = Some newSpec ->
  NoDup (Object_keys masterExamples) ->
  NoDup (Object_keys curated) ->
  NoDup (Object_keys (response_examples examples)) ->
  obj_get path masterExamples = Some curated ->
  obj_get method curated = Some examples ->
  exists operation,
    get_method path method newSpec = Some operation
    /\ (request_examples examples <> [] ->
        exists stats,
          validateExampleList (request_examples examples)
                              (path ++ " " ++ method ++ " requests") filename = Some stats
          /\ request_pool operation = publishExamples stats)
    /\ (forall statusCode pool,
          obj_get statusCode (response_examples examples) = Some pool ->
          pool <> [] ->
          exists stats,
            validateExampleList pool (path ++ " " ++ method ++ " requests") filename
            = Some stats
            /\ response_pool statusCode operation = publishExamples stats).
Proof.
  intros Hrun Hpaths Hmethods Hslots Hpath Hmethod.
  destruct (generateSchema_get _ _ _ _ _ _ _ _ _ _ Hrun Hpaths Hmethods Hpath Hmethod)
    as (m1 & m2 & H1 & H2 & Hget).
  exists m2. split; [exact Hget | split].
  - intros Hne.
    destruct (reconcile_request_pool _ _ _ _ _ _ _ _ H1 Hne) as (stats & Hvalid & Hpool).
    exists stats. split; [exact Hvalid |]. rewrite <- Hpool. unfold request_pool.
    now rewrite (reconcile_responses_frame _ _ _ _ _ _ _ _ H2).
  - intros statusCode pool Hget' Hne.
    exact (reconcile_responses_pool _ _ _ _ _ _ _ _ _ _ H2 Hslots Hget' Hne).
Qed.

Lemma reconcile_request_without_json (path method filename : string)
  (examples : MethodExamples) (m : OperationObject) :
  request_without_json m ->
  request_examples examples <> [] ->
  reconcile_request quicktypeJSON toOpenApiSchema path method examples filename m = None.
Proof.
  intros (body & Hbody & Hnone) Hne. unfold reconcile_request.
  destruct (List.length (Object_keys (request_examples examples)) =? 0)%nat eqn:E;
    [apply length_keys_zero in E; contradiction |].
  destruct (infer_slot _ _ _ _ _ _) as [[schema pub] |]; [| reflexivity].
  rewrite Hbody. now rewrite attach_without_json.
Qed.

Lemma reconcile_responses_without_json (path method filename : string)
  (slots : obj (obj json)) (m : OperationObject) (statusCode : string) (pool : obj json) :
  NoDup (Object_keys slots) ->
  obj_get statusCode slots = Some pool ->
  pool <> [] ->
  response_without_json statusCode m ->
  reconcile_responses quicktypeJSON toOpenApiSchema path method slots filename m = None.
Proof.
  revert m. induction slots as [| [s p] slots IH]; intros m Hnodup Hget Hne Hm;
    [discriminate Hget |].
  inversion Hnodup as [| ? ? Hfresh Hrest]; subst.
  cbn [reconcile_responses]. cbn [obj_get] in Hget.
  destruct (String.eqb_spec statusCode s) as [-> | Hother].
  - injection Hget as ->.
    destruct (List.length (Object_keys pool) =? 0)%nat eqn:E;
      [apply length_keys_zero in E; contradiction |].
    destruct (infer_slot _ _ _ _ _ _) as [[schema pub] |]; [| reflexivity].
    destruct Hm as (response & -> & Hcontent).
    destruct (resp_content response) as [c |]; [| reflexivity].
    now rewrite attach_without_json.
  - destruct (List.length (Object_keys p) =? 0)%nat; [now apply IH |].
    destruct (infer_slot _ _ _ _ _ _) as [[schema pub] |]; [| reflexivity].
    destruct (resp_content _) as [c |]; [| reflexivity].
    destruct (attach schema pub c) as [c' |]; [| reflexivity].
    apply IH; try assumption.
    destruct Hm as (response & Hresponse & Hcontent). exists response.
    split; [| exact Hcontent]. cbn [set_response set_responses responses].
    now rewrite obj_get_set_other.
Qed.

(** X27.  Curated examples need a JSON slot to land in.  When the prior
    operation has a request body without the [application/json] media type
    (an upload recorded as [multipart/form-data]) and the curated file
    gives the method request examples, or when the prior operation has,
    under a status code, a response without that media type (a response
    recorded without a body) and the curated file gives that code
    examples, [generateSchema] returns no specification. *)
Theorem curated_examples_need_a_json_slot (filename : string)
  (masterExamples : ExampleFile) (oldSpec : OpenApiSpec) (path method : string)
  (curated : obj MethodExamples) (examples : MethodExamples) (prior : OperationObject) :
  NoDup (Object_keys masterExamples) ->
  NoDup (Object_keys curated) ->
  NoDup (Object_keys (response_examples examples)) ->
  obj_get path masterExamples = Some curated ->
  obj_get method curated = Some examples ->
  get_method path method oldSpec = Some prior ->
  (request_examples examples <> [] /\ request_without_json prior)
  \/ (exists statusCode pool,
        obj_get statusCode (response_examples examples) = Some pool
        /\ pool <> []
        /\ response_without_json statusCode prior) ->
  generateSchema quicktypeJSON toOpenApiSchema filename masterExamples oldSpec = None.
Proof.
  intros Hpaths Hmethods Hslots Hpath Hmethod Hprior Hcase.
  destruct (generateSchema quicktypeJSON toOpenApiSchema filename masterExamples oldSpec)
    as [newSpec |] eqn:Hrun; [exfalso | reflexivity].
  destruct (generateSchema_get _ _ _ _ _ _ _ _ _ _ Hrun Hpaths Hmethods Hpath Hmethod)
    as (m1 & m2 & H1 & H2 & _).
  assert (Hstart : start_operation path method (path_methods (prior_item path oldSpec))
                   = prior).
  { unfold start_operation, prior_item. unfold get_method in Hprior.
    destruct (obj_get path (paths oldSpec)); [now rewrite Hprior | discriminate]. }
  rewrite Hstart in H1.
  destruct Hcase as [[Hne Hbody] | (statusCode & pool & Hget & Hne & Hresp)].
  - rewrite (reconcile_request_without_json _ _ _ _ _ Hbody Hne) in H1. discriminate H1.
  - assert (Hsame : responses m1 = responses prior)
      by (now rewrite (reconcile_request_frame _ _ _ _ _ _ _ _ H1)).
    assert (Hresp1 : response_without_json statusCode m1)
      by (unfold response_without_json; now rewrite Hsame).
    rewrite (reconcile_responses_without_json _ _ _ _ _ _ _ Hslots Hget Hne Hresp1) in H2.
    discriminate H2.
Qed.

End ReconcilerProperties.

Lemma unflagged_slot_stops_the_reconciliation_witness :
  generateSchema (fun _ _ _ => Some (JObj [("type", JStr "object")])) Some
    "examples.json"
    (curated_same_path
     ++ [("/users/",
          [("get", {| request_examples := [("example-0001", JObj [("id", JNum 1)])];
                      response_examples := [] |})])])%list
    prior_spec
  = None.
Proof.
  apply (unflagged_slot_stops_the_reconciliation
           (fun _ _ _ => Some (JObj [("type", JStr "object")])) Some "examples.json"
           _ prior_spec "/users/" "get"
           [("get", {| request_examples := [("example-0001", JObj [("id", JNum 1)])];
                       response_examples := [] |})]
           {| request_examples := [("example-0001", JObj [("id", JNum 1)])];
              response_examples := [] |}).
  - right. now left.
  - now left.
  - left. split; [discriminate |].
    intros name v [[= <- <-] | []]. reflexivity.
Defined.

Lemma reconciliation_writes_curated_slots_only_witness :
  exists newSpec operation,
    generateSchema (fun _ _ _ => Some (JObj [("type", JStr "object")])) Some
                   "examples.json" curated_same_path prior_spec = Some newSpec
    /\ get_method "/accounts/" "get" newSpec = Some operation
    /\ operationId operation = "get-accounts"
    /\ summary operation = "List accounts"
    /\ tags operation = ["Miscellaneous"]
    /\ requestBody operation = None
    /\ obj_get "404" (responses operation) = None.
Proof.
  destruct (generateSchema (fun _ _ _ => Some (JObj [("type", JStr "object")])) Some
                           "examples.json" curated_same_path prior_spec)
    as [newSpec |] eqn:Hrun; [| vm_compute in Hrun; discriminate Hrun].
  destruct (reconciliation_writes_curated_slots_only
              (fun _ _ _ => Some (JObj [("type", JStr "object")])) Some "examples.json"
              curated_same_path prior_spec newSpec "/accounts/" "get"
              [("get", {| request_examples := [];
                          response_examples :=
                            [("200", [("gexample-0002", JObj [("id", JNum 42)])])] |})]
              {| request_examples := [];
                 response_examples :=
                   [("200", [("gexample-0002", JObj [("id", JNum 42)])])] |}
              Hrun ltac:(repeat constructor; simpl; tauto)
              ltac:(repeat constructor; simpl; tauto) eq_refl eq_refl)
    as (operation & Hget & Hid & Hsummary & _ & _ & Htags & _ & Hbody & Hresponses).
  exists newSpec, operation. split; [reflexivity |].
  split; [exact Hget |]. split; [exact Hid |]. split; [exact Hsummary |].
  split; [exact Htags |]. split; [exact (Hbody eq_refl) |].
  apply (Hresponses "404"). intros pool [[=] | []].
Defined.

Lemma uncaptured_method_gets_a_derived_identity_witness :
  exists newSpec operation,
    generateSchema (fun _ _ _ => Some (JObj [("type", JStr "object")])) Some
                   "examples.json" curated_new_method prior_spec = Some newSpec
    /\ get_method "/users/" "post" newSpec = Some operation
    /\ operationId operation = "post-users"
    /\ summary operation = "post-users"
    /\ tags operation = ["UNKNOWN"]
    /\ originalPath (meta operation) = "https://app.crunch.io/api/users/".
Proof.
  destruct (generateSchema (fun _ _ _ => Some (JObj [("type", JStr "object")])) Some
                           "examples.json" curated_new_method prior_spec)
    as [newSpec |] eqn:Hrun; [| vm_compute in Hrun; discriminate Hrun].
  destruct (uncaptured_method_gets_a_derived_identity
              (fun _ _ _ => Some (JObj [("type", JStr "object")])) Some "examples.json"
              curated_new_method prior_spec newSpec "/users/" "post"
              [("post", {| request_examples := [("gexample-0001", JObj [("name", JStr "a")])];
                 response_examples :=
                   [("201", [("example-0001", JObj [("id", JNum 1)]);
                             ("gexample-0002", JObj [("id", JNum 2)])])] |})]
              {| request_examples := [("gexample-0001", JObj [("name", JStr "a")])];
                 response_examples :=
                   [("201", [("example-0001", JObj [("id", JNum 1)]);
                             ("gexample-0002", JObj [("id", JNum 2)])])] |}
              Hrun ltac:(repeat constructor; simpl; tauto)
              ltac:(repeat constructor; simpl; tauto) eq_refl eq_refl eq_refl)
    as (operation & Hget & Hid & Hsummary & Htags & _ & Hpath).
  exists newSpec, operation. split; [reflexivity |].
  split; [exact Hget |]. split; [exact Hid |]. split; [exact Hsummary |].
  split; [exact Htags | exact Hpath].
Defined.

Lemma curated_slots_hold_the_published_examples_witness :
  exists newSpec operation,
    generateSchema (fun _ _ _ => Some (JObj [("type", JStr "object")])) Some
                   "examples.json" curated_new_method prior_spec = Some newSpec
    /\ get_method "/users/" "post" newSpec = Some operation
    /\ request_pool operation = [("example-1", JObj [("name", JStr "a")])]
    /\ response_pool "201" operation = [("example-1", JObj [("id", JNum 2)])].
Proof.
  destruct (generateSchema (fun _ _ _ => Some (JObj [("type", JStr "object")])) Some
                           "examples.json" curated_new_method prior_spec)
    as [newSpec |] eqn:Hrun; [| vm_compute in Hrun; discriminate Hrun].
  destruct (curated_slots_hold_the_published_examples
              (fun _ _ _ => Some (JObj [("type", JStr "object")])) Some "examples.json"
              curated_new_method prior_spec newSpec "/users/" "post"
              [("post", {| request_examples := [("gexample-0001", JObj [("name", JStr "a")])];
                 response_examples :=
                   [("201", [("example-0001", JObj [("id", JNum 1)]);
                             ("gexample-0002", JObj [("id", JNum 2)])])] |})]
              {| request_examples := [("gexample-0001", JObj [("name", JStr "a")])];
                 response_examples :=
                   [("201", [("example-0001", JObj [("id", JNum 1)]);
                             ("gexample-0002", JObj [("id", JNum 2)])])] |}
              Hrun ltac:(repeat constructor; simpl; tauto)
              ltac:(repeat constructor; simpl; tauto)
              ltac:(repeat constructor; simpl; tauto) eq_refl eq_refl)
    as (operation & Hget & Hrequest & Hresponses).
  exists newSpec, operation. split; [reflexivity |]. split; [exact Hget |]. split.
  - destruct (Hrequest ltac:(discriminate)) as (stats & Hvalid & Hpool).
    vm_compute in Hvalid. injection Hvalid as <-. exact Hpool.
  - destruct (Hresponses "201" _ eq_refl ltac:(discriminate))
      as (stats & Hvalid & Hpool).
    vm_compute in Hvalid. injection Hvalid as <-. exact Hpool.
Defined.

Lemma curated_examples_need_a_json_slot_witness :
  generateSchema (fun _ _ _ => Some (JObj [("type", JStr "object")])) Some
    "examples.json"
    [("/files/",
      [("post", {| request_examples := [("gexample-0001", JObj [("name", JStr "a")])];
                   response_examples := [] |})])]
    prior_upload_spec
  = None
  /\ generateSchema (fun _ _ _ => Some (JObj [("type", JStr "object")])) Some
       "examples.json"
       [("/files/",
         [("post", {| request_examples := [];
                      response_examples :=
                        [("204", [("gexample-0001", JObj [("id", JNum 1)])])] |})])]
       prior_upload_spec
     = None.
Proof.
  split.
  - apply (curated_examples_need_a_json_slot
             (fun _ _ _ => Some (JObj [("type", JStr "object")])) Some "examples.json"
             [("/files/",
               [("post", {| request_examples :=
                              [("gexample-0001", JObj [("name", JStr "a")])];
                            response_examples := [] |})])]
             prior_upload_spec "/files/" "post"
             [("post", {| request_examples := [("gexample-0001", JObj [("name", JStr "a")])];
                response_examples := [] |})]
             {| request_examples := [("gexample-0001", JObj [("name", JStr "a")])];
                response_examples := [] |}
             (set_requestBody (Some binary_requestBody)
                (set_responses [("204", described "Item created")] sample_operation))
             ltac:(repeat constructor; simpl; tauto)
             ltac:(repeat constructor; simpl; tauto)
             ltac:(repeat constructor; simpl; tauto) eq_refl eq_refl eq_refl).
    left. split; [discriminate |]. exists binary_requestBody. now split.
  - apply (curated_examples_need_a_json_slot
             (fun _ _ _ => Some (JObj [("type", JStr "object")])) Some "examples.json"
             [("/files/", [("post", {| request_examples := [];
                response_examples :=
                  [("204", [("gexample-0001", JObj [("id", JNum 1)])])] |})])]
             prior_upload_spec "/files/" "post"
             [("post", {| request_examples := [];
                response_examples :=
                  [("204", [("gexample-0001", JObj [("id", JNum 1)])])] |})]
             {| request_examples := [];
                response_examples :=
                  [("204", [("gexample-0001", JObj [("id", JNum 1)])])] |}
             (set_requestBody (Some binary_requestBody)
                (set_responses [("204", described "Item created")] sample_operation))
             ltac:(repeat constructor; simpl; tauto)
             ltac:(repeat constructor; simpl; tauto)
             ltac:(repeat constructor; simpl; tauto) eq_refl eq_refl eq_refl).
    right. exists "204", [("gexample-0001", JObj [("id", JNum 1)])].
    split; [reflexivity |]. split; [discriminate |].
    exists (described "Item created"). now split.
Defined.

(** ** Writing the examples out, further *)

Lemma write_request_examples_In (shoji : bool) (exampleCount : nat) (examples : Examples)
  (exampleNum : nat) (written : obj json) (name : string) (value : json) :
  In (name, value) (write_request_examples shoji exampleCount exampleNum examples written) ->
  In (name, value) written \/ In (name, value) examples.
Proof.
  revert exampleNum written.
  induction examples as [| [k v] examples IH]; intros exampleNum written;
    cbn [write_request_examples]; [now left |].
  intros Hin. apply IH in Hin. destruct Hin as [Hin | Hin]; [| right; now right].
  destruct (_ && _).
  - apply In_obj_set in Hin. destruct Hin as [-> | Hin]; [right; now left | now left].
  - now left.
Qed.

Lemma write_response_examples_In (exampleCount : nat) (examples : Examples)
  (exampleNum : nat) (written : obj json) (name : string) (value : json) :
  In (name, value) (write_response_examples exampleCount exampleNum examples written) ->
  In (name, value) written \/ In (name, value) examples.
Proof.
  revert exampleNum written.
  induction examples as [| [k v] examples IH]; intros exampleNum written;
    cbn [write_response_examples]; [now left |].
  intros Hin. apply IH in Hin. destruct Hin as [Hin | Hin]; [| right; now right].
  destruct (_ || _).
  - apply In_obj_set in Hin. destruct Hin as [-> | Hin]; [right; now left | now left].
  - now left.
Qed.

Lemma write_responses_In (responses : obj ResponseObject) (written : obj (obj json))
  (statusCode : string) (pool : obj json) :
  In (statusCode, pool) (write_responses responses written) ->
  In (statusCode, pool) written
  \/ exists response examples,
       In (statusCode, response) responses
       /\ optional_examples (resp_content response) = Some examples
       /\ forall name value, In (name, value) pool -> In (name, value) examples.
Proof.
  revert written.
  induction responses as [| [s response] responses IH]; intros written;
    cbn [write_responses]; [now left |].
  intros Hin. apply IH in Hin.
  destruct Hin as [Hin | (r & examples & Hr & Hex & Hsub)];
    [| right; exists r, examples; split; [now right | now split]].
  destruct (optional_examples (resp_content response)) as [examples |] eqn:Hex;
    [| now left].
  apply In_obj_set in Hin. destruct Hin as [[= -> ->] | Hin]; [| now left].
  right. exists response, examples. split; [now left | split; [exact Hex |]].
  intros name value Hin. apply write_response_examples_In in Hin.
  now destruct Hin as [[] | Hin].
Qed.

Lemma write_methods_In (methods : obj OperationObject)
  (written out : obj MethodExamples) (lMethod : string) (examples : MethodExamples) :
  write_methods methods written = Some out ->
  In (lMethod, examples) out ->
  In (lMethod, examples) written
  \/ (lMethod <> "options"
      /\ exists method, In (lMethod, method) methods /\ write_method method = Some examples).
Proof.
  revert written.
  induction methods as [| [k method] methods IH]; intros written; cbn [write_methods].
  - intros [= <-] Hin. now left.
  - destruct (String.eqb_spec k "options") as [-> | Hne].
    + intros Hrun Hin. destruct (IH _ Hrun Hin) as [H | (H1 & m & H2 & H3)];
        [now left | right].
      split; [exact H1 |]. exists m. split; [now right | exact H3].
    + destruct (write_method method) as [ex |] eqn:Hm; [| discriminate].
      intros Hrun Hin. destruct (IH _ Hrun Hin) as [H | (H1 & m & H2 & H3)].
      * apply In_obj_set in H. destruct H as [[= -> ->] | H]; [| now left].
        right. split; [exact Hne |]. exists method. split; [now left | exact Hm].
      * right. split; [exact H1 |]. exists m. split; [now right | exact H3].
Qed.

Lemma write_paths_In (items : obj PathItemObject) (specExamples out : ExampleFile)
  (path : string) (methods : obj MethodExamples) :
  write_paths items specExamples = Some out ->
  In (path, methods) out ->
  In (path, methods) specExamples
  \/ exists item,
       In (path, item) items /\ write_methods (path_methods item) [] = Some methods.
Proof.
  revert specExamples.
  induction items as [| [p item] items IH]; intros specExamples; cbn [write_paths].
  - intros [= <-] Hin. now left.
  - destruct (write_methods (path_methods item) []) as [ms |] eqn:Hms; [| discriminate].
    intros Hrun Hin. destruct (IH _ Hrun Hin) as [H | (i & H1 & H2)].
    + apply In_obj_set in H. destruct H as [[= -> ->] | H]; [| now left].
      right. exists item. split; [now left | exact Hms].
    + right. exists i. split; [now right | exact H2].
Qed.

(** X28.  The export invents nothing.  Every example of the file that
    [writeExamples] makes is an example of the specification, under the
    same path, method, slot and name and with the same value; and no
    method of the file is [options]. *)
Theorem export_invents_nothing (spec : OpenApiSpec) (file : ExampleFile)
  (path lMethod : string) (methods : obj MethodExamples) (examples : MethodExamples) :
  writeExamples spec = Some file ->
  In (path, methods) file ->
  In (lMethod, examples) methods ->
  lMethod <> "options"
  /\ exists item method,
       In (path, item) (paths spec)
       /\ In (lMethod, method) (path_methods item)
       /\ (forall name value,
             In (name, value) (request_examples examples) ->
             request_example_of method name value)
       /\ (forall statusCode pool name value,
             In (statusCode, pool) (response_examples examples) ->
             In (name, value) pool ->
             response_example_of method statusCode name value).
Proof.
  unfold writeExamples. intros Hrun Hpath Hmethod.
  destruct (write_paths_In _ _ _ _ _ Hrun Hpath) as [[] | (item & Hitem & Hmethods)].
  destruct (write_methods_In _ _ _ _ _ Hmethods Hmethod)
    as [[] | (Hne & method & Hin & Hwrite)].
  split; [exact Hne |]. exists item, method.
  split; [exact Hitem | split; [exact Hin |]].
  unfold write_method in Hwrite.
  destruct (optional_examples (option_map rb_content (requestBody method)))
    as [pool |] eqn:Hpool.
  - destruct (some_shoji pool false) as [shoji |]; [| discriminate].
    injection Hwrite as <-. cbn [request_examples response_examples]. split.
    + intros name value Hin'. exists pool. split; [exact Hpool |].
      apply write_request_examples_In in Hin'. now destruct Hin' as [[] | Hin'].
    + intros statusCode p name value Hs Hin'.
      destruct (write_responses_In _ _ _ _ Hs) as [[] | (r & ex & Hr & Hex & Hsub)].
      exists r, ex. split; [exact Hr | split; [exact Hex | now apply Hsub]].
  - injection Hwrite as <-. cbn [request_examples response_examples]. split.
    + intros name value [].
    + intros statusCode p name value Hs Hin'.
      destruct (write_responses_In _ _ _ _ Hs) as [[] | (r & ex & Hr & Hex & Hsub)].
      exists r, ex. split; [exact Hr | split; [exact Hex | now apply Hsub]].
Qed.

Lemma export_invents_nothing_witness :
  let body := JObj [("id", JNum 42); ("name", JStr "a")] in
  let operation :=
    mergeResponseExample (addResponse 200 "get" sample_operation) "200" (Some body)
                         "get" "/accounts/" in
  let spec :=
    {| openapi := JStr "3.0.0";
       info := JObj [("title", JStr "API")];
       servers := None;
       paths := [("/accounts/",
                  {| path_parameters := None;
                     path_methods := [("get", operation);
                                      ("options", sample_operation)] |})] |} in
  writeExamples spec
  = Some [("/accounts/",
           [("get", {| request_examples := [];
                       response_examples := [("200", [("example-0001", body)])] |})])]
  /\ response_example_of operation "200" "example-0001" body.
Proof.
  intros body operation spec. split; [reflexivity |].
  destruct (export_invents_nothing spec
              [("/accounts/",
                [("get", {| request_examples := [];
                            response_examples := [("200", [("example-0001", body)])] |})])]
              "/accounts/" "get"
              [("get", {| request_examples := [];
                          response_examples := [("200", [("example-0001", body)])] |})]
              {| request_examples := [];
                 response_examples := [("200", [("example-0001", body)])] |}
              eq_refl (or_introl eq_refl) (or_introl eq_refl))
    as (_ & item & method & Hitem & Hmethod & _ & Hresponse).
  destruct Hitem as [[= <-] | []].
  destruct Hmethod as [[= <-] | [[=] | []]].
  apply (Hresponse "200" [("example-0001", body)]); now left.
Defined.

(** ** The engine of the examples *)

(** The matches the matcher lists end inside the text left. *)
Definition ends_within (pos : nat) (s : string) (ends : list (nat * string)) : Prop :=
  forall e rest, In (e, rest) ends ->
    (pos <= e)%nat /\ (e + String.length rest = pos + String.length s)%nat.

Lemma rstar_ends_within (step : nat -> string -> list (nat * string)) (greedy : bool) :
  (forall pos s, ends_within pos s (step pos s)) ->
  forall fuel pos s, ends_within pos s (rstar step greedy fuel pos s).
Proof.
  intros Hstep. induction fuel as [| fuel IH]; intros pos s e rest; cbn [rstar].
  - intros [[= <- <-] | []]. lia.
  - assert (Hmore : forall e' rest',
               In (e', rest')
                  (flat_map (fun x => if (pos <? fst x)%nat
                                      then rstar step greedy fuel (fst x) (snd x)
                                      else [])
                            (step pos s)) ->
               (pos <= e')%nat /\ (e' + String.length rest' = pos + String.length s)%nat).
    { intros e' rest' Hin. apply in_flat_map in Hin. destruct Hin as ([e1 r1] & H1 & H2).
      cbn [fst snd] in H2. destruct (pos <? e1)%nat; [| destruct H2].
      destruct (Hstep _ _ _ _ H1) as [Ha Hb]. destruct (IH _ _ _ _ H2) as [Hc Hd]. lia. }
    destruct greedy.
    + intros Hin. apply in_app_or in Hin.
      destruct Hin as [Hin | [[= <- <-] | []]]; [now apply Hmore | lia].
    + intros [[= <- <-] | Hin]; [lia | now apply Hmore].
Qed.

Lemma rmatch_ends_within (r : regex) : forall pos s, ends_within pos s (rmatch r pos s).
Proof.
  induction r as [| c | | negated ranges | r1 IH1 r2 IH2 | r1 IH1 r2 IH2 | greedy r IH | |];
    intros pos s e rest; cbn [rmatch].
  - intros [[= <- <-] | []]. lia.
  - destruct s as [| c' s']; [intros [] |].
    destruct (Ascii.eqb c c'); [| intros []]. intros [[= <- <-] | []]. cbn. lia.
  - destruct s as [| c' s']; [intros [] |].
    destruct (is_line_terminator c'); [intros [] |]. intros [[= <- <-] | []]. cbn. lia.
  - destruct s as [| c' s']; [intros [] |].
    destruct (xorb negated (existsb (in_range c') ranges)); [| intros []].
    intros [[= <- <-] | []]. cbn. lia.
  - intros Hin. apply in_flat_map in Hin. destruct Hin as ([e1 r1'] & H1 & H2).
    cbn [fst snd] in H2.
    destruct (IH1 _ _ _ _ H1) as [Ha Hb]. destruct (IH2 _ _ _ _ H2) as [Hc Hd]. lia.
  - intros Hin. apply in_app_or in Hin. destruct Hin as [Hin | Hin];
      [exact (IH1 _ _ _ _ Hin) | exact (IH2 _ _ _ _ Hin)].
  - apply rstar_ends_within. exact IH.
  - destruct (pos =? 0)%nat; [| intros []]. intros [[= <- <-] | []]. lia.
  - destruct s; [| intros []]. intros [[= <- <-] | []]. lia.
Qed.

Lemma match_at_within (r : regex) (pos e : nat) (s : string) :
  match_at r pos s = Some e -> (pos <= e <= pos + String.length s)%nat.
Proof.
  unfold match_at. destruct (rmatch r pos s) as [| [e' rest] ends] eqn:E; [discriminate |].
  intros [= <-]. destruct (rmatch_ends_within r pos s e' rest) as [Ha Hb].
  - rewrite E. now left.
  - cbn [fst]. lia.
Qed.

Lemma substring_nothing (n : nat) (s : string) : substring n 0 s = "".
Proof. revert n. induction s as [| c s IH]; intros [| n]; cbn; auto. Qed.

Lemma substring_beyond (n m : nat) (s : string) :
  (String.length s <= n)%nat -> substring n m s = "".
Proof.
  revert n m. induction s as [| c s IH]; intros n m H.
  - destruct n, m; reflexivity.
  - destruct n as [| n]; cbn in H; [lia |]. cbn. apply IH. lia.
Qed.

Lemma length_substring (n m : nat) (s : string) :
  (n + m <= String.length s)%nat -> String.length (substring n m s) = m.
Proof.
  revert n m. induction s as [| c s IH]; intros n m H; cbn in H.
  - assert (n = 0%nat) by lia. assert (m = 0%nat) by lia. now subst.
  - destruct n as [| n]; cbn.
    + destruct m as [| m]; cbn; [reflexivity |]. f_equal. apply IH. lia.
    + apply IH. lia.
Qed.

(** One more character of the text copied. *)
Lemma substring_extend (prefix : string) (c : ascii) (s : string) (next : nat) :
  (next <= String.length prefix)%nat ->
  substring next (S (String.length prefix) - next) (prefix ++ String c s)
  = substring next (String.length prefix - next) (prefix ++ String c s) ++ String c "".
Proof.
  revert next. induction prefix as [| a prefix IH]; intros next H; cbn in H.
  - assert (next = 0%nat) by lia. subst. cbn. now rewrite substring_nothing.
  - destruct next as [| next].
    + cbn [String.length Nat.sub append substring]. f_equal.
      specialize (IH 0%nat ltac:(lia)). rewrite !Nat.sub_0_r in IH. exact IH.
    + cbn [String.length Nat.sub append substring]. apply IH. lia.
Qed.

Lemma append_empty_r (s : string) : s ++ "" = s.
Proof. induction s as [| c s IH]; cbn; [reflexivity | now rewrite IH]. Qed.

Lemma append_assoc (s1 s2 s3 : string) : (s1 ++ s2) ++ s3 = s1 ++ s2 ++ s3.
Proof. induction s1 as [| c s1 IH]; cbn; [reflexivity | now rewrite IH]. Qed.

Lemma append_snoc (prefix : string) (c : ascii) (s : string) :
  prefix ++ String c s = (prefix ++ String c "") ++ s.
Proof. induction prefix as [| a prefix IH]; cbn; [reflexivity | now rewrite IH]. Qed.

Lemma length_snoc (prefix : string) (c : ascii) :
  String.length (prefix ++ String c "") = S (String.length prefix).
Proof. induction prefix as [| a prefix IH]; cbn; [reflexivity | now rewrite IH]. Qed.

(** On the patterns of the fragment, the replacement by the results of
    the engine of the examples is the replacement that the matcher makes
    for the patterns of [lib.ts]. *)
Lemma replace_results_exec_from (r : regex) (replacement : string) (s : string) :
  forall (prefix : string) (skip next : nat),
    (next = String.length prefix + skip
     \/ (skip = 0 /\ next <= String.length prefix))%nat ->
    replace_results (prefix ++ s) replacement
                    (exec_from r (prefix ++ s) (String.length prefix) skip s) next
    = substring next (String.length prefix - next) (prefix ++ s)
      ++ replace_from r (prefix ++ s) replacement (String.length prefix) skip s.
Proof.
  induction s as [| c s IH]; intros prefix skip next Hnext.
  - destruct skip as [| skip]; cbn [exec_from replace_from].
    + destruct (match_at r (String.length prefix) "") as [e |] eqn:E.
      * apply match_at_within in E. cbn [String.length] in E.
        assert (e = String.length prefix) by lia. subst e.
        assert (Hlen : String.length (prefix ++ "") = String.length prefix)
          by (now rewrite length_append, Nat.add_0_r).
        cbn [replace_results mr_index mr_matched mr_captures mr_groups].
        rewrite Hlen, Nat.min_id.
        destruct (Nat.leb_spec next (String.length prefix)) as [_ | Hgt]; [| lia].
        unfold substitute. rewrite !Nat.sub_diag, !substring_nothing. cbn [String.length].
        now rewrite Nat.add_0_r, Nat.sub_diag, substring_nothing.
      * cbn [replace_results]. rewrite length_append. cbn [String.length].
        now rewrite Nat.add_0_r, !append_empty_r.
    + cbn [replace_results]. rewrite length_append. cbn [String.length].
      rewrite Nat.add_0_r, !append_empty_r.
      replace (String.length prefix - next)%nat with 0%nat by lia.
      now rewrite substring_nothing.
  - assert (Hlen : String.length (prefix ++ String c s)
                   = (String.length prefix + S (String.length s))%nat)
      by (now rewrite length_append).
    assert (Hstep : forall skip' next',
               (next' = S (String.length prefix) + skip'
                \/ (skip' = 0 /\ next' <= S (String.length prefix)))%nat ->
               replace_results (prefix ++ String c s) replacement
                 (exec_from r (prefix ++ String c s) (S (String.length prefix)) skip' s)
                 next'
               = substring next' (S (String.length prefix) - next') (prefix ++ String c s)
                 ++ replace_from r (prefix ++ String c s) replacement
                                 (S (String.length prefix)) skip' s).
    { intros skip' next' H'. specialize (IH (prefix ++ String c "") skip' next').
      rewrite <- append_snoc, length_snoc in IH. apply IH. exact H'. }
    destruct skip as [| skip]; cbn [exec_from replace_from].
    + assert (Hle : (next <= String.length prefix)%nat)
        by (destruct Hnext as [H | [_ H]]; lia).
      clear Hnext.
      destruct (match_at r (String.length prefix) (String c s)) as [e |] eqn:E.
      * apply match_at_within in E. cbn [String.length] in E.
        cbn [replace_results mr_index mr_matched mr_captures mr_groups].
        rewrite Hlen.
        replace (Nat.min (String.length prefix)
                         (String.length prefix + S (String.length s)))
          with (String.length prefix) by lia.
        destruct (Nat.leb_spec next (String.length prefix)) as [_ | Hgt]; [| lia].
        rewrite length_substring by lia.
        unfold substitute. f_equal. f_equal.
        destruct (Nat.eqb_spec e (String.length prefix)) as [-> | Hne].
        -- rewrite Nat.sub_diag. cbn [Nat.sub]. rewrite Hstep by lia.
           rewrite Nat.add_0_r, substring_extend by lia.
           now rewrite Nat.sub_diag, substring_nothing.
        -- rewrite Hstep by lia.
           replace (S (String.length prefix)
                    - (String.length prefix + (e - String.length prefix)))%nat
             with 0%nat by lia.
           now rewrite substring_nothing.
      * rewrite Hstep by lia. rewrite substring_extend by lia.
        now rewrite append_assoc.
    + destruct Hnext as [Hnext | [Hnext _]]; [| discriminate Hnext].
      rewrite Hstep by lia.
      replace (S (String.length prefix) - next)%nat with 0%nat by lia.
      replace (String.length prefix - next)%nat with 0%nat by lia.
      reflexivity.
Qed.

Lemma String_replace_fragment (r : regex) (replacement s : string) :
  String_replace fragment_engine r replacement s = replace_all r replacement s.
Proof.
  unfold String_replace, replace_all. cbn [exec_all fragment_engine].
  pose proof (replace_results_exec_from r replacement s "" 0 0 (or_introl eq_refl)) as H.
  cbn [append String.length Nat.sub] in H. now rewrite substring_nothing in H.
Qed.
